(** * The image cropper, the unread counters and the conversation list

    A shallow embedding of the client-side logic of the social-media
    client:

    - [Cropper]: [src/components/ImageCropper.tsx], the square (1:1)
      cropper whose region is [{x, y, size}] and whose export is a fixed
      400 x 400 JPEG;
    - [RatioCropper]: the revision of the same component that takes an
      [aspectRatio] property, keeps a region [{x, y, w, h}], offers eight
      resize handles and exports at most 1080 pixels in width (the last
      [ImageCropper] document stored after [SearchPage.tsx]; the document
      before it has the ratio without the handles, and the same
      [calcDims] and [handleCrop]);
    - [Unread]: the three unread counters of [App.tsx] and [HomePage.tsx];
    - [Messages]: the conversation list of the messages page, in the
      revision with the long-press menu ([handleDeleteConversation],
      [saveDeletedConvos], [fetchMessages]).

    JavaScript numbers are modelled as exact rationals ([Q]): every
    arithmetic step is the mathematical one, without IEEE-754 rounding.
    Division is only used at non-zero denominators in the statements below
    (on [Q], [x / 0] is [0], where JavaScript yields an infinity or NaN).
    Where the rounding decides, the geometry of the square cropper is
    taken once more in binary64 ([Cropper64], on the primitive floats):
    the containment of the region in the displayed picture holds in exact
    arithmetic and is missed by one unit in the last place in binary64.
    Timestamps (ISO strings in the source, compared by the backend as
    instants) are integers: milliseconds since the epoch. *)

From Stdlib Require Import QArith Qround Qabs Lqa ZArith List Floats.
From stdpp Require Import base option list sorting strings pretty gmap.

(** ** JavaScript arithmetic on exact rationals *)

Module Js.
Local Open Scope Q_scope.

(** [Math.max(a, b)], [Math.min(a, b)] *)
Definition Math_max (a b : Q) : Q := if Qle_bool a b then b else a.
Definition Math_min (a b : Q) : Q := if Qle_bool a b then a else b.

(** [a > b], [a >= b], [a <= b] *)
Definition gt (a b : Q) : bool := negb (Qle_bool a b).
Definition ge (a b : Q) : bool := Qle_bool b a.
Definition le (a b : Q) : bool := Qle_bool a b.
Definition lt (a b : Q) : bool := negb (Qle_bool b a).

(** [Math.abs(a)] *)
Definition Math_abs (a : Q) : Q := if Qle_bool 0 a then a else - a.

(** [Math.round(a)]: the integer nearest to [a], halves going up. *)
Definition Math_round (a : Q) : Z := Qfloor (a + (1 # 2)).

End Js.

(** ** Browser objects shared by both croppers *)

Module Dom.
Local Open Scope Q_scope.

(** [imgRef.current]: the decoded image, with its natural size. *)
Record Image := { naturalWidth : Q; naturalHeight : Q }.

(** [containerRef.current]: the element that receives the pointer events;
    [left] and [top] come from [getBoundingClientRect()]. *)
Record Container := {
  left : Q; top : Q; clientWidth : Q; clientHeight : Q }.

(** A decoded picture and a laid-out container have a size. *)
Definition positive_image (img : Image) : Prop :=
  0 < naturalWidth img /\ 0 < naturalHeight img.

Definition positive_box (box : Container) : Prop :=
  0 < clientWidth box /\ 0 < clientHeight box.

(** [imgDims]: [{ w, h, dispW, dispH, offsetX, offsetY }] *)
Record ImgDims := {
  img_w : Q; img_h : Q; dispW : Q; dispH : Q; offsetX : Q; offsetY : Q }.

(** What [canvas.toBlob] hands to its callback: the encoded picture has
    the size of the canvas, and the type and quality it was asked for. *)
Inductive Mime := image_jpeg | image_png.

Record Blob := {
  blob_width : Z; blob_height : Z; blob_type : Mime; blob_quality : Q }.

(** The call [ctx.drawImage(img, sx, sy, sw, sh, 0, 0, dw, dh)] *)
Record Draw := {
  draw_sx : Q; draw_sy : Q; draw_sw : Q; draw_sh : Q;
  draw_dw : Z; draw_dh : Z }.

(** [canvas.toBlob(cb, type, quality)]: a canvas without pixels encodes to
    [null]; otherwise [cb] receives the encoded canvas. *)
Definition toBlob (width height : Z) (type : Mime) (quality : Q) : option Blob :=
  if ((width <=? 0) || (height <=? 0))%Z then None
  else Some {| blob_width := width; blob_height := height;
               blob_type := type; blob_quality := quality |}.

(** What a cropper tells its caller: the two callbacks of [Props]. *)
Inductive Output := onCrop (b : Blob) | onCancel.

(** What the container shows: the picture with its overlay once
    [imgLoaded] holds, the spinner before. *)
Inductive View := ShowsImage | ShowsSpinner.

End Dom.

(** ** The square cropper: [src/components/ImageCropper.tsx] *)

Module Cropper.
Import Js Dom.
Local Open Scope Q_scope.

(** [cropArea]: [{ x, y, size }] *)
Record CropArea := { crop_x : Q; crop_y : Q; crop_size : Q }.

(** The component state: the two refs read by the geometry and the
    [useState] cells.  [canvasReady] says that the hidden canvas is mounted
    and gives a 2D context. *)
Record State := {
  imgRef : option Image;
  containerRef : option Container;
  canvasReady : bool;
  imgLoaded : bool;
  cropArea : CropArea;
  dragging : bool;
  dragStart : Q * Q;
  imgDims : ImgDims }.

(** The first render: every [useState] at its initial value. *)
Definition initial (c : option Container) (canvas : bool) : State :=
  {| imgRef := None; containerRef := c; canvasReady := canvas;
     imgLoaded := false;
     cropArea := {| crop_x := 0; crop_y := 0; crop_size := 200 |};
     dragging := false; dragStart := (0, 0);
     imgDims := {| img_w := 0; img_h := 0; dispW := 0; dispH := 0;
                   offsetX := 0; offsetY := 0 |} |}.

Definition set_cropArea (s : State) (c : CropArea) : State :=
  {| imgRef := imgRef s; containerRef := containerRef s;
     canvasReady := canvasReady s; imgLoaded := imgLoaded s;
     cropArea := c; dragging := dragging s; dragStart := dragStart s;
     imgDims := imgDims s |}.

Definition set_dragging (s : State) (b : bool) : State :=
  {| imgRef := imgRef s; containerRef := containerRef s;
     canvasReady := canvasReady s; imgLoaded := imgLoaded s;
     cropArea := cropArea s; dragging := b; dragStart := dragStart s;
     imgDims := imgDims s |}.

(** [calcDims]: scale the image to fit the container, centre it, and
    centre a square of 80% of the smaller displayed side. *)
Definition calcDims (s : State) : State :=
  match imgRef s, containerRef s with
  | Some img, Some box =>
      let cw := clientWidth box in
      let ch := clientHeight box in
      let iw := naturalWidth img in
      let ih := naturalHeight img in
      let scale := Math_min (cw / iw) (ch / ih) in
      let dW := iw * scale in
      let dH := ih * scale in
      let oX := (cw - dW) / 2 in
      let oY := (ch - dH) / 2 in
      let cropSize := Math_min dW dH * 0.8 in
      {| imgRef := imgRef s; containerRef := containerRef s;
         canvasReady := canvasReady s; imgLoaded := imgLoaded s;
         cropArea := {| crop_x := oX + (dW - cropSize) / 2;
                        crop_y := oY + (dH - cropSize) / 2;
                        crop_size := cropSize |};
         dragging := dragging s; dragStart := dragStart s;
         imgDims := {| img_w := iw; img_h := ih; dispW := dW; dispH := dH;
                       offsetX := oX; offsetY := oY |} |}
  | _, _ => s
  end.

(** [clampCrop(x, y)] *)
Definition clampCrop (s : State) (x y : Q) : Q * Q :=
  let minX := offsetX (imgDims s) in
  let minY := offsetY (imgDims s) in
  let maxX := offsetX (imgDims s) + dispW (imgDims s) - crop_size (cropArea s) in
  let maxY := offsetY (imgDims s) + dispH (imgDims s) - crop_size (cropArea s) in
  (Math_max minX (Math_min maxX x), Math_max minY (Math_min maxY y)).

(** [handlePointerDown]: a press inside the square starts a drag and
    records where inside the square the pointer is. *)
Definition handlePointerDown (s : State) (clientX clientY : Q) : State :=
  match containerRef s with
  | None => s
  | Some box =>
      let px := clientX - left box in
      let py := clientY - top box in
      let c := cropArea s in
      if ge px (crop_x c) && le px (crop_x c + crop_size c) &&
         ge py (crop_y c) && le py (crop_y c + crop_size c)
      then
        {| imgRef := imgRef s; containerRef := containerRef s;
           canvasReady := canvasReady s; imgLoaded := imgLoaded s;
           cropArea := cropArea s; dragging := true;
           dragStart := (px - crop_x c, py - crop_y c);
           imgDims := imgDims s |}
      else s
  end.

(** [handlePointerMove]: [setCropArea(prev => ({ ...prev, ...clamped }))] *)
Definition handlePointerMove (s : State) (clientX clientY : Q) : State :=
  if negb (dragging s) then s
  else match containerRef s with
  | None => s
  | Some box =>
      let px := clientX - left box in
      let py := clientY - top box in
      let clamped := clampCrop s (px - fst (dragStart s)) (py - snd (dragStart s)) in
      set_cropArea s {| crop_x := fst clamped; crop_y := snd clamped;
                        crop_size := crop_size (cropArea s) |}
  end.

(** [handlePointerUp] *)
Definition handlePointerUp (s : State) : State := set_dragging s false.

(** The source rectangle computed by [handleCrop] (lines 99-103) *)
Definition sourceRect (d : ImgDims) (c : CropArea) : Q * Q * Q :=
  let scaleX := img_w d / dispW d in
  let scaleY := img_h d / dispH d in
  let srcX := (crop_x c - offsetX d) * scaleX in
  let srcY := (crop_y c - offsetY d) * scaleY in
  let srcSize := crop_size c * Math_min scaleX scaleY in
  (srcX, srcY, srcSize).

(** [handleCrop]: [None] when the handler returns early; otherwise the
    drawing call and the blob given to [onCrop] (if any). *)
Definition handleCrop (s : State) : option (Draw * option Blob) :=
  match imgRef s with
  | None => None
  | Some _ =>
      if negb (canvasReady s) then None
      else
        let '(srcX, srcY, srcSize) := sourceRect (imgDims s) (cropArea s) in
        let outputSize := 400%Z in
        Some ({| draw_sx := srcX; draw_sy := srcY;
                 draw_sw := srcSize; draw_sh := srcSize;
                 draw_dw := outputSize; draw_dh := outputSize |},
              toBlob outputSize outputSize image_jpeg 0.9)
  end.

(** The two branches of the container: [imgLoaded && ...], [!imgLoaded && ...] *)
Definition view (s : State) : View :=
  if imgLoaded s then ShowsImage else ShowsSpinner.

(** The events the component reacts to.  [ImgError] is the browser failing
    to fetch or decode [imageSrc]: the component registers [onload] only. *)
Inductive Event :=
| ImgLoad (img : Image)
| ImgError
| Timeout
| WindowResize (cw ch : Q)
| PointerDown (clientX clientY : Q)
| PointerMove (clientX clientY : Q)
| PointerUp
| ClickApply
| ClickCancel.

Definition set_loaded (s : State) (img : Image) : State :=
  {| imgRef := Some img; containerRef := containerRef s;
     canvasReady := canvasReady s; imgLoaded := true;
     cropArea := cropArea s; dragging := dragging s;
     dragStart := dragStart s; imgDims := imgDims s |}.

Definition resize_container (s : State) (cw ch : Q) : State :=
  {| imgRef := imgRef s;
     containerRef :=
       match containerRef s with
       | Some box => Some {| left := left box; top := top box;
                             clientWidth := cw; clientHeight := ch |}
       | None => None
       end;
     canvasReady := canvasReady s; imgLoaded := imgLoaded s;
     cropArea := cropArea s; dragging := dragging s;
     dragStart := dragStart s; imgDims := imgDims s |}.

(** One event: the new state and the callbacks invoked.  [img.onload] sets
    the ref and the flag; the effect on [imgLoaded] then runs [calcDims]
    when the flag changed, and the 50 ms timer ([Timeout]) runs it again. *)
Definition step (s : State) (e : Event) : State * list Output :=
  match e with
  | ImgLoad img =>
      if imgLoaded s then (set_loaded s img, [])
      else (calcDims (set_loaded s img), [])
  | ImgError => (s, [])
  | Timeout => (calcDims s, [])
  | WindowResize cw ch => (calcDims (resize_container s cw ch), [])
  | PointerDown cx cy => (handlePointerDown s cx cy, [])
  | PointerMove cx cy => (handlePointerMove s cx cy, [])
  | PointerUp => (handlePointerUp s, [])
  | ClickApply =>
      match handleCrop s with
      | Some (_, Some b) => (s, [onCrop b])
      | _ => (s, [])
      end
  | ClickCancel => (s, [onCancel])
  end.

(** A run: the state after a list of events and all callbacks invoked. *)
Fixpoint run (s : State) (es : list Event) : State * list Output :=
  match es with
  | [] => (s, [])
  | e :: es' =>
      let '(s1, o1) := step s e in
      let '(s2, o2) := run s1 es' in
      (s2, o1 ++ o2)
  end.

End Cropper.

(** ** The square cropper in binary64

    The numbers of JavaScript are IEEE 754 binary64 numbers.  This is the
    geometry of [src/components/ImageCropper.tsx] once more, every
    operation rounded as the browser rounds it; it is used where the
    rounding matters. *)

Module Cropper64.
Local Open Scope float_scope.
#[local] Set Warnings "-inexact-float".

(** [Math.max(a, b)], [Math.min(a, b)]: [NaN] when an argument is [NaN];
    [-0] counts as smaller than [+0]. *)
Definition Math_max (a b : float) : float :=
  if is_nan a || is_nan b then nan
  else if a <? b then b
  else if b <? a then a
  else if get_sign a then b else a.

Definition Math_min (a b : float) : float :=
  if is_nan a || is_nan b then nan
  else if a <? b then a
  else if b <? a then b
  else if get_sign a then a else b.

Record Image := { naturalWidth : float; naturalHeight : float }.

Record Container := {
  left : float; top : float; clientWidth : float; clientHeight : float }.

Record ImgDims := {
  img_w : float; img_h : float; dispW : float; dispH : float;
  offsetX : float; offsetY : float }.

Record CropArea := { crop_x : float; crop_y : float; crop_size : float }.

(** The refs and the [useState] cells that the geometry reads. *)
Record State := {
  imgRef : option Image;
  containerRef : option Container;
  imgLoaded : bool;
  cropArea : CropArea;
  dragging : bool;
  dragStart : float * float;
  imgDims : ImgDims }.

Definition initial (c : option Container) : State :=
  {| imgRef := None; containerRef := c; imgLoaded := false;
     cropArea := {| crop_x := 0; crop_y := 0; crop_size := 200 |};
     dragging := false; dragStart := (0, 0);
     imgDims := {| img_w := 0; img_h := 0; dispW := 0; dispH := 0;
                   offsetX := 0; offsetY := 0 |} |}.

(** [calcDims] (lines 19-37) *)
Definition calcDims (s : State) : State :=
  match imgRef s, containerRef s with
  | Some img, Some box =>
      let cw := clientWidth box in
      let ch := clientHeight box in
      let iw := naturalWidth img in
      let ih := naturalHeight img in
      let scale := Math_min (cw / iw) (ch / ih) in
      let dW := iw * scale in
      let dH := ih * scale in
      let oX := (cw - dW) / 2 in
      let oY := (ch - dH) / 2 in
      let cropSize := Math_min dW dH * 0.8 in
      {| imgRef := imgRef s; containerRef := containerRef s;
         imgLoaded := imgLoaded s;
         cropArea := {| crop_x := oX + (dW - cropSize) / 2;
                        crop_y := oY + (dH - cropSize) / 2;
                        crop_size := cropSize |};
         dragging := dragging s; dragStart := dragStart s;
         imgDims := {| img_w := iw; img_h := ih; dispW := dW; dispH := dH;
                       offsetX := oX; offsetY := oY |} |}
  | _, _ => s
  end.

(** The bounds [maxX] and [maxY] of [clampCrop], as it computes them. *)
Definition maxX (s : State) : float :=
  offsetX (imgDims s) + dispW (imgDims s) - crop_size (cropArea s).

Definition maxY (s : State) : float :=
  offsetY (imgDims s) + dispH (imgDims s) - crop_size (cropArea s).

(** [clampCrop(x, y)] (lines 55-64) *)
Definition clampCrop (s : State) (x y : float) : float * float :=
  let minX := offsetX (imgDims s) in
  let minY := offsetY (imgDims s) in
  (Math_max minX (Math_min (maxX s) x), Math_max minY (Math_min (maxY s) y)).

(** [handlePointerDown] (lines 66-79) *)
Definition handlePointerDown (s : State) (clientX clientY : float) : State :=
  match containerRef s with
  | None => s
  | Some box =>
      let px := clientX - left box in
      let py := clientY - top box in
      let c := cropArea s in
      if (crop_x c <=? px) && (px <=? crop_x c + crop_size c) &&
         (crop_y c <=? py) && (py <=? crop_y c + crop_size c)
      then
        {| imgRef := imgRef s; containerRef := containerRef s;
           imgLoaded := imgLoaded s; cropArea := cropArea s;
           dragging := true;
           dragStart := (px - crop_x c, py - crop_y c);
           imgDims := imgDims s |}
      else s
  end.

(** The arguments that [handlePointerMove] gives to [clampCrop]. *)
Definition asked (s : State) (box : Container) (clientX clientY : float)
    : float * float :=
  (clientX - left box - fst (dragStart s),
   clientY - top box - snd (dragStart s)).

(** [handlePointerMove] (lines 81-89) *)
Definition handlePointerMove (s : State) (clientX clientY : float) : State :=
  if negb (dragging s) then s
  else match containerRef s with
  | None => s
  | Some box =>
      let clamped :=
        clampCrop s (fst (asked s box clientX clientY))
                    (snd (asked s box clientX clientY)) in
      {| imgRef := imgRef s; containerRef := containerRef s;
         imgLoaded := imgLoaded s;
         cropArea := {| crop_x := fst clamped; crop_y := snd clamped;
                        crop_size := crop_size (cropArea s) |};
         dragging := dragging s; dragStart := dragStart s;
         imgDims := imgDims s |}
  end.

(** The events that change the geometry. *)
Inductive Event :=
| ImgLoad (img : Image)
| Timeout
| PointerDown (clientX clientY : float)
| PointerMove (clientX clientY : float)
| PointerUp.

Definition set_loaded (s : State) (img : Image) : State :=
  {| imgRef := Some img; containerRef := containerRef s; imgLoaded := true;
     cropArea := cropArea s; dragging := dragging s;
     dragStart := dragStart s; imgDims := imgDims s |}.

Definition step (s : State) (e : Event) : State :=
  match e with
  | ImgLoad img =>
      if imgLoaded s then set_loaded s img else calcDims (set_loaded s img)
  | Timeout => calcDims s
  | PointerDown cx cy => handlePointerDown s cx cy
  | PointerMove cx cy => handlePointerMove s cx cy
  | PointerUp =>
      {| imgRef := imgRef s; containerRef := containerRef s;
         imgLoaded := imgLoaded s; cropArea := cropArea s;
         dragging := false; dragStart := dragStart s; imgDims := imgDims s |}
  end.

Definition run (s : State) (es : list Event) : State := fold_left step es s.

End Cropper64.

(** ** The cropper with an aspect ratio and resize handles

    The [ImageCropper] revision with the [aspectRatio] property
    ([{ imageSrc, onCrop, onCancel, aspectRatio = 1 }]), the [DragMode]
    type and [MIN_CROP_SIZE]; line numbers below are those of the file
    that stores it ([src/components/SearchPage.tsx], lines 649-1148). *)

Module RatioCropper.
Import Js Dom.
Local Open Scope Q_scope.

(** [cropArea], [cropStart]: [{ x, y, w, h }] *)
Record CropArea := { crop_x : Q; crop_y : Q; crop_w : Q; crop_h : Q }.

(** [DragMode] without its [null], which is [None] below. *)
Inductive DragMode :=
| move
| resize_tl | resize_tr | resize_bl | resize_br
| resize_t | resize_b | resize_l | resize_r.

Record State := {
  imgRef : option Image;
  containerRef : option Container;
  canvasReady : bool;
  imgLoaded : bool;
  cropArea : CropArea;
  dragMode : option DragMode;
  dragStart : Q * Q;
  cropStart : CropArea;
  imgDims : ImgDims;
  cursorStyle : string }.

Definition MIN_CROP_SIZE : Q := 60.

(** The default of the [aspectRatio] property. *)
Definition default_aspectRatio : Q := 1.

Definition initial (c : option Container) (canvas : bool) : State :=
  {| imgRef := None; containerRef := c; canvasReady := canvas;
     imgLoaded := false;
     cropArea := {| crop_x := 0; crop_y := 0; crop_w := 200; crop_h := 200 |};
     dragMode := None; dragStart := (0, 0);
     cropStart := {| crop_x := 0; crop_y := 0; crop_w := 0; crop_h := 0 |};
     imgDims := {| img_w := 0; img_h := 0; dispW := 0; dispH := 0;
                   offsetX := 0; offsetY := 0 |};
     cursorStyle := "default" |}.

Definition set_cropArea (s : State) (c : CropArea) : State :=
  {| imgRef := imgRef s; containerRef := containerRef s;
     canvasReady := canvasReady s; imgLoaded := imgLoaded s;
     cropArea := c; dragMode := dragMode s; dragStart := dragStart s;
     cropStart := cropStart s; imgDims := imgDims s;
     cursorStyle := cursorStyle s |}.

Definition set_cursorStyle (s : State) (c : string) : State :=
  {| imgRef := imgRef s; containerRef := containerRef s;
     canvasReady := canvasReady s; imgLoaded := imgLoaded s;
     cropArea := cropArea s; dragMode := dragMode s; dragStart := dragStart s;
     cropStart := cropStart s; imgDims := imgDims s;
     cursorStyle := c |}.

(** The displayed image of [calcDims] (lines 688-697). *)
Definition fitImage (img : Image) (box : Container) : ImgDims :=
  let cw := clientWidth box in
  let ch := clientHeight box in
  let iw := naturalWidth img in
  let ih := naturalHeight img in
  let scale := Math_min (cw / iw) (ch / ih) in
  let dW := iw * scale in
  let dH := ih * scale in
  {| img_w := iw; img_h := ih; dispW := dW; dispH := dH;
     offsetX := (cw - dW) / 2; offsetY := (ch - dH) / 2 |}.

(** The first region of [calcDims] (lines 699-715): 80% of the limiting
    side, cut down if it exceeds the other side, centred. *)
Definition initialCrop (aspectRatio : Q) (d : ImgDims) : CropArea :=
  let '(cropW, cropH) :=
    if gt (dispW d / dispH d) aspectRatio
    then (dispH d * 0.8 * aspectRatio, dispH d * 0.8)
    else (dispW d * 0.8, dispW d * 0.8 / aspectRatio) in
  let '(cropW, cropH) :=
    if gt cropW (dispW d) then (dispW d, dispW d / aspectRatio)
    else (cropW, cropH) in
  let '(cropW, cropH) :=
    if gt cropH (dispH d) then (dispH d * aspectRatio, dispH d)
    else (cropW, cropH) in
  {| crop_x := offsetX d + (dispW d - cropW) / 2;
     crop_y := offsetY d + (dispH d - cropH) / 2;
     crop_w := cropW; crop_h := cropH |}.

(** [calcDims] *)
Definition calcDims (aspectRatio : Q) (s : State) : State :=
  match imgRef s, containerRef s with
  | Some img, Some box =>
      let d := fitImage img box in
      {| imgRef := imgRef s; containerRef := containerRef s;
         canvasReady := canvasReady s; imgLoaded := imgLoaded s;
         cropArea := initialCrop aspectRatio d;
         dragMode := dragMode s; dragStart := dragStart s;
         cropStart := cropStart s; imgDims := d;
         cursorStyle := cursorStyle s |}
  | _, _ => s
  end.

(** [clampCrop(x, y, w, h)] *)
Definition clampCrop (d : ImgDims) (x y w h : Q) : Q * Q :=
  let minX := offsetX d in
  let minY := offsetY d in
  (Math_max minX (Math_min (offsetX d + dispW d - w) x),
   Math_max minY (Math_min (offsetY d + dispH d - h) y)).

(** [getMaxCropSize(anchorX, anchorY, dirX, dirY)]: [(maxW, maxH)] *)
Definition getMaxCropSize (aspectRatio : Q) (d : ImgDims)
    (anchorX anchorY dirX dirY : Q) : Q * Q :=
  let maxW := if gt dirX 0 then (offsetX d + dispW d) - anchorX
              else anchorX - offsetX d in
  let maxH := if gt dirY 0 then (offsetY d + dispH d) - anchorY
              else anchorY - offsetY d in
  if gt (maxW / maxH) aspectRatio then (maxH * aspectRatio, maxH)
  else (maxW, maxW / aspectRatio).

(** [detectMode(px, py)] *)
Definition detectMode (c : CropArea) (px py : Q) : option DragMode :=
  let x := crop_x c in
  let y := crop_y c in
  let w := crop_w c in
  let h := crop_h c in
  let edge := 18 in
  let nearLeft := lt (Math_abs (px - x)) edge in
  let nearRight := lt (Math_abs (px - (x + w))) edge in
  let nearTop := lt (Math_abs (py - y)) edge in
  let nearBottom := lt (Math_abs (py - (y + h))) edge in
  let inX := ge px (x - edge) && le px (x + w + edge) in
  let inY := ge py (y - edge) && le py (y + h + edge) in
  if nearTop && nearLeft then Some resize_tl
  else if nearTop && nearRight then Some resize_tr
  else if nearBottom && nearLeft then Some resize_bl
  else if nearBottom && nearRight then Some resize_br
  else if nearTop && inX then Some resize_t
  else if nearBottom && inX then Some resize_b
  else if nearLeft && inY then Some resize_l
  else if nearRight && inY then Some resize_r
  else if ge px x && le px (x + w) && ge py y && le py (y + h) then Some move
  else None.

(** [getCursor(mode)] *)
Definition getCursor (mode : option DragMode) : string :=
  match mode with
  | Some resize_tl | Some resize_br => "nwse-resize"
  | Some resize_tr | Some resize_bl => "nesw-resize"
  | Some resize_t | Some resize_b => "ns-resize"
  | Some resize_l | Some resize_r => "ew-resize"
  | Some move => "grab"
  | None => "default"
  end.

(** [handlePointerDown] *)
Definition handlePointerDown (s : State) (clientX clientY : Q) : State :=
  match containerRef s with
  | None => s
  | Some box =>
      let px := clientX - left box in
      let py := clientY - top box in
      match detectMode (cropArea s) px py with
      | None => s
      | Some mode =>
          {| imgRef := imgRef s; containerRef := containerRef s;
             canvasReady := canvasReady s; imgLoaded := imgLoaded s;
             cropArea := cropArea s;
             dragMode := Some mode; dragStart := (px, py);
             cropStart := cropArea s; imgDims := imgDims s;
             cursorStyle := match mode with
                            | move => "grabbing"
                            | _ => getCursor (Some mode)
                            end |}
      end
  end.

(** The clamp of the new width, [Math.max(MIN_CROP_SIZE, Math.min(newW, m))] *)
Definition clampW (newW m : Q) : Q := Math_max MIN_CROP_SIZE (Math_min newW m).

(** The clamp of the new height,
    [Math.max(MIN_CROP_SIZE / aspectRatio, Math.min(newH, m))] *)
Definition clampH (aspectRatio newH m : Q) : Q :=
  Math_max (MIN_CROP_SIZE / aspectRatio) (Math_min newH m).

(** The [switch (dragMode)] of [handlePointerMove] (lines 823-907): the
    region [(newX, newY, newW, newH)] asked for by a resize handle. *)
Definition resizeCase (aspectRatio : Q) (d : ImgDims) (cs : CropArea)
    (mode : DragMode) (dx dy : Q) : CropArea :=
  let x0 := crop_x cs in
  let y0 := crop_y cs in
  let w0 := crop_w cs in
  let h0 := crop_h cs in
  match mode with
  | resize_br =>
      let max := getMaxCropSize aspectRatio d x0 y0 1 1 in
      let newW := clampW (w0 + dx) (fst max) in
      let newH := newW / aspectRatio in
      {| crop_x := x0; crop_y := y0; crop_w := newW; crop_h := newH |}
  | resize_bl =>
      let max := getMaxCropSize aspectRatio d (x0 + w0) y0 (-1) 1 in
      let newW := clampW (w0 - dx) (fst max) in
      let newH := newW / aspectRatio in
      {| crop_x := x0 + w0 - newW; crop_y := y0;
         crop_w := newW; crop_h := newH |}
  | resize_tr =>
      let max := getMaxCropSize aspectRatio d x0 (y0 + h0) 1 (-1) in
      let newW := clampW (w0 + dx) (fst max) in
      let newH := newW / aspectRatio in
      {| crop_x := x0; crop_y := y0 + h0 - newH;
         crop_w := newW; crop_h := newH |}
  | resize_tl =>
      let max := getMaxCropSize aspectRatio d (x0 + w0) (y0 + h0) (-1) (-1) in
      let newW := clampW (w0 - dx) (fst max) in
      let newH := newW / aspectRatio in
      {| crop_x := x0 + w0 - newW; crop_y := y0 + h0 - newH;
         crop_w := newW; crop_h := newH |}
  | resize_r =>
      let max := getMaxCropSize aspectRatio d x0 y0 1 1 in
      let newW := clampW (w0 + dx) (fst max) in
      let newH := newW / aspectRatio in
      let centerY := y0 + h0 / 2 in
      {| crop_x := x0; crop_y := centerY - newH / 2;
         crop_w := newW; crop_h := newH |}
  | resize_l =>
      let effectiveMaxW := x0 + w0 - offsetX d in
      let newW := clampW (w0 - dx) effectiveMaxW in
      let newH := newW / aspectRatio in
      let cY := y0 + h0 / 2 in
      {| crop_x := x0 + w0 - newW; crop_y := cY - newH / 2;
         crop_w := newW; crop_h := newH |}
  | resize_b =>
      let max := getMaxCropSize aspectRatio d x0 y0 1 1 in
      let newH := clampH aspectRatio (h0 + dy) (snd max) in
      let newW := newH * aspectRatio in
      let centerX := x0 + w0 / 2 in
      {| crop_x := centerX - newW / 2; crop_y := y0;
         crop_w := newW; crop_h := newH |}
  | resize_t =>
      let effectiveMaxH := y0 + h0 - offsetY d in
      let newH := clampH aspectRatio (h0 - dy) effectiveMaxH in
      let newW := newH * aspectRatio in
      let cX := x0 + w0 / 2 in
      {| crop_x := cX - newW / 2; crop_y := y0 + h0 - newH;
         crop_w := newW; crop_h := newH |}
  | move => cs
  end.

(** The last lines of [handlePointerMove] (lines 909-918): pull the
    region back inside the displayed image. *)
Definition fitInside (aspectRatio : Q) (d : ImgDims) (c : CropArea) : CropArea :=
  let newX := Math_max (offsetX d) (crop_x c) in
  let newY := Math_max (offsetY d) (crop_y c) in
  let '(newW, newH) :=
    if gt (newX + crop_w c) (offsetX d + dispW d)
    then (offsetX d + dispW d - newX,
          (offsetX d + dispW d - newX) / aspectRatio)
    else (crop_w c, crop_h c) in
  let '(newW, newH) :=
    if gt (newY + newH) (offsetY d + dispH d)
    then ((offsetY d + dispH d - newY) * aspectRatio,
          offsetY d + dispH d - newY)
    else (newW, newH) in
  {| crop_x := newX; crop_y := newY; crop_w := newW; crop_h := newH |}.

(** [resize]: what [handlePointerMove] stores for a resize handle. *)
Definition resize (aspectRatio : Q) (d : ImgDims) (cs : CropArea)
    (mode : DragMode) (dx dy : Q) : CropArea :=
  fitInside aspectRatio d (resizeCase aspectRatio d cs mode dx dy).

(** [handlePointerMove] *)
Definition handlePointerMove (aspectRatio : Q) (s : State)
    (clientX clientY : Q) : State :=
  match containerRef s with
  | None => s
  | Some box =>
      let px := clientX - left box in
      let py := clientY - top box in
      match dragMode s with
      | None => set_cursorStyle s (getCursor (detectMode (cropArea s) px py))
      | Some mode =>
          let dx := px - fst (dragStart s) in
          let dy := py - snd (dragStart s) in
          let cs := cropStart s in
          match mode with
          | move =>
              let clamped := clampCrop (imgDims s) (crop_x cs + dx)
                               (crop_y cs + dy) (crop_w cs) (crop_h cs) in
              set_cropArea s {| crop_x := fst clamped; crop_y := snd clamped;
                                crop_w := crop_w (cropArea s);
                                crop_h := crop_h (cropArea s) |}
          | _ => set_cropArea s (resize aspectRatio (imgDims s) cs mode dx dy)
          end
      end
  end.

(** [handlePointerUp] *)
Definition handlePointerUp (s : State) : State :=
  {| imgRef := imgRef s; containerRef := containerRef s;
     canvasReady := canvasReady s; imgLoaded := imgLoaded s;
     cropArea := cropArea s; dragMode := None; dragStart := dragStart s;
     cropStart := cropStart s; imgDims := imgDims s;
     cursorStyle := "default" |}.

(** The source rectangle of [handleCrop] (lines 934-939):
    [(srcX, srcY, srcW, srcH)] *)
Definition sourceRect (d : ImgDims) (c : CropArea) : Q * Q * Q * Q :=
  let scaleX := img_w d / dispW d in
  let scaleY := img_h d / dispH d in
  ((crop_x c - offsetX d) * scaleX, (crop_y c - offsetY d) * scaleY,
   crop_w c * scaleX, crop_h c * scaleY).

(** The canvas size of [handleCrop] (lines 941-942) *)
Definition outputSize (aspectRatio srcW : Q) : Z * Z :=
  let outputW := Z.min 1080 (Math_round srcW) in
  let outputH := Math_round (inject_Z outputW / aspectRatio) in
  (outputW, outputH).

(** [handleCrop] *)
Definition handleCrop (aspectRatio : Q) (s : State) : option (Draw * option Blob) :=
  match imgRef s with
  | None => None
  | Some _ =>
      if negb (canvasReady s) then None
      else
        let '(srcX, srcY, srcW, srcH) := sourceRect (imgDims s) (cropArea s) in
        let '(outputW, outputH) := outputSize aspectRatio srcW in
        Some ({| draw_sx := srcX; draw_sy := srcY;
                 draw_sw := srcW; draw_sh := srcH;
                 draw_dw := outputW; draw_dh := outputH |},
              toBlob outputW outputH image_jpeg 0.92)
  end.

Definition view (s : State) : View :=
  if imgLoaded s then ShowsImage else ShowsSpinner.

Inductive Event :=
| ImgLoad (img : Image)
| ImgError
| Timeout
| WindowResize (cw ch : Q)
| PointerDown (clientX clientY : Q)
| PointerMove (clientX clientY : Q)
| PointerUp
| ClickApply
| ClickCancel.

Definition set_loaded (s : State) (img : Image) : State :=
  {| imgRef := Some img; containerRef := containerRef s;
     canvasReady := canvasReady s; imgLoaded := true;
     cropArea := cropArea s; dragMode := dragMode s;
     dragStart := dragStart s; cropStart := cropStart s;
     imgDims := imgDims s; cursorStyle := cursorStyle s |}.

Definition resize_container (s : State) (cw ch : Q) : State :=
  {| imgRef := imgRef s;
     containerRef :=
       match containerRef s with
       | Some box => Some {| left := left box; top := top box;
                             clientWidth := cw; clientHeight := ch |}
       | None => None
       end;
     canvasReady := canvasReady s; imgLoaded := imgLoaded s;
     cropArea := cropArea s; dragMode := dragMode s;
     dragStart := dragStart s; cropStart := cropStart s;
     imgDims := imgDims s; cursorStyle := cursorStyle s |}.

(** One event, as in [Cropper.step]. *)
Definition step (aspectRatio : Q) (s : State) (e : Event) : State * list Output :=
  match e with
  | ImgLoad img =>
      if imgLoaded s then (set_loaded s img, [])
      else (calcDims aspectRatio (set_loaded s img), [])
  | ImgError => (s, [])
  | Timeout => (calcDims aspectRatio s, [])
  | WindowResize cw ch => (calcDims aspectRatio (resize_container s cw ch), [])
  | PointerDown cx cy => (handlePointerDown s cx cy, [])
  | PointerMove cx cy => (handlePointerMove aspectRatio s cx cy, [])
  | PointerUp => (handlePointerUp s, [])
  | ClickApply =>
      match handleCrop aspectRatio s with
      | Some (_, Some b) => (s, [onCrop b])
      | _ => (s, [])
      end
  | ClickCancel => (s, [onCancel])
  end.

Fixpoint run (aspectRatio : Q) (s : State) (es : list Event) : State * list Output :=
  match es with
  | [] => (s, [])
  | e :: es' =>
      let '(s1, o1) := step aspectRatio s e in
      let '(s2, o2) := run aspectRatio s1 es' in
      (s2, o1 ++ o2)
  end.

End RatioCropper.

(** ** The backend tables read by the counters and the messages page

    The rows of [lib/supabase.ts] with the columns the code filters on.
    A query [from(t).select(...).eq(...)...] is a filter over the rows of
    the table; [{ count: 'exact', head: true }] gives the number of rows. *)

Module Backend.
Local Open Scope Z_scope.

Record Message := {
  msg_id : string; sender_id : string; receiver_id : string;
  content : string; image_url : string; is_read : bool;
  msg_created_at : Z }.

Record GroupMember := { gm_group_id : string; gm_user_id : string }.

Record GroupMessage := {
  gmsg_id : string; gmsg_group_id : string; gmsg_user_id : string;
  gmsg_created_at : Z }.

Record Like := {
  like_id : string; like_post_id : string; like_user_id : string;
  like_created_at : Z }.

Record Follower := {
  follow_id : string; follower_id : string; following_id : string;
  follow_created_at : Z }.

Record Post := { post_id : string; post_user_id : string }.

Record Tables := {
  messages : list Message;
  group_members : list GroupMember;
  group_messages : list GroupMessage;
  likes : list Like;
  followers : list Follower }.

(** [.order('created_at', { ascending: false })] and
    [.order('created_at', { ascending: true })] *)
Definition order_desc {A} (created_at : A -> Z) (rows : list A) : list A :=
  @merge_sort A (fun a b => created_at b <= created_at a)
    (fun a b => decide (created_at b <= created_at a)) rows.

Definition order_asc {A} (created_at : A -> Z) (rows : list A) : list A :=
  @merge_sort A (fun a b => created_at a <= created_at b)
    (fun a b => decide (created_at a <= created_at b)) rows.

(** [.limit(n)] *)
Definition limit {A} (n : nat) (rows : list A) : list A := take n rows.

End Backend.

(** ** The three unread counters: [App.tsx] and [HomePage.tsx] *)

Module Unread.
Import Backend.
Local Open Scope Z_scope.

(** [fetchUnreadMessages] ([App.tsx], lines 90-98): the value given to
    [setUnreadMessages], or [None] when there is no current user. *)
Definition fetchUnreadMessages (db : Tables) (currentUser : option string) : option nat :=
  match currentUser with
  | None => None
  | Some uid =>
      Some (length (filter (fun m => receiver_id m = uid /\ is_read m = false)
                      (messages db)))
  end.

(** [fetchUnreadGroups] ([App.tsx], lines 101-128): the value given to
    [setUnreadGroups]; [now] is [Date.now()]. *)
Definition fetchUnreadGroups (db : Tables) (currentUser : option string) (now : Z) : option nat :=
  match currentUser with
  | None => None
  | Some uid =>
      let memberships := filter (fun m => gm_user_id m = uid) (group_members db) in
      if decide (length memberships = 0%nat) then Some 0%nat
      else
        let groupIds := map gm_group_id memberships in
        let oneDayAgo := now - 24 * 60 * 60 * 1000 in
        Some (length (filter (fun g => gmsg_group_id g ∈ groupIds /\
                                       gmsg_user_id g <> uid /\
                                       oneDayAgo < gmsg_created_at g)
                        (group_messages db)))
  end.

(** [NotificationItem] ([HomePage.tsx]) *)
Inductive NotifType := like | follow | message.

Record NotificationItem := {
  notif_id : string; notif_type : NotifType; from_user : string;
  notif_created_at : Z }.

(** [getLastSeen] ([HomePage.tsx], lines 48-53): the cached value, or the
    entry [notif_last_seen_<id>] of local storage. *)
Definition getLastSeen (lastSeenRef : option Z) (localStorage : gmap string Z)
    (uid : string) : option Z :=
  match lastSeenRef with
  | Some t => Some t
  | None => localStorage !! ("notif_last_seen_" +:+ uid)
  end.

(** The list [allNotifs] of [fetchNotifications] (lines 60-122). *)
Definition allNotifs (db : Tables) (posts : list Post) (uid : string) : list NotificationItem :=
  let myPostIds := map post_id (filter (fun p => post_user_id p = uid) posts) in
  let likeNotifs :=
    if decide (0 < length myPostIds)%nat then
      map (fun l => {| notif_id := "like-" +:+ like_id l; notif_type := like;
                       from_user := like_user_id l;
                       notif_created_at := like_created_at l |})
        (limit 50 (order_desc like_created_at
           (filter (fun l => like_post_id l ∈ myPostIds /\ like_user_id l <> uid)
              (likes db))))
    else [] in
  let followNotifs :=
    map (fun f => {| notif_id := "follow-" +:+ follow_id f; notif_type := follow;
                     from_user := follower_id f;
                     notif_created_at := follow_created_at f |})
      (limit 50 (order_desc follow_created_at
         (filter (fun f => following_id f = uid) (followers db)))) in
  let messageNotifs :=
    map (fun m => {| notif_id := "msg-" +:+ msg_id m; notif_type := message;
                     from_user := sender_id m;
                     notif_created_at := msg_created_at m |})
      (limit 50 (order_desc msg_created_at
         (filter (fun m => receiver_id m = uid) (messages db)))) in
  order_desc notif_created_at (likeNotifs ++ followNotifs ++ messageNotifs).

(** The value given to [setUnreadCount] (lines 126-136). *)
Definition unreadCount (notifs : list NotificationItem) (lastSeen : option Z) : nat :=
  match lastSeen with
  | Some lastSeenTime =>
      length (filter (fun n => lastSeenTime < notif_created_at n) notifs)
  | None => length notifs
  end.

(** [fetchNotifications], as far as the badge is concerned. *)
Definition fetchNotifications (db : Tables) (posts : list Post) (uid : string)
    (lastSeenRef : option Z) (localStorage : gmap string Z) : nat :=
  unreadCount (allNotifs db posts uid) (getLastSeen lastSeenRef localStorage uid).

End Unread.

(** ** The conversation list of the messages page

    [MessagesPage] in the revision with the long-press menu
    ([handleDeleteConversation], [saveDeletedConvos], [fetchMessages]). *)

Module Messages.
Import Backend.
Local Open Scope Z_scope.

(** [ConvoUser]: a user with the summary of the conversation. *)
Record ConvoUser := {
  user_id : string; username : string; display_name : string;
  lastMessage : string; lastTime : option Z; unread : nat }.

(** The values kept in local storage: text, or the table of deleted
    conversations ([JSON.stringify] of a [Record<string, string>], kept
    here as the table it encodes). *)
Inductive Stored :=
| StoredText (s : string)
| StoredConvos (convos : gmap string Z).

(** The [useState] cells of the page that the handlers below touch. *)
Record Page := {
  contacts : list ConvoUser;
  selectedUser : option string;
  shown : list Message;
  longPressUser : option ConvoUser;
  showDeletePopup : bool;
  deleting : bool;
  deletedConvos : gmap string Z }.

(** Everything a handler can reach: the backend, the local storage of the
    browser and the page. *)
Record World := {
  db : Tables;
  localStorage : gmap string Stored;
  page : Page }.

(** [saveDeletedConvos(convos)] (lines 58-61) *)
Definition saveDeletedConvos (currentUser : string) (convos : gmap string Z)
    (w : World) : World :=
  {| db := db w;
     localStorage :=
       <["deleted_convos_" +:+ currentUser := StoredConvos convos]> (localStorage w);
     page := {| contacts := contacts (page w);
                selectedUser := selectedUser (page w);
                shown := shown (page w);
                longPressUser := longPressUser (page w);
                showDeletePopup := showDeletePopup (page w);
                deleting := deleting (page w);
                deletedConvos := convos |} |}.

(** [handleDeleteConversation] (lines 98-117); [now] is [new Date()]. *)
Definition handleDeleteConversation (currentUser : string) (now : Z)
    (w : World) : World :=
  match longPressUser (page w) with
  | None => w
  | Some u =>
      let newDeletedConvos := <[user_id u := now]> (deletedConvos (page w)) in
      let w1 := saveDeletedConvos currentUser newDeletedConvos w in
      {| db := db w1;
         localStorage := localStorage w1;
         page := {| contacts := filter (fun c => user_id c <> user_id u)
                                  (contacts (page w1));
                    selectedUser := selectedUser (page w1);
                    shown := shown (page w1);
                    longPressUser := None;
                    showDeletePopup := false;
                    deleting := false;
                    deletedConvos := deletedConvos (page w1) |} |}
  end.

(** [.update({ is_read: true })] on one row *)
Definition mark_read (m : Message) : Message :=
  {| msg_id := msg_id m; sender_id := sender_id m;
     receiver_id := receiver_id m; content := content m;
     image_url := image_url m; is_read := true;
     msg_created_at := msg_created_at m |}.

(** [fetchMessages] (lines 247-283): shows the conversation with the
    selected user and marks what they sent as read in the backend. *)
Definition fetchMessages (currentUser : string) (w : World) : World :=
  match selectedUser (page w) with
  | None => w
  | Some other =>
      let deletedAt := deletedConvos (page w) !! other in
      let after (rows : list Message) :=
        match deletedAt with
        | Some t => filter (fun m => t < msg_created_at m) rows
        | None => rows
        end in
      let sent := after (filter (fun m => sender_id m = currentUser /\
                                          receiver_id m = other) (messages (db w))) in
      let received := after (filter (fun m => sender_id m = other /\
                                              receiver_id m = currentUser)
                               (messages (db w))) in
      {| db := {| messages :=
                    map (fun m =>
                           if decide (sender_id m = other /\
                                      receiver_id m = currentUser /\
                                      is_read m = false)
                           then mark_read m else m) (messages (db w));
                  group_members := group_members (db w);
                  group_messages := group_messages (db w);
                  likes := likes (db w);
                  followers := followers (db w) |};
         localStorage := localStorage w;
         page := {| contacts := contacts (page w);
                    selectedUser := selectedUser (page w);
                    shown := order_asc msg_created_at (sent ++ received);
                    longPressUser := longPressUser (page w);
                    showDeletePopup := showDeletePopup (page w);
                    deleting := deleting (page w);
                    deletedConvos := deletedConvos (page w) |} |}
  end.

End Messages.

(** ** Elapsed time on the home page: [timeAgo] of [HomePage.tsx] *)

Module TimeAgo.
Local Open Scope Z_scope.

(** The number and the unit that [timeAgo] prints. *)
Inductive Ago :=
| just_now
| minutes (n : Z)
| hours (n : Z)
| days (n : Z)
| weeks (n : Z).

(** [timeAgo] (lines 180-189) up to the text: [now] and [date] are the
    two [getTime()], in milliseconds; [Math.floor] of a quotient of
    integers is the integer quotient. *)
Definition ago (now date : Z) : Ago :=
  let diff := (now - date) / 1000 in
  if decide (diff < 60) then just_now
  else if decide (diff < 3600) then minutes (diff / 60)
  else if decide (diff < 86400) then hours (diff / 3600)
  else if decide (diff < 604800) then days (diff / 86400)
  else weeks (diff / 604800).

(** The text: ['baru saja'] and the template strings. *)
Definition render (a : Ago) : string :=
  match a with
  | just_now => "baru saja"
  | minutes n => pretty n +:+ "m"
  | hours n => pretty n +:+ "j"
  | days n => pretty n +:+ "h"
  | weeks n => pretty n +:+ "mg"
  end.

Definition timeAgo (now date : Z) : string := render (ago now date).

End TimeAgo.

(** ** The notification bell of the home page: [HomePage.tsx] *)

Module Bell.
Import Backend Unread.
Local Open Scope Z_scope.

(** The cells the bell uses: two [useState], the ref [lastSeenRef] and
    the local storage of the browser. *)
Record State := {
  showNotifications : bool;
  unreadCount : nat;
  lastSeenRef : option Z;
  localStorage : gmap string Z }.

(** [handleOpenNotifications] (lines 166-178); [now] is [new Date()]. *)
Definition handleOpenNotifications (uid : string) (now : Z) (s : State) : State :=
  let willOpen := negb (showNotifications s) in
  if willOpen then
    {| showNotifications := willOpen; unreadCount := 0;
       lastSeenRef := Some now;
       localStorage := <["notif_last_seen_" +:+ uid := now]> (localStorage s) |}
  else
    {| showNotifications := willOpen; unreadCount := unreadCount s;
       lastSeenRef := lastSeenRef s; localStorage := localStorage s |}.

(** [fetchNotifications] (lines 55-142) on the bell: the count it sets,
    and the value that [getLastSeen] leaves in the ref. *)
Definition fetchNotifications (db : Tables) (posts : list Post) (uid : string)
    (s : State) : State :=
  {| showNotifications := showNotifications s;
     unreadCount :=
       Unread.fetchNotifications db posts uid (lastSeenRef s) (localStorage s);
     lastSeenRef := getLastSeen (lastSeenRef s) (localStorage s) uid;
     localStorage := localStorage s |}.

(** The first render. *)
Definition initial (storage : gmap string Z) : State :=
  {| showNotifications := false; unreadCount := 0; lastSeenRef := None;
     localStorage := storage |}.

End Bell.

(** ** The session kept in local storage: [App.tsx] *)

Module Session.
Local Open Scope Z_scope.

(** [User], with the columns used here. *)
Record User := { id : string; username : string; display_name : string }.

Inductive Page := home | messages | groups | search | profile.

Record State := {
  currentUser : option User;
  currentPage : Page;
  loading : bool;
  viewingUser : option User;
  localStorage : gmap string string }.

(** The first render of [App]. *)
Definition initial (storage : gmap string string) : State :=
  {| currentUser := None; currentPage := home; loading := true;
     viewingUser := None; localStorage := storage |}.

(** [.from('users').select('*').eq('id', userId).single()]: the row when
    there is exactly one. *)
Definition single_user (users : list User) (userId : string) : option User :=
  match filter (fun u => id u = userId) users with
  | [u] => Some u
  | _ => None
  end.

(** [loadUser] (lines 33-45) *)
Definition loadUser (users : list User) (userId : string) (s : State) : State :=
  match single_user users userId with
  | Some data =>
      {| currentUser := Some data; currentPage := currentPage s;
         loading := false; viewingUser := viewingUser s;
         localStorage := localStorage s |}
  | None =>
      {| currentUser := currentUser s; currentPage := currentPage s;
         loading := false; viewingUser := viewingUser s;
         localStorage := delete "sosmedku_user_id" (localStorage s) |}
  end.

(** The effect run at mount (lines 24-31): an empty string counts as no
    saved id. *)
Definition mount (users : list User) (s : State) : State :=
  match localStorage s !! "sosmedku_user_id" with
  | Some savedUserId =>
      if decide (savedUserId = "") then
        {| currentUser := currentUser s; currentPage := currentPage s;
           loading := false; viewingUser := viewingUser s;
           localStorage := localStorage s |}
      else loadUser users savedUserId s
  | None =>
      {| currentUser := currentUser s; currentPage := currentPage s;
         loading := false; viewingUser := viewingUser s;
         localStorage := localStorage s |}
  end.

(** [handleLogin] (lines 214-217) *)
Definition handleLogin (user : User) (s : State) : State :=
  {| currentUser := Some user; currentPage := currentPage s;
     loading := loading s; viewingUser := viewingUser s;
     localStorage := <["sosmedku_user_id" := id user]> (localStorage s) |}.

(** [handleLogout] (lines 219-224) *)
Definition handleLogout (s : State) : State :=
  {| currentUser := None; currentPage := home;
     loading := loading s; viewingUser := None;
     localStorage := delete "sosmedku_user_id" (localStorage s) |}.

(** What [App] renders first (lines 274-287): the spinner while loading,
    the login page without a user, the pages otherwise. *)
Inductive Screen := Spinner | Login | Pages.

Definition screen (s : State) : Screen :=
  if loading s then Spinner
  else match currentUser s with None => Login | Some _ => Pages end.

End Session.

(** ** Likes on the feed: [App.tsx] and [PostCard] *)

Module Feed.
Import Backend.
Local Open Scope Z_scope.

(** The rows of [posts] and [comments] with the columns used here. *)
Record PostRow := {
  row_id : string; row_user_id : string; row_content : string;
  row_created_at : Z }.

Record Comment := {
  comment_id : string; comment_post_id : string; comment_user_id : string;
  comment_content : string; comment_created_at : Z }.

(** A post as [fetchPosts] hands it to the pages:
    [{ ...post, likes, comments }] *)
Record PostView := {
  view_post : PostRow;
  view_likes : list Like;
  view_comments : list Comment }.

(** The three tables, and the [posts] cell of [App]. *)
Record State := {
  posts_table : list PostRow;
  likes_table : list Like;
  comments_table : list Comment;
  posts : list PostView }.

(** What [fetchPosts] (lines 58-87) computes from the tables. *)
Definition load_posts (s : State) : list PostView :=
  map (fun post =>
         {| view_post := post;
            view_likes :=
              filter (fun l => like_post_id l = row_id post) (likes_table s);
            view_comments :=
              order_asc comment_created_at
                (filter (fun c => comment_post_id c = row_id post)
                   (comments_table s)) |})
    (order_desc row_created_at (posts_table s)).

(** [fetchPosts] *)
Definition fetchPosts (s : State) : State :=
  {| posts_table := posts_table s; likes_table := likes_table s;
     comments_table := comments_table s; posts := load_posts s |}.

(** [posts.find((p) => p.id === postId)] *)
Definition find_post (s : State) (postId : string) : option PostView :=
  List.find (fun p => bool_decide (row_id (view_post p) = postId)) (posts s).

(** [handleLike] (lines 226-244); [newId] and [now] are the id and the
    instant that the backend gives to an inserted row. *)
Definition handleLike (currentUser : option string) (newId : string) (now : Z)
    (postId : string) (s : State) : State :=
  match currentUser with
  | None => s
  | Some uid =>
      match find_post s postId with
      | None => s
      | Some post =>
          match List.find (fun l => bool_decide (like_user_id l = uid))
                  (view_likes post) with
          | Some existingLike =>
              fetchPosts
                {| posts_table := posts_table s;
                   likes_table :=
                     filter (fun l => ~ (like_post_id l = postId /\
                                         like_user_id l = uid))
                       (likes_table s);
                   comments_table := comments_table s; posts := posts s |}
          | None =>
              fetchPosts
                {| posts_table := posts_table s;
                   likes_table :=
                     likes_table s ++
                     [{| like_id := newId; like_post_id := postId;
                         like_user_id := uid; like_created_at := now |}];
                   comments_table := comments_table s; posts := posts s |}
          end
      end
  end.

(** [isLiked] and [likeCount] of [PostCard] *)
Definition isLiked (uid : string) (post : PostView) : bool :=
  existsb (fun l => bool_decide (like_user_id l = uid)) (view_likes post).

Definition likeCount (post : PostView) : nat := length (view_likes post).

End Feed.

(** ** The picture viewer opened from a post: [ImageLightbox] *)

Module Lightbox.
Import Js.
Local Open Scope Q_scope.

Record State := {
  scale : Q;
  position : Q * Q;
  isDragging : bool;
  dragStart : Q * Q;
  loaded : bool }.

Definition initial : State :=
  {| scale := 1; position := (0, 0); isDragging := false;
     dragStart := (0, 0); loaded := false |}.

Definition set_scale (s : State) (k : Q) : State :=
  {| scale := k; position := position s; isDragging := isDragging s;
     dragStart := dragStart s; loaded := loaded s |}.

(** [setScale] to [k], and [setPosition({ x: 0, y: 0 })] when [k === 1] *)
Definition zoom_out_to (s : State) (k : Q) : State :=
  {| scale := k;
     position := if Qeq_bool k 1 then (0, 0) else position s;
     isDragging := isDragging s; dragStart := dragStart s;
     loaded := loaded s |}.

(** [handleZoomIn], [handleZoomOut], [handleReset], [handleDoubleClick] *)
Definition handleZoomIn (s : State) : State :=
  set_scale s (Math_min (scale s + 0.5) 5).

Definition handleZoomOut (s : State) : State :=
  zoom_out_to s (Math_max (scale s - 0.5) 1).

Definition handleReset (s : State) : State :=
  {| scale := 1; position := (0, 0); isDragging := isDragging s;
     dragStart := dragStart s; loaded := loaded s |}.

Definition handleDoubleClick (s : State) : State :=
  if gt (scale s) 1 then handleReset s else set_scale s 2.5.

(** [handleMouseDown], [handleMouseMove], [handleMouseUp]; the touch
    handlers do the same for a touch of one finger. *)
Definition handleMouseDown (s : State) (clientX clientY : Q) : State :=
  if le (scale s) 1 then s
  else {| scale := scale s; position := position s; isDragging := true;
          dragStart := (clientX - fst (position s), clientY - snd (position s));
          loaded := loaded s |}.

Definition handleMouseMove (s : State) (clientX clientY : Q) : State :=
  if negb (isDragging s) || le (scale s) 1 then s
  else {| scale := scale s;
          position := (clientX - fst (dragStart s), clientY - snd (dragStart s));
          isDragging := isDragging s; dragStart := dragStart s;
          loaded := loaded s |}.

Definition handleMouseUp (s : State) : State :=
  {| scale := scale s; position := position s; isDragging := false;
     dragStart := dragStart s; loaded := loaded s |}.

Definition handleTouchStart (s : State) (touches : list (Q * Q)) : State :=
  match touches with
  | [touch] => handleMouseDown s (fst touch) (snd touch)
  | _ => s
  end.

Definition handleTouchMove (s : State) (touches : list (Q * Q)) : State :=
  match touches with
  | [touch] => handleMouseMove s (fst touch) (snd touch)
  | _ => s
  end.

(** [handleWheel] *)
Definition handleWheel (s : State) (deltaY : Q) : State :=
  if lt deltaY 0 then set_scale s (Math_min (scale s + 0.3) 5)
  else zoom_out_to s (Math_max (scale s - 0.3) 1).

(** [handleBackdropClick]: whether [onClose] is called, for a click on
    the image area itself. *)
Definition handleBackdropClick (s : State) : bool :=
  negb (isDragging s) && Qeq_bool (scale s) 1.

Inductive Event :=
| ZoomIn | ZoomOut | Reset | DoubleClick
| MouseDown (clientX clientY : Q)
| MouseMove (clientX clientY : Q)
| MouseUp
| TouchStart (touches : list (Q * Q))
| TouchMove (touches : list (Q * Q))
| TouchEnd
| Wheel (deltaY : Q)
| ImgLoad.

Definition step (s : State) (e : Event) : State :=
  match e with
  | ZoomIn => handleZoomIn s
  | ZoomOut => handleZoomOut s
  | Reset => handleReset s
  | DoubleClick => handleDoubleClick s
  | MouseDown x y => handleMouseDown s x y
  | MouseMove x y => handleMouseMove s x y
  | MouseUp => handleMouseUp s
  | TouchStart t => handleTouchStart s t
  | TouchMove t => handleTouchMove s t
  | TouchEnd => handleMouseUp s
  | Wheel dy => handleWheel s dy
  | ImgLoad => {| scale := scale s; position := position s;
                  isDragging := isDragging s; dragStart := dragStart s;
                  loaded := true |}
  end.

Definition run (s : State) (es : list Event) : State := fold_left step es s.

End Lightbox.

(** ** The list of contacts of the messages page: [fetchContacts] *)

Module Contacts.
Import Backend Messages.
Local Open Scope Z_scope.

(** What [JSON.parse] makes of a text, as far as [fetchContacts] uses
    the result: it throws on a text that is not JSON; the value [null]
    throws once it is indexed; a number, a boolean, a string or an array
    has no property under the id of a user; an object gives its entries.
    (The ids of users are the keys of the table of users, none of them
    the name of a built-in property.) *)
Inductive Parsed :=
| SyntaxError
| JsonNull
| JsonOther
| JsonTable (convos : gmap string Z).

(** [JSON.parse(localStorage.getItem(key) || '{}')] (lines 156-158): a
    missing key and the empty text stand for ['{}'], the table written by
    [saveDeletedConvos] is read back, and any other text is what
    [JSON.parse] makes of it. *)
Definition parse_deleted (JSON_parse : string -> Parsed) (currentUser : string)
    (w : World) : Parsed :=
  match localStorage w !! ("deleted_convos_" +:+ currentUser) with
  | None => JsonTable ∅
  | Some (StoredConvos convos) => JsonTable convos
  | Some (StoredText text) =>
      if decide (text = "") then JsonTable ∅ else JSON_parse text
  end.

(** The table that the lookups [currentDeletedConvos[u.id]] read; [None]
    when the parse or the lookup throws. *)
Definition read_deleted (JSON_parse : string -> Parsed) (currentUser : string)
    (w : World) : option (gmap string Z) :=
  match parse_deleted JSON_parse currentUser w with
  | JsonTable convos => Some convos
  | JsonOther => Some ∅
  | JsonNull | SyntaxError => None
  end.

(** The filter [.gt('created_at', deletedAt)], applied if there is one. *)
Definition since (deletedAt : option Z) (rows : list Message) : list Message :=
  match deletedAt with
  | Some t => filter (fun m => t < msg_created_at m) rows
  | None => rows
  end.

(** [lastMsg?.content || (lastMsg?.image_url ? '📷 Foto' : '')] *)
Definition preview (lastMsg : option Message) : string :=
  match lastMsg with
  | None => ""
  | Some m =>
      if decide (content m = "") then
        if decide (image_url m = "") then "" else "📷 Foto"
      else content m
  end.

(** One entry of [contactsWithLast] (lines 161-218). *)
Definition contact_of (currentUser : string) (db : Tables)
    (deleted : gmap string Z) (u : Session.User) : ConvoUser :=
  let deletedAt := deleted !! Session.id u in
  let sentMsgs :=
    limit 1 (order_desc msg_created_at
      (since deletedAt
         (filter (fun m => sender_id m = currentUser /\
                           receiver_id m = Session.id u) (messages db)))) in
  let recvMsgs :=
    limit 1 (order_desc msg_created_at
      (since deletedAt
         (filter (fun m => sender_id m = Session.id u /\
                           receiver_id m = currentUser) (messages db)))) in
  let lastMsg := head (order_desc msg_created_at (sentMsgs ++ recvMsgs)) in
  let unread :=
    length (since deletedAt
              (filter (fun m => sender_id m = Session.id u /\
                                receiver_id m = currentUser /\
                                is_read m = false) (messages db))) in
  {| user_id := Session.id u; username := Session.username u;
     display_name := Session.display_name u;
     lastMessage := preview lastMsg;
     lastTime := msg_created_at <$> lastMsg;
     unread := unread |}.

(** The comparison of the final sort (lines 235-240): contacts with a
    last message first, the most recent first. *)
Definition precedes (a b : ConvoUser) : bool :=
  match lastTime a, lastTime b with
  | None, None => true
  | None, Some _ => false
  | Some _, None => true
  | Some ta, Some tb => bool_decide (tb <= ta)
  end.

(** The filter of lines 222-233: a contact whose conversation was
    deleted is kept if a message is more recent than the deletion, or if
    there is no message left and the current user follows it. *)
Definition keeps (deleted : gmap string Z) (followingIds : list string)
    (c : ConvoUser) : bool :=
  match deleted !! user_id c with
  | None => true
  | Some deletedAt =>
      match lastTime c with
      | Some t => bool_decide (deletedAt < t)
      | None => bool_decide (user_id c ∈ followingIds)
      end
  end.

(** [fetchContacts] (lines 119-245): the new list of contacts, [None]
    when the function throws before [setContacts]; [users] is the table
    of users and [JSON_parse] the parser of the browser.  The stored text
    is parsed once the users are there, and indexed once for every user
    found. *)
Definition fetchContacts (JSON_parse : string -> Parsed) (currentUser : string)
    (users : list Session.User) (w : World) : option (list ConvoUser) :=
  let followingIds :=
    map following_id
      (filter (fun f => follower_id f = currentUser) (followers (db w))) in
  let incoming :=
    map sender_id
      (filter (fun m => receiver_id m = currentUser) (messages (db w))) in
  let outgoing :=
    map receiver_id
      (filter (fun m => sender_id m = currentUser) (messages (db w))) in
  let allIds :=
    filter (fun i => i <> currentUser) (followingIds ++ incoming ++ outgoing) in
  if decide (allIds = []) then Some []
  else
    let found := filter (fun u => Session.id u ∈ allIds) users in
    match parse_deleted JSON_parse currentUser w with
    | SyntaxError => None
    | _ =>
        match found with
        | [] => Some []
        | _ :: _ =>
            match read_deleted JSON_parse currentUser w with
            | None => None
            | Some deleted =>
                let contactsWithLast :=
                  map (contact_of currentUser (db w) deleted) found in
                let filteredContacts :=
                  List.filter (keeps deleted followingIds) contactsWithLast in
                Some (@merge_sort ConvoUser (fun a b => precedes a b = true)
                        (fun a b => decide (precedes a b = true))
                        filteredContacts)
            end
        end
    end.

(** [setContacts] with that list. *)
Definition set_contacts (w : World) (l : list ConvoUser) : World :=
  {| db := db w; localStorage := localStorage w;
     page := {| contacts := l;
                selectedUser := selectedUser (page w);
                shown := shown (page w);
                longPressUser := longPressUser (page w);
                showDeletePopup := showDeletePopup (page w);
                deleting := deleting (page w);
                deletedConvos := deletedConvos (page w) |} |}.

(** A click on a contact that is not the end of a long press:
    [setSelectedUser(user)] (line 655). *)
Definition select (w : World) (user : string) : World :=
  {| db := db w; localStorage := localStorage w;
     page := {| contacts := contacts (page w);
                selectedUser := Some user;
                shown := shown (page w);
                longPressUser := longPressUser (page w);
                showDeletePopup := showDeletePopup (page w);
                deleting := deleting (page w);
                deletedConvos := deletedConvos (page w) |} |}.

End Contacts.

(** * Facts about the arithmetic *)

Section JsFacts.
Import Js.
Local Open Scope Q_scope.

Lemma Qle_bool_false (a b : Q) : Qle_bool a b = false -> b < a.
Proof.
  intros H. apply Qnot_le_lt. intros Hle.
  apply Qle_bool_iff in Hle. congruence.
Qed.

Lemma Math_max_spec (a b : Q) :
  (a <= b /\ Math_max a b = b) \/ (b < a /\ Math_max a b = a).
Proof.
  unfold Math_max. destruct (Qle_bool a b) eqn:E.
  - left. split; [now apply Qle_bool_iff | reflexivity].
  - right. split; [now apply Qle_bool_false | reflexivity].
Qed.

Lemma Math_min_spec (a b : Q) :
  (a <= b /\ Math_min a b = a) \/ (b < a /\ Math_min a b = b).
Proof.
  unfold Math_min. destruct (Qle_bool a b) eqn:E.
  - left. split; [now apply Qle_bool_iff | reflexivity].
  - right. split; [now apply Qle_bool_false | reflexivity].
Qed.

Lemma gt_spec (a b : Q) :
  (gt a b = true /\ b < a) \/ (gt a b = false /\ a <= b).
Proof.
  unfold gt. destruct (Qle_bool a b) eqn:E.
  - right. split; [reflexivity | now apply Qle_bool_iff].
  - left. split; [reflexivity | now apply Qle_bool_false].
Qed.

Lemma ge_true (a b : Q) : ge a b = true <-> b <= a.
Proof. unfold ge. apply Qle_bool_iff. Qed.

Lemma le_true (a b : Q) : le a b = true <-> a <= b.
Proof. unfold le. apply Qle_bool_iff. Qed.

#[export] Instance Math_max_proper : Proper (Qeq ==> Qeq ==> Qeq) Math_max.
Proof.
  intros a a' Ha b b' Hb.
  destruct (Math_max_spec a b) as [[H ->]|[H ->]];
    destruct (Math_max_spec a' b') as [[H' ->]|[H' ->]]; lra.
Qed.

#[export] Instance Math_min_proper : Proper (Qeq ==> Qeq ==> Qeq) Math_min.
Proof.
  intros a a' Ha b b' Hb.
  destruct (Math_min_spec a b) as [[H ->]|[H ->]];
    destruct (Math_min_spec a' b') as [[H' ->]|[H' ->]]; lra.
Qed.

(** A quotient, cleared of its denominator. *)
Lemma div_mul (a b : Q) : 0 < b -> a / b * b == a.
Proof. intros Hb. field. lra. Qed.

Lemma div_pos (a b : Q) : 0 < a -> 0 < b -> 0 < a / b.
Proof. intros Ha Hb. apply Qlt_shift_div_l; lra. Qed.

End JsFacts.

(** Writes quotients as products, for linear arithmetic. *)
Ltac qnorm := unfold Qdiv in *; change (/ 2) with (1 # 2) in *.

(** Splits every [Math.max], [Math.min] and [>] of the goal and of the
    hypotheses, and reduces the conditionals they decide. *)
Ltac js_case t :=
  lazymatch t with
  | Js.Math_max ?a ?b =>
      let H := fresh "Hmax" in
      let E := fresh "E" in
      destruct (Math_max_spec a b) as [[H E]|[H E]]; rewrite E in *; clear E
  | Js.Math_min ?a ?b =>
      let H := fresh "Hmin" in
      let E := fresh "E" in
      destruct (Math_min_spec a b) as [[H E]|[H E]]; rewrite E in *; clear E
  | Js.gt ?a ?b =>
      let H := fresh "Hgt" in
      let E := fresh "E" in
      destruct (gt_spec a b) as [[E H]|[E H]]; rewrite E in *; clear E
  end.

Ltac js_split :=
  repeat (match goal with
  | |- context [Js.Math_max ?a ?b] => js_case (Js.Math_max a b)
  | |- context [Js.Math_min ?a ?b] => js_case (Js.Math_min a b)
  | |- context [Js.gt ?a ?b] => js_case (Js.gt a b)
  | _ : context [Js.Math_max ?a ?b] |- _ => js_case (Js.Math_max a b)
  | _ : context [Js.Math_min ?a ?b] |- _ => js_case (Js.Math_min a b)
  | _ : context [Js.gt ?a ?b] |- _ => js_case (Js.gt a b)
  end; cbv beta iota zeta in * ).

(** * The square cropper *)

Module CropperFacts.
Import Js Dom Cropper.
Local Open Scope Q_scope.

(** The square drawn on screen ([width: cropArea.size, height:
    cropArea.size]) has [size] for both sides. *)
Definition width (c : CropArea) : Q := crop_size c.
Definition height (c : CropArea) : Q := crop_size c.

(** The region lies inside the displayed image,
    [[offsetX, offsetX + dispW] x [offsetY, offsetY + dispH]]. *)
Definition contained (d : ImgDims) (c : CropArea) : Prop :=
  offsetX d <= crop_x c /\ crop_x c + width c <= offsetX d + dispW d /\
  offsetY d <= crop_y c /\ crop_y c + height c <= offsetY d + dispH d.

(** Events of a session on a picture and a container that have a size. *)
Definition valid_event (e : Event) : Prop :=
  match e with
  | ImgLoad img => positive_image img
  | WindowResize cw ch => 0 < cw /\ 0 < ch
  | _ => True
  end.

Record Inv (s : State) : Prop := {
  inv_img : exists img, imgRef s = Some img /\ positive_image img;
  inv_box : exists box, containerRef s = Some box /\ positive_box box;
  inv_size : 0 < crop_size (cropArea s);
  inv_contained : contained (imgDims s) (cropArea s) }.

Lemma calcDims_Inv s img box :
  imgRef s = Some img -> containerRef s = Some box ->
  positive_image img -> positive_box box -> Inv (calcDims s).
Proof.
  intros Hi Hb [Hiw Hih] [Hcw Hch].
  unfold calcDims. rewrite Hi, Hb.
  assert (Hs : 0 < Math_min (clientWidth box / naturalWidth img)
                         (clientHeight box / naturalHeight img)).
  { pose proof (div_pos _ _ Hcw Hiw). pose proof (div_pos _ _ Hch Hih).
    js_split; assumption. }
  set (scale := Math_min _ _) in *.
  assert (HW : 0 < naturalWidth img * scale) by nra.
  assert (HH : 0 < naturalHeight img * scale) by nra.
  split; simpl.
  - exists img. split; [reflexivity | split; assumption].
  - exists box. split; [reflexivity | split; assumption].
  - js_split; lra.
  - unfold contained, width, height; simpl.
    set (dW := naturalWidth img * scale) in *.
    set (dH := naturalHeight img * scale) in *.
    clearbody dW dH scale. qnorm. js_split; repeat split; lra.
Qed.

Lemma clampCrop_contained s x y :
  0 < crop_size (cropArea s) -> contained (imgDims s) (cropArea s) ->
  contained (imgDims s)
    {| crop_x := fst (clampCrop s x y); crop_y := snd (clampCrop s x y);
       crop_size := crop_size (cropArea s) |}.
Proof.
  unfold contained, width, height, clampCrop; simpl.
  intros Hs (H1 & H2 & H3 & H4).
  js_split; repeat split; lra.
Qed.

Lemma handlePointerMove_Inv s cx cy : Inv s -> Inv (handlePointerMove s cx cy).
Proof.
  intros HI. unfold handlePointerMove.
  destruct (negb (dragging s)); [exact HI |].
  destruct HI as [Hi [box [Hb Hpb]] Hs Hc]. rewrite Hb.
  split; simpl; eauto.
  now apply clampCrop_contained.
Qed.

Lemma handlePointerDown_Inv s cx cy : Inv s -> Inv (handlePointerDown s cx cy).
Proof.
  intros HI. unfold handlePointerDown.
  pose proof HI as [Hi [box [Hb Hpb]] Hs Hc]. rewrite Hb.
  match goal with |- Inv (if ?b then _ else _) => destruct b end;
    [| exact HI].
  split; simpl; eauto.
Qed.

Lemma step_Inv s e : Inv s -> valid_event e -> Inv (fst (step s e)).
Proof.
  intros HI Hv. destruct e; simpl.
  - destruct HI as [Hi [box [Hb Hpb]] Hs Hc].
    destruct (imgLoaded s); simpl.
    + split; simpl; eauto.
    + eapply calcDims_Inv; simpl; eauto.
  - assumption.
  - destruct HI as [[img [Hi Hpi]] [box [Hb Hpb]] Hs Hc].
    eapply calcDims_Inv; eauto.
  - destruct HI as [[img [Hi Hpi]] [box [Hb Hpb]] Hs Hc].
    eapply calcDims_Inv; simpl.
    + exact Hi.
    + rewrite Hb. reflexivity.
    + exact Hpi.
    + exact Hv.
  - now apply handlePointerDown_Inv.
  - now apply handlePointerMove_Inv.
  - destruct HI. split; assumption.
  - destruct (handleCrop s) as [[? [?|]]|]; assumption.
  - assumption.
Qed.

Lemma run_cons s e es :
  run s (e :: es) =
  (fst (run (fst (step s e)) es), snd (step s e) ++ snd (run (fst (step s e)) es)).
Proof.
  simpl. destruct (step s e) as [s1 o1]. simpl.
  destruct (run s1 es) as [s2 o2]. reflexivity.
Qed.

Lemma run_Inv es : forall s, Inv s -> Forall valid_event es -> Inv (fst (run s es)).
Proof.
  induction es as [|e es IH]; intros s HI Hv.
  - assumption.
  - rewrite run_cons. simpl. inversion Hv; subst.
    apply IH; [apply step_Inv|]; assumption.
Qed.

(** The state once [img.onload] has fired in a fresh component. *)
Definition loaded (box : Container) (canvas : bool) (img : Image) : State :=
  fst (step (initial (Some box) canvas) (ImgLoad img)).

Lemma loaded_Inv box canvas img :
  positive_image img -> positive_box box -> Inv (loaded box canvas img).
Proof.
  intros Hi Hb. unfold loaded. simpl.
  eapply calcDims_Inv; simpl; eauto.
Qed.

(** After every event of a session the square is inside the displayed
    image and has a side. *)
Lemma session_Inv box canvas img es :
  positive_image img -> positive_box box -> Forall valid_event es ->
  Inv (fst (run (loaded box canvas img) es)).
Proof.
  intros Hi Hb Hv. apply run_Inv; [now apply loaded_Inv | assumption].
Qed.

(** A 800 x 600 picture in a 400 x 400 container is shown 400 x 300, 50
    pixels from the top, with a square of 240 pixels in its middle. *)
Example loaded_800x600 :
  let s := loaded {| left := 10; top := 20; clientWidth := 400;
                     clientHeight := 400 |} true
                  {| naturalWidth := 800; naturalHeight := 600 |} in
  dispW (imgDims s) == 400 /\ dispH (imgDims s) == 300 /\
  offsetX (imgDims s) == 0 /\ offsetY (imgDims s) == 50 /\
  crop_x (cropArea s) == 80 /\ crop_y (cropArea s) == 80 /\
  crop_size (cropArea s) == 240.
Proof. repeat split; vm_compute; reflexivity. Qed.

End CropperFacts.

(** * The cropper with an aspect ratio *)

Module RatioFacts.
Import Js Dom RatioCropper.
Local Open Scope Q_scope.

Definition dims_ok (d : ImgDims) : Prop := 0 < dispW d /\ 0 < dispH d.

(** The region lies inside the displayed image. *)
Definition contained (d : ImgDims) (c : CropArea) : Prop :=
  offsetX d <= crop_x c /\ crop_x c + crop_w c <= offsetX d + dispW d /\
  offsetY d <= crop_y c /\ crop_y c + crop_h c <= offsetY d + dispH d.

(** A region with a size, of the wanted ratio, inside the image. *)
Record good (ar : Q) (d : ImgDims) (c : CropArea) : Prop := {
  good_w : 0 < crop_w c;
  good_h : 0 < crop_h c;
  good_ratio : crop_w c == crop_h c * ar;
  good_in : contained d c }.

(** What [resizeCase] guarantees before the region is pulled inside. *)
Record sized (ar : Q) (d : ImgDims) (c : CropArea) : Prop := {
  sized_w : 0 < crop_w c;
  sized_h : 0 < crop_h c;
  sized_ratio : crop_w c == crop_h c * ar;
  sized_x : crop_x c < offsetX d + dispW d;
  sized_y : crop_y c < offsetY d + dispH d }.

Lemma clampW_ge a m : MIN_CROP_SIZE <= clampW a m.
Proof. unfold clampW. js_split; lra. Qed.

Lemma clampH_ge ar a m : MIN_CROP_SIZE / ar <= clampH ar a m.
Proof. unfold clampH. js_split; lra. Qed.

Lemma fitImage_ok img box :
  positive_image img -> positive_box box -> dims_ok (fitImage img box).
Proof.
  intros [Hiw Hih] [Hcw Hch]. unfold dims_ok, fitImage; simpl.
  assert (Hs : 0 < Math_min (clientWidth box / naturalWidth img)
                         (clientHeight box / naturalHeight img)).
  { pose proof (div_pos _ _ Hcw Hiw). pose proof (div_pos _ _ Hch Hih).
    js_split; assumption. }
  split; nra.
Qed.

Lemma initialCrop_good ar d : 0 < ar -> dims_ok d -> good ar d (initialCrop ar d).
Proof.
  intros Har [HW HH]. unfold initialCrop.
  pose proof (div_mul (dispW d) (dispH d) HH) as Hr.
  pose proof (div_mul (dispW d * 0.8) ar Har) as Hq.
  pose proof (div_mul (dispW d) ar Har) as Hq'.
  set (r := dispW d / dispH d) in *. clearbody r.
  set (q := dispW d * 0.8 / ar) in *. clearbody q.
  set (q' := dispW d / ar) in *. clearbody q'.
  js_split; (split; [| | | unfold contained]); simpl; qnorm;
    repeat split; nra.
Qed.

Lemma good_fits ar d c : good ar d c -> crop_w c <= dispW d /\ crop_h c <= dispH d.
Proof. intros [_ _ _ (H1 & H2 & H3 & H4)]. split; lra. Qed.

(** Every handle asks for a region with a size and the wanted ratio whose
    top-left corner is left of and above the far edges of the image. *)
Lemma resizeCase_sized ar d cs mode dx dy :
  0 < ar -> dims_ok d -> good ar d cs ->
  sized ar d (resizeCase ar d cs mode dx dy).
Proof.
  intros Har [HW HH] [Hw Hh Hr (H1 & H2 & H3 & H4)].
  assert (Hmin : 0 < MIN_CROP_SIZE / ar)
    by (apply div_pos; [unfold MIN_CROP_SIZE; lra | assumption]).
  destruct mode; unfold resizeCase; cbv zeta;
    try (split; simpl; lra);
    match goal with
    | |- context [clampW ?a ?m] =>
        pose proof (clampW_ge a m) as HWge;
        set (W := clampW a m) in *; clearbody W;
        pose proof (div_mul W ar Har) as HWr;
        assert (HWp : 0 < W / ar)
          by (apply div_pos; [unfold MIN_CROP_SIZE in HWge; lra | assumption]);
        set (H := W / ar) in *; clearbody H
    | |- context [clampH ?r ?a ?m] =>
        pose proof (clampH_ge r a m) as HHge;
        set (H := clampH r a m) in *; clearbody H;
        assert (HWp : 0 < H * ar) by nra
    end;
    unfold MIN_CROP_SIZE in *; split; simpl; qnorm; nra.
Qed.

(** Pulling a sized region inside the image gives a good region. *)
Lemma fitInside_good ar d c :
  0 < ar -> dims_ok d -> sized ar d c -> good ar d (fitInside ar d c).
Proof.
  intros Har [HW HH] [Hw Hh Hr Hx Hy]. unfold fitInside.
  pose proof (div_mul (offsetX d + dispW d - Math_max (offsetX d) (crop_x c))
                ar Har) as Hq.
  set (q := (offsetX d + dispW d - Math_max (offsetX d) (crop_x c)) / ar) in *.
  clearbody q.
  js_split; (split; [| | | unfold contained]); simpl; repeat split; nra.
Qed.

Lemma resize_good ar d cs mode dx dy :
  0 < ar -> dims_ok d -> good ar d cs -> good ar d (resize ar d cs mode dx dy).
Proof.
  intros Har Hd Hcs. unfold resize.
  apply fitInside_good; [assumption | assumption |].
  now apply resizeCase_sized.
Qed.

(** [clampCrop] keeps a region that fits inside the image. *)
Lemma ratio_clampCrop_contained d x y w h :
  0 < w -> 0 < h -> w <= dispW d -> h <= dispH d ->
  contained d {| crop_x := fst (clampCrop d x y w h);
                 crop_y := snd (clampCrop d x y w h);
                 crop_w := w; crop_h := h |}.
Proof.
  intros Hw Hh HW HH. unfold contained, clampCrop; simpl.
  js_split; repeat split; lra.
Qed.


(** The events of a session.  Presses, moves and releases may come at any
    time.  What recomputes the layout ([onload], the 50 ms timer, a resize
    of the window) comes between drags, for a picture and a container that
    have a size. *)
Definition allowed (s : State) (e : Event) : Prop :=
  match e with
  | ImgLoad img => positive_image img /\ dragMode s = None
  | Timeout => dragMode s = None
  | WindowResize cw ch => (0 < cw /\ 0 < ch) /\ dragMode s = None
  | _ => True
  end.

Fixpoint valid_session (ar : Q) (s : State) (es : list Event) : Prop :=
  match es with
  | [] => True
  | e :: es' => allowed s e /\ valid_session ar (fst (step ar s e)) es'
  end.

(** The invariant of a session: the region is good, and during a drag so
    is the region recorded by the press; while the body is dragged the
    region keeps the size recorded by the press. *)
Record Inv (ar : Q) (s : State) : Prop := {
  inv_img : exists img, imgRef s = Some img /\ positive_image img;
  inv_box : exists box, containerRef s = Some box /\ positive_box box;
  inv_dims : dims_ok (imgDims s);
  inv_crop : good ar (imgDims s) (cropArea s);
  inv_start : dragMode s <> None -> good ar (imgDims s) (cropStart s);
  inv_move : dragMode s = Some move ->
             crop_w (cropStart s) = crop_w (cropArea s) /\
             crop_h (cropStart s) = crop_h (cropArea s) }.

Lemma ratio_calcDims_Inv ar s img box :
  0 < ar -> imgRef s = Some img -> containerRef s = Some box ->
  positive_image img -> positive_box box -> dragMode s = None ->
  Inv ar (calcDims ar s).
Proof.
  intros Har Hi Hb Hpi Hpb Hm. unfold calcDims. rewrite Hi, Hb.
  pose proof (fitImage_ok img box Hpi Hpb) as Hd.
  split; simpl.
  - exists img. split; [reflexivity | assumption].
  - exists box. split; [reflexivity | assumption].
  - assumption.
  - now apply initialCrop_good.
  - rewrite Hm. congruence.
  - rewrite Hm. congruence.
Qed.

Lemma ratio_handlePointerDown_Inv ar s cx cy :
  Inv ar s -> Inv ar (handlePointerDown s cx cy).
Proof.
  intros HI. unfold handlePointerDown.
  pose proof HI as [Hi [box [Hb Hpb]] Hd Hc Hs Hm]. rewrite Hb.
  destruct (detectMode _ _ _) as [mode|]; [| exact HI].
  split; simpl; eauto.
Qed.

Lemma ratio_handlePointerMove_Inv ar s cx cy :
  0 < ar -> Inv ar s -> Inv ar (handlePointerMove ar s cx cy).
Proof.
  intros Har HI. unfold handlePointerMove.
  pose proof HI as [Hi [box [Hb Hpb]] Hd Hc Hs Hm]. rewrite Hb.
  destruct (dragMode s) as [mode|] eqn:Em.
  - assert (Hcs : good ar (imgDims s) (cropStart s))
      by (apply Hs; congruence).
    destruct mode;
      try (split; simpl; [assumption | eauto | assumption
                         | now apply resize_good | intros _; assumption
                         | rewrite Em; congruence]).
    destruct (Hm eq_refl) as [Ew Eh].
    destruct Hc as [Hw Hh Hr Hin].
    pose proof (good_fits _ _ _ Hcs) as [Hfw Hfh].
    split; simpl.
    + assumption.
    + eauto.
    + assumption.
    + split; simpl; try assumption.
      rewrite <- Ew, <- Eh.
      apply ratio_clampCrop_contained; rewrite ?Ew, ?Eh; try assumption;
        rewrite <- ?Ew, <- ?Eh; assumption.
    + intros _. assumption.
    + intros _. split; assumption.
  - split; simpl; eauto; rewrite Em; congruence.
Qed.

Lemma ratio_step_Inv ar s e :
  0 < ar -> Inv ar s -> allowed s e -> Inv ar (fst (step ar s e)).
Proof.
  intros Har HI He.
  pose proof HI as [[img [Hi Hpi]] [box [Hb Hpb]] Hd Hc Hs Hm].
  destruct e; cbn [step fst allowed] in *; try assumption.
  - destruct He as [Hpos Hidle]. destruct (imgLoaded s); cbn [fst].
    + split; simpl; eauto.
    + eapply ratio_calcDims_Inv; simpl; eauto.
  - eapply ratio_calcDims_Inv; eauto.
  - destruct He as [Hpos Hidle].
    eapply ratio_calcDims_Inv; simpl.
    + assumption.
    + exact Hi.
    + rewrite Hb. reflexivity.
    + exact Hpi.
    + exact Hpos.
    + exact Hidle.
  - now apply ratio_handlePointerDown_Inv.
  - now apply ratio_handlePointerMove_Inv.
  - split; simpl; eauto; congruence.
  - destruct (handleCrop ar s) as [[? [?|]]|]; assumption.
Qed.

Lemma ratio_run_cons ar s e es :
  run ar s (e :: es) =
  (fst (run ar (fst (step ar s e)) es),
   snd (step ar s e) ++ snd (run ar (fst (step ar s e)) es)).
Proof.
  simpl. destruct (step ar s e) as [s1 o1]. simpl.
  destruct (run ar s1 es) as [s2 o2]. reflexivity.
Qed.

Lemma ratio_run_Inv ar es : forall s,
  0 < ar -> Inv ar s -> valid_session ar s es -> Inv ar (fst (run ar s es)).
Proof.
  induction es as [|e es IH]; intros s Har HI Hv.
  - assumption.
  - rewrite ratio_run_cons. cbn [fst]. destruct Hv as [He Hv].
    apply IH; [assumption | apply ratio_step_Inv | ]; assumption.
Qed.

(** The state once [img.onload] has fired in a fresh component. *)
Definition loaded (ar : Q) (box : Container) (canvas : bool) (img : Image) : State :=
  fst (step ar (initial (Some box) canvas) (ImgLoad img)).

Lemma ratio_loaded_Inv ar box canvas img :
  0 < ar -> positive_image img -> positive_box box ->
  Inv ar (loaded ar box canvas img).
Proof.
  intros Har Hi Hb. unfold loaded. simpl.
  eapply ratio_calcDims_Inv; simpl; eauto.
Qed.

(** The 50 ms timer that follows [onload] changes nothing. *)
Lemma ratio_timeout_after_load ar box canvas img :
  fst (step ar (loaded ar box canvas img) Timeout) = loaded ar box canvas img.
Proof. reflexivity. Qed.

(** Pulling the left handle to the right until less than 60 pixels are
    left gives a width of 60 pixels and a height of [60 / aspectRatio]. *)
Example resize_l_minimum :
  let d := {| img_w := 800; img_h := 600; dispW := 400; dispH := 300;
              offsetX := 0; offsetY := 50 |} in
  let cs := {| crop_x := 80; crop_y := 100; crop_w := 160; crop_h := 200 |} in
  let c := resize (4 # 5) d cs resize_l 150 0 in
  crop_w c == 60 /\ crop_h c == 75 /\ crop_x c == 180.
Proof. repeat split; vm_compute; reflexivity. Qed.

Lemma ratio_session_Inv ar box canvas img es :
  0 < ar -> positive_image img -> positive_box box ->
  valid_session ar (loaded ar box canvas img) es ->
  Inv ar (fst (run ar (loaded ar box canvas img) es)).
Proof.
  intros Har Hi Hb Hv.
  apply ratio_run_Inv; [assumption | now apply ratio_loaded_Inv | assumption].
Qed.

(** Why [allowed] keeps layout events out of a drag: the region is reset
    while the press still remembers the old size, and the next move clamps
    with that size.  Here the region was shrunk to 60 pixels, pressed, then
    reset to 240 pixels; dragged to the right it ends with its right edge
    at 580, outside a picture that ends at 400. *)
Example layout_change_during_drag :
  let box := {| left := 0; top := 0; clientWidth := 400; clientHeight := 400 |} in
  let img := {| naturalWidth := 800; naturalHeight := 600 |} in
  let es := [PointerDown 320 320; PointerMove 100 100; PointerUp;
             PointerDown 110 110; WindowResize 400 400; PointerMove 900 110] in
  let s := fst (run 1 (loaded 1 box true img) es) in
  crop_x (cropArea s) + crop_w (cropArea s) == 580 /\
  offsetX (imgDims s) + dispW (imgDims s) == 400 /\
  ~ valid_session 1 (loaded 1 box true img) es.
Proof.
  split; [vm_compute; reflexivity |]. split; [vm_compute; reflexivity |].
  intros H. vm_compute in H.
  destruct H as (_ & _ & _ & _ & (_ & H) & _). discriminate.
Qed.

End RatioFacts.

(** * The square cropper in binary64 *)

Section Binary64Facts.
Import Cropper64.
Local Open Scope float_scope.
#[local] Set Warnings "-inexact-float".




















End Binary64Facts.

(** * The geometry claims *)

Section Geometry.
Import Js Dom.
Local Open Scope Q_scope.

(** C1.  For every drag sequence, after every event the ratio of the
    region's width to its height is the target ratio: exactly 1 for the
    square cropper, exactly [aspectRatio] for the cropper that takes one
    (so within 1e-3 of it).  The sequences start from the region computed
    when the picture loads; every prefix of a sequence is a sequence, so
    the statement holds after each move and resize.  Between drags the
    layout may be recomputed (timer, window resize, another [onload]). *)
Theorem aspect_ratio_after_every_event :
  forall (aspectRatio : Q) (box : Container) (canvas : bool) (img : Image)
         (es : list Cropper.Event) (es' : list RatioCropper.Event),
    0 < aspectRatio -> positive_image img -> positive_box box ->
    Forall CropperFacts.valid_event es ->
    RatioFacts.valid_session aspectRatio
      (RatioFacts.loaded aspectRatio box canvas img) es' ->
    (let c := Cropper.cropArea
                (fst (Cropper.run (CropperFacts.loaded box canvas img) es)) in
     0 < CropperFacts.height c /\
     CropperFacts.width c / CropperFacts.height c == 1 /\
     Qabs (CropperFacts.width c / CropperFacts.height c - 1) <= 1 # 1000) /\
    (let c := RatioCropper.cropArea
                (fst (RatioCropper.run aspectRatio
                        (RatioFacts.loaded aspectRatio box canvas img) es')) in
     0 < RatioCropper.crop_h c /\
     RatioCropper.crop_w c / RatioCropper.crop_h c == aspectRatio /\
     Qabs (RatioCropper.crop_w c / RatioCropper.crop_h c - aspectRatio)
       <= 1 # 1000).
Proof.
  intros ar box canvas img es es' Har Hi Hb Hes Hes'.
  assert (Htol : forall a b : Q, a == b -> Qabs (a - b) <= 1 # 1000).
  { intros a b Hab. apply Qabs_Qle_condition. split; lra. }
  split; cbv zeta.
  - destruct (CropperFacts.session_Inv box canvas img es Hi Hb Hes)
      as [_ _ Hs _].
    unfold CropperFacts.width, CropperFacts.height.
    assert (Hone : Cropper.crop_size
                     (Cropper.cropArea
                        (fst (Cropper.run (CropperFacts.loaded box canvas img) es)))
                   / Cropper.crop_size
                       (Cropper.cropArea
                          (fst (Cropper.run (CropperFacts.loaded box canvas img) es)))
                   == 1) by (field; lra).
    repeat split; [assumption | assumption | now apply Htol].
  - destruct (RatioFacts.ratio_session_Inv ar box canvas img es' Har Hi Hb Hes')
      as [_ _ _ [Hw Hh Hr _] _ _].
    set (c := RatioCropper.cropArea _) in *.
    assert (Hq : RatioCropper.crop_w c / RatioCropper.crop_h c == ar).
    { rewrite Hr. field. lra. }
    repeat split; [assumption | assumption | now apply Htol].
Qed.

(** C1, on a 800 x 600 picture in a 400 x 400 container, ratio 4:5. *)
Lemma aspect_ratio_after_every_event_witness :
  let box := {| left := 10; top := 20; clientWidth := 400; clientHeight := 400 |} in
  let img := {| naturalWidth := 800; naturalHeight := 600 |} in
  let es := [Cropper.PointerDown 200 200; Cropper.PointerMove 500 90;
             Cropper.PointerUp] in
  let es' := [RatioCropper.Timeout; RatioCropper.PointerDown 210 200;
              RatioCropper.PointerMove 500 90; RatioCropper.PointerUp;
              RatioCropper.WindowResize 300 500;
              RatioCropper.PointerDown 15 170; RatioCropper.PointerMove 90 300] in
  (0 < 4 # 5 /\ positive_image img /\ positive_box box /\
   Forall CropperFacts.valid_event es /\
   RatioFacts.valid_session (4 # 5) (RatioFacts.loaded (4 # 5) box true img) es') /\
  RatioCropper.crop_w
    (RatioCropper.cropArea
       (fst (RatioCropper.run (4 # 5)
               (RatioFacts.loaded (4 # 5) box true img) es'))) /
  RatioCropper.crop_h
    (RatioCropper.cropArea
       (fst (RatioCropper.run (4 # 5)
               (RatioFacts.loaded (4 # 5) box true img) es'))) == 4 # 5.
Proof.
  intros box img es es'.
  assert (H1 : 0 < 4 # 5) by reflexivity.
  assert (H2 : positive_image img) by (split; reflexivity).
  assert (H3 : positive_box box) by (split; reflexivity).
  assert (H4 : Forall CropperFacts.valid_event es)
    by (repeat constructor).
  assert (H5 : RatioFacts.valid_session (4 # 5)
                 (RatioFacts.loaded (4 # 5) box true img) es')
    by (vm_compute; repeat split).
  split; [tauto |].
  exact (proj1 (proj2 (proj2
    (aspect_ratio_after_every_event (4 # 5) box true img es es' H1 H2 H3 H4 H5)))).
Defined.




(** The pointer moves of a drag, as events. *)
Definition cropper_moves (ps : list (Q * Q)) : list Cropper.Event :=
  map (fun p => Cropper.PointerMove (fst p) (snd p)) ps.

Definition ratio_moves (ps : list (Q * Q)) : list RatioCropper.Event :=
  map (fun p => RatioCropper.PointerMove (fst p) (snd p)) ps.

(** Moves leave alone what the press recorded, the size of the square and
    the displayed image. *)
Lemma cropper_moves_frame ps : forall s,
  let s' := fst (Cropper.run s (cropper_moves ps)) in
  Cropper.dragging s' = Cropper.dragging s /\
  Cropper.dragStart s' = Cropper.dragStart s /\
  Cropper.crop_size (Cropper.cropArea s') = Cropper.crop_size (Cropper.cropArea s) /\
  Cropper.imgDims s' = Cropper.imgDims s /\
  Cropper.containerRef s' = Cropper.containerRef s.
Proof.
  induction ps as [|p ps IH]; intros s; cbv zeta.
  - simpl. repeat split.
  - unfold cropper_moves. rewrite map_cons. fold (cropper_moves ps).
    rewrite CropperFacts.run_cons. cbn [fst snd Cropper.step].
    destruct (IH (Cropper.handlePointerMove s (fst p) (snd p)))
      as (H1 & H2 & H3 & H4 & H5).
    rewrite H1, H2, H3, H4, H5. unfold Cropper.handlePointerMove.
    destruct (negb (Cropper.dragging s)); [repeat split |].
    destruct (Cropper.containerRef s) eqn:E; simpl; repeat split; auto.
Qed.

Lemma ratio_moves_frame ar ps : forall s,
  RatioCropper.dragMode s = Some RatioCropper.move ->
  let s' := fst (RatioCropper.run ar s (ratio_moves ps)) in
  RatioCropper.dragMode s' = RatioCropper.dragMode s /\
  RatioCropper.dragStart s' = RatioCropper.dragStart s /\
  RatioCropper.cropStart s' = RatioCropper.cropStart s /\
  RatioCropper.crop_w (RatioCropper.cropArea s') =
    RatioCropper.crop_w (RatioCropper.cropArea s) /\
  RatioCropper.crop_h (RatioCropper.cropArea s') =
    RatioCropper.crop_h (RatioCropper.cropArea s) /\
  RatioCropper.imgDims s' = RatioCropper.imgDims s /\
  RatioCropper.containerRef s' = RatioCropper.containerRef s.
Proof.
  induction ps as [|p ps IH]; intros s Hm; cbv zeta.
  - simpl. repeat split.
  - unfold ratio_moves. rewrite map_cons. fold (ratio_moves ps).
    rewrite RatioFacts.ratio_run_cons. cbn [fst snd RatioCropper.step].
    assert (Hstep :
      let s1 := RatioCropper.handlePointerMove ar s (fst p) (snd p) in
      RatioCropper.dragMode s1 = RatioCropper.dragMode s /\
      RatioCropper.dragStart s1 = RatioCropper.dragStart s /\
      RatioCropper.cropStart s1 = RatioCropper.cropStart s /\
      RatioCropper.crop_w (RatioCropper.cropArea s1) =
        RatioCropper.crop_w (RatioCropper.cropArea s) /\
      RatioCropper.crop_h (RatioCropper.cropArea s1) =
        RatioCropper.crop_h (RatioCropper.cropArea s) /\
      RatioCropper.imgDims s1 = RatioCropper.imgDims s /\
      RatioCropper.containerRef s1 = RatioCropper.containerRef s).
    { cbv zeta. unfold RatioCropper.handlePointerMove.
      destruct (RatioCropper.containerRef s) eqn:E; [| repeat split; auto].
      rewrite Hm. simpl. repeat split; auto. }
    cbv zeta in Hstep. destruct Hstep as (E1 & E2 & E3 & E4 & E5 & E6 & E7).
    destruct (IH (RatioCropper.handlePointerMove ar s (fst p) (snd p)))
      as (H1 & H2 & H3 & H4 & H5 & H6 & H7); [congruence |].
    rewrite H1, H2, H3, H4, H5, H6, H7. repeat split; assumption.
Qed.


(** [Math.max(lo, Math.min(hi, v))] lies in [[lo, hi]] when the interval
    is not empty, and is [lo] for every [v] below [lo]. *)
Lemma clamp_between lo hi v :
  lo <= hi -> lo <= Math_max lo (Math_min hi v) <= hi.
Proof. intros H. js_split; split; lra. Qed.

Lemma clamp_below lo hi v : v < lo -> Math_max lo (Math_min hi v) == lo.
Proof. intros H. js_split; lra. Qed.

(** The square cropper: a press inside the square at [(cx, cy)], any
    moves, then a move to [(cx + dx, cy + dy)]. *)
Lemma cropper_move s box cx cy ps dx dy :
  Cropper.containerRef s = Some box ->
  Cropper.crop_x (Cropper.cropArea s) <= cx - left box ->
  cx - left box <=
    Cropper.crop_x (Cropper.cropArea s) + Cropper.crop_size (Cropper.cropArea s) ->
  Cropper.crop_y (Cropper.cropArea s) <= cy - top box ->
  cy - top box <=
    Cropper.crop_y (Cropper.cropArea s) + Cropper.crop_size (Cropper.cropArea s) ->
  let c := Cropper.cropArea s in
  let d := Cropper.imgDims s in
  let c' := Cropper.cropArea
              (Cropper.handlePointerMove
                 (fst (Cropper.run (Cropper.handlePointerDown s cx cy)
                         (cropper_moves ps)))
                 (cx + dx) (cy + dy)) in
  Cropper.crop_x c' ==
    Math_max (offsetX d)
      (Math_min (offsetX d + dispW d - Cropper.crop_size c)
         (Cropper.crop_x c + dx)) /\
  Cropper.crop_y c' ==
    Math_max (offsetY d)
      (Math_min (offsetY d + dispH d - Cropper.crop_size c)
         (Cropper.crop_y c + dy)) /\
  Cropper.crop_size c' = Cropper.crop_size c.
Proof.
  intros Hb Hx1 Hx2 Hy1 Hy2. cbv zeta.
  set (s1 := Cropper.handlePointerDown s cx cy).
  assert (Hs1 : s1 =
    {| Cropper.imgRef := Cropper.imgRef s;
       Cropper.containerRef := Cropper.containerRef s;
       Cropper.canvasReady := Cropper.canvasReady s;
       Cropper.imgLoaded := Cropper.imgLoaded s;
       Cropper.cropArea := Cropper.cropArea s; Cropper.dragging := true;
       Cropper.dragStart :=
         (cx - left box - Cropper.crop_x (Cropper.cropArea s),
          cy - top box - Cropper.crop_y (Cropper.cropArea s));
       Cropper.imgDims := Cropper.imgDims s |}).
  { unfold s1, Cropper.handlePointerDown. rewrite Hb.
    apply ge_true in Hx1, Hy1. apply le_true in Hx2, Hy2.
    rewrite Hx1, Hx2, Hy1, Hy2. reflexivity. }
  destruct (cropper_moves_frame ps s1) as (H1 & H2 & H3 & H4 & H5).
  set (s2 := fst (Cropper.run s1 (cropper_moves ps))) in *.
  unfold Cropper.handlePointerMove.
  rewrite H1, H5, Hs1. cbn [Cropper.dragging Cropper.containerRef negb].
  rewrite Hb. cbn [Cropper.set_cropArea Cropper.cropArea Cropper.crop_x
                   Cropper.crop_y Cropper.crop_size].
  unfold Cropper.clampCrop. cbn [fst snd].
  rewrite H2, H3, H4, Hs1.
  cbn [Cropper.dragStart Cropper.imgDims Cropper.cropArea fst snd].
  repeat split.
  - apply Math_max_proper; [reflexivity |].
    apply Math_min_proper; [reflexivity | ring].
  - apply Math_max_proper; [reflexivity |].
    apply Math_min_proper; [reflexivity | ring].
Qed.

(** The cropper with handles: a press on the body at [(cx, cy)], any
    moves, then a move to [(cx + dx, cy + dy)]. *)
Lemma ratio_move ar s box cx cy ps dx dy :
  RatioCropper.containerRef s = Some box ->
  RatioCropper.detectMode (RatioCropper.cropArea s)
    (cx - left box) (cy - top box) = Some RatioCropper.move ->
  let c := RatioCropper.cropArea s in
  let d := RatioCropper.imgDims s in
  let c' := RatioCropper.cropArea
              (RatioCropper.handlePointerMove ar
                 (fst (RatioCropper.run ar
                         (RatioCropper.handlePointerDown s cx cy)
                         (ratio_moves ps)))
                 (cx + dx) (cy + dy)) in
  RatioCropper.crop_x c' ==
    Math_max (offsetX d)
      (Math_min (offsetX d + dispW d - RatioCropper.crop_w c)
         (RatioCropper.crop_x c + dx)) /\
  RatioCropper.crop_y c' ==
    Math_max (offsetY d)
      (Math_min (offsetY d + dispH d - RatioCropper.crop_h c)
         (RatioCropper.crop_y c + dy)) /\
  RatioCropper.crop_w c' = RatioCropper.crop_w c /\
  RatioCropper.crop_h c' = RatioCropper.crop_h c.
Proof.
  intros Hb Hm. cbv zeta.
  set (s1 := RatioCropper.handlePointerDown s cx cy).
  assert (Hs1 : s1 =
    {| RatioCropper.imgRef := RatioCropper.imgRef s;
       RatioCropper.containerRef := RatioCropper.containerRef s;
       RatioCropper.canvasReady := RatioCropper.canvasReady s;
       RatioCropper.imgLoaded := RatioCropper.imgLoaded s;
       RatioCropper.cropArea := RatioCropper.cropArea s;
       RatioCropper.dragMode := Some RatioCropper.move;
       RatioCropper.dragStart := (cx - left box, cy - top box);
       RatioCropper.cropStart := RatioCropper.cropArea s;
       RatioCropper.imgDims := RatioCropper.imgDims s;
       RatioCropper.cursorStyle := "grabbing" |}).
  { unfold s1, RatioCropper.handlePointerDown. rewrite Hb, Hm. reflexivity. }
  destruct (ratio_moves_frame ar ps s1) as (H1 & H2 & H3 & H4 & H5 & H6 & H7).
  { rewrite Hs1. reflexivity. }
  set (s2 := fst (RatioCropper.run ar s1 (ratio_moves ps))) in *.
  unfold RatioCropper.handlePointerMove.
  rewrite H1, H7, Hs1.
  cbn [RatioCropper.dragMode RatioCropper.containerRef].
  rewrite Hb.
  cbn [RatioCropper.set_cropArea RatioCropper.cropArea RatioCropper.crop_x
       RatioCropper.crop_y RatioCropper.crop_w RatioCropper.crop_h].
  unfold RatioCropper.clampCrop. cbn [fst snd].
  rewrite H2, H3, H4, H5, H6, Hs1.
  cbn [RatioCropper.dragStart RatioCropper.imgDims RatioCropper.cropArea
       RatioCropper.cropStart fst snd].
  repeat split.
  - apply Math_max_proper; [reflexivity |].
    apply Math_min_proper; [reflexivity | ring].
  - apply Math_max_proper; [reflexivity |].
    apply Math_min_proper; [reflexivity | ring].
Qed.


(** What the move operation promises, in the words of its description:
    the region [(x, y, w, h)] within the bounds [[minX, maxX] x [minY,
    maxY]], moved by [(dx, dy)], becomes [(x', y', w', h')]. *)
Definition move_spec (minX maxX minY maxY x y w h dx dy x' y' w' h' : Q) : Prop :=
  x' == Math_max minX (Math_min (maxX - w) (x + dx)) /\
  y' == Math_max minY (Math_min (maxY - h) (y + dy)) /\
  w' = w /\ h' = h /\
  (w <= maxX - minX -> minX <= x' <= maxX - w) /\
  (h <= maxY - minY -> minY <= y' <= maxY - h) /\
  (x + dx < minX -> x' == minX).

Lemma move_spec_intro minX maxX minY maxY x y w h dx dy x' y' w' h' :
  x' == Math_max minX (Math_min (maxX - w) (x + dx)) ->
  y' == Math_max minY (Math_min (maxY - h) (y + dy)) ->
  w' = w -> h' = h ->
  move_spec minX maxX minY maxY x y w h dx dy x' y' w' h'.
Proof.
  intros Hx Hy Hw Hh. unfold move_spec.
  split; [assumption |]. split; [assumption |].
  split; [assumption |]. split; [assumption |].
  split; [| split].
  - intros Hfit. rewrite Hx. apply clamp_between. lra.
  - intros Hfit. rewrite Hy. apply clamp_between. lra.
  - intros Hlow. rewrite Hx. now apply clamp_below.
Qed.

(** C3.  A move translates the region recorded at the press by the
    pointer displacement [(dx, dy)] and clamps [x] into
    [[minX, maxX - width]] and [y] into [[minY, maxY - height]], where the
    bounds are the displayed image; width and height are unchanged, and a
    displacement that would bring [x] below the minimum gives [x = offsetX].
    Both croppers do so. *)
Theorem move_translates_then_clamps :
  forall (aspectRatio : Q) (s : Cropper.State) (r : RatioCropper.State)
         (box : Container) (cx cy : Q) (ps : list (Q * Q)) (dx dy : Q),
    Cropper.containerRef s = Some box ->
    Cropper.crop_x (Cropper.cropArea s) <= cx - left box ->
    cx - left box <=
      Cropper.crop_x (Cropper.cropArea s) + Cropper.crop_size (Cropper.cropArea s) ->
    Cropper.crop_y (Cropper.cropArea s) <= cy - top box ->
    cy - top box <=
      Cropper.crop_y (Cropper.cropArea s) + Cropper.crop_size (Cropper.cropArea s) ->
    RatioCropper.containerRef r = Some box ->
    RatioCropper.detectMode (RatioCropper.cropArea r)
      (cx - left box) (cy - top box) = Some RatioCropper.move ->
    (let c := Cropper.cropArea s in
     let d := Cropper.imgDims s in
     let c' := Cropper.cropArea
                 (Cropper.handlePointerMove
                    (fst (Cropper.run (Cropper.handlePointerDown s cx cy)
                            (cropper_moves ps)))
                    (cx + dx) (cy + dy)) in
     move_spec (offsetX d) (offsetX d + dispW d) (offsetY d) (offsetY d + dispH d)
       (Cropper.crop_x c) (Cropper.crop_y c)
       (CropperFacts.width c) (CropperFacts.height c) dx dy
       (Cropper.crop_x c') (Cropper.crop_y c')
       (CropperFacts.width c') (CropperFacts.height c')) /\
    (let c := RatioCropper.cropArea r in
     let d := RatioCropper.imgDims r in
     let c' := RatioCropper.cropArea
                 (RatioCropper.handlePointerMove aspectRatio
                    (fst (RatioCropper.run aspectRatio
                            (RatioCropper.handlePointerDown r cx cy)
                            (ratio_moves ps)))
                    (cx + dx) (cy + dy)) in
     move_spec (offsetX d) (offsetX d + dispW d) (offsetY d) (offsetY d + dispH d)
       (RatioCropper.crop_x c) (RatioCropper.crop_y c)
       (RatioCropper.crop_w c) (RatioCropper.crop_h c) dx dy
       (RatioCropper.crop_x c') (RatioCropper.crop_y c')
       (RatioCropper.crop_w c') (RatioCropper.crop_h c')).
Proof.
  intros ar s r box cx cy ps dx dy Hb Hx1 Hx2 Hy1 Hy2 Hb' Hm.
  split; cbv zeta.
  - destruct (cropper_move s box cx cy ps dx dy Hb Hx1 Hx2 Hy1 Hy2)
      as (Ex & Ey & Es).
    unfold CropperFacts.width, CropperFacts.height.
    apply move_spec_intro; assumption.
  - destruct (ratio_move ar r box cx cy ps dx dy Hb' Hm)
      as (Ex & Ey & Ew & Eh).
    apply move_spec_intro; assumption.
Qed.


(** C3, for a press in the middle of the region and a move of 500 pixels
    to the left: the region stops at the left edge of the picture. *)
Lemma move_translates_then_clamps_witness :
  let box := {| left := 10; top := 20; clientWidth := 400; clientHeight := 400 |} in
  let img := {| naturalWidth := 800; naturalHeight := 600 |} in
  let s := CropperFacts.loaded box true img in
  let r := RatioFacts.loaded 1 box true img in
  (Cropper.containerRef s = Some box /\
   Cropper.crop_x (Cropper.cropArea s) <= 210 - left box /\
   210 - left box <=
     Cropper.crop_x (Cropper.cropArea s) + Cropper.crop_size (Cropper.cropArea s) /\
   Cropper.crop_y (Cropper.cropArea s) <= 220 - top box /\
   220 - top box <=
     Cropper.crop_y (Cropper.cropArea s) + Cropper.crop_size (Cropper.cropArea s) /\
   RatioCropper.containerRef r = Some box /\
   RatioCropper.detectMode (RatioCropper.cropArea r)
     (210 - left box) (220 - top box) = Some RatioCropper.move) /\
  RatioCropper.crop_x
    (RatioCropper.cropArea
       (RatioCropper.handlePointerMove 1
          (fst (RatioCropper.run 1 (RatioCropper.handlePointerDown r 210 220)
                  (ratio_moves [(150, 230)])))
          (210 + - 500) (220 + 3)))
  == offsetX (RatioCropper.imgDims r).
Proof.
  intros box img s r.
  assert (H1 : Cropper.containerRef s = Some box) by reflexivity.
  assert (H2 : Cropper.crop_x (Cropper.cropArea s) <= 210 - left box)
    by (vm_compute; discriminate).
  assert (H3 : 210 - left box <=
     Cropper.crop_x (Cropper.cropArea s) + Cropper.crop_size (Cropper.cropArea s))
    by (vm_compute; discriminate).
  assert (H4 : Cropper.crop_y (Cropper.cropArea s) <= 220 - top box)
    by (vm_compute; discriminate).
  assert (H5 : 220 - top box <=
     Cropper.crop_y (Cropper.cropArea s) + Cropper.crop_size (Cropper.cropArea s))
    by (vm_compute; discriminate).
  assert (H6 : RatioCropper.containerRef r = Some box) by reflexivity.
  assert (H7 : RatioCropper.detectMode (RatioCropper.cropArea r)
     (210 - left box) (220 - top box) = Some RatioCropper.move)
    by (vm_compute; reflexivity).
  split; [tauto |].
  destruct (move_translates_then_clamps 1 s r box 210 220 [(150, 230)]
              (- 500) 3 H1 H2 H3 H4 H5 H6 H7) as [_ Hr].
  cbv zeta in Hr. destruct Hr as (_ & _ & _ & _ & _ & _ & Hlow).
  apply Hlow. vm_compute. reflexivity.
Defined.


(** ** Mapping the region back to the source picture *)

(** The display transform: the picture is drawn at [left: offsetX, top:
    offsetY] with [width: dispW, height: dispH], so a source rectangle
    appears scaled by [dispW / w] and [dispH / h] and shifted by the
    offsets. *)
Definition ratio_toDisplay (d : ImgDims) (r : Q * Q * Q * Q) : RatioCropper.CropArea :=
  let '(sx, sy, sw, sh) := r in
  {| RatioCropper.crop_x := offsetX d + sx * (dispW d / img_w d);
     RatioCropper.crop_y := offsetY d + sy * (dispH d / img_h d);
     RatioCropper.crop_w := sw * (dispW d / img_w d);
     RatioCropper.crop_h := sh * (dispH d / img_h d) |}.

(** The same for a source square, which appears as a square because the
    scale is uniform. *)
Definition cropper_toDisplay (d : ImgDims) (r : Q * Q * Q) : Cropper.CropArea :=
  let '(sx, sy, ss) := r in
  {| Cropper.crop_x := offsetX d + sx * (dispW d / img_w d);
     Cropper.crop_y := offsetY d + sy * (dispH d / img_h d);
     Cropper.crop_size := ss * (dispW d / img_w d) |}.

(** Equality of rectangles, coordinate by coordinate. *)
Definition rect_eq (a b : Q * Q * Q * Q) : Prop :=
  let '(ax, ay, aw, ah) := a in
  let '(bx, by', bw, bh) := b in
  ax == bx /\ ay == by' /\ aw == bw /\ ah == bh.

Definition square_eq (a b : Q * Q * Q) : Prop :=
  let '(ax, ay, asz) := a in
  let '(bx, by', bsz) := b in
  ax == bx /\ ay == by' /\ asz == bsz.

(** The displayed image of the square cropper is the one of [fitImage]. *)
Lemma cropper_loaded_dims box canvas img :
  Cropper.imgDims (CropperFacts.loaded box canvas img) =
  RatioCropper.fitImage img box.
Proof. reflexivity. Qed.

Lemma fitImage_scale img box :
  positive_image img -> positive_box box ->
  exists k, 0 < k /\
    dispW (RatioCropper.fitImage img box) = naturalWidth img * k /\
    dispH (RatioCropper.fitImage img box) = naturalHeight img * k /\
    img_w (RatioCropper.fitImage img box) = naturalWidth img /\
    img_h (RatioCropper.fitImage img box) = naturalHeight img.
Proof.
  intros [Hiw Hih] [Hcw Hch].
  exists (Math_min (clientWidth box / naturalWidth img)
                   (clientHeight box / naturalHeight img)).
  split; [| repeat split].
  pose proof (div_pos _ _ Hcw Hiw). pose proof (div_pos _ _ Hch Hih).
  js_split; assumption.
Qed.

(** C4.  The source rectangle computed at export time inverts the display
    transform: a source rectangle, displayed and mapped back, is itself;
    and the region covering the whole displayed image maps back to
    [(0, 0, naturalWidth, naturalHeight)], exactly (hence within one pixel).
    For the square cropper the region is a square, which covers the whole
    displayed image when the picture is a square. *)
Theorem sourceRect_inverts_display :
  forall (box : Container) (canvas : bool) (img : Image),
    positive_image img -> positive_box box ->
    (let d := RatioCropper.fitImage img box in
     (forall sx sy sw sh,
        rect_eq (RatioCropper.sourceRect d (ratio_toDisplay d (sx, sy, sw, sh)))
                (sx, sy, sw, sh)) /\
     rect_eq
       (RatioCropper.sourceRect d
          {| RatioCropper.crop_x := offsetX d; RatioCropper.crop_y := offsetY d;
             RatioCropper.crop_w := dispW d; RatioCropper.crop_h := dispH d |})
       (0, 0, naturalWidth img, naturalHeight img)) /\
    (let d := Cropper.imgDims (CropperFacts.loaded box canvas img) in
     (forall sx sy ss,
        square_eq (Cropper.sourceRect d (cropper_toDisplay d (sx, sy, ss)))
                  (sx, sy, ss)) /\
     (naturalWidth img == naturalHeight img ->
      dispW d == dispH d /\
      square_eq
        (Cropper.sourceRect d
           {| Cropper.crop_x := offsetX d; Cropper.crop_y := offsetY d;
              Cropper.crop_size := dispW d |})
        (0, 0, naturalWidth img))).
Proof.
  intros box canvas img Hi Hb.
  rewrite cropper_loaded_dims.
  destruct (fitImage_scale img box Hi Hb) as (k & Hk & EW & EH & Ew & Eh).
  destruct Hi as [Hiw Hih].
  set (d := RatioCropper.fitImage img box) in *. clearbody d.
  split; cbv zeta.
  - split.
    + intros sx sy sw sh.
      unfold rect_eq, RatioCropper.sourceRect, ratio_toDisplay; simpl.
      rewrite EW, EH, Ew, Eh. repeat split; field; lra.
    + unfold rect_eq, RatioCropper.sourceRect; simpl.
      rewrite EW, EH, Ew, Eh. repeat split; field; lra.
  - split.
    + intros sx sy ss.
      unfold square_eq, Cropper.sourceRect, cropper_toDisplay; simpl.
      rewrite EW, EH, Ew, Eh. repeat split; try (field; lra).
      js_split; field; lra.
    + intros Hsq. rewrite EW, EH. split; [nra |].
      unfold square_eq, Cropper.sourceRect; simpl.
      rewrite EW, EH, Ew, Eh. repeat split; try (field; lra).
      js_split; field; lra.
Qed.

(** C4, for a 800 x 600 picture in a 400 x 400 container. *)
Lemma sourceRect_inverts_display_witness :
  let box := {| left := 10; top := 20; clientWidth := 400; clientHeight := 400 |} in
  let img := {| naturalWidth := 800; naturalHeight := 600 |} in
  (positive_image img /\ positive_box box) /\
  (let d := RatioCropper.fitImage img box in
   rect_eq
     (RatioCropper.sourceRect d
        {| RatioCropper.crop_x := offsetX d; RatioCropper.crop_y := offsetY d;
           RatioCropper.crop_w := dispW d; RatioCropper.crop_h := dispH d |})
     (0, 0, 800, 600)).
Proof.
  intros box img.
  assert (H1 : positive_image img) by (split; reflexivity).
  assert (H2 : positive_box box) by (split; reflexivity).
  split; [tauto |].
  exact (proj2 (proj1 (sourceRect_inverts_display box true img H1 H2))).
Defined.


(** ** Resizing from the bottom-right handle *)

Definition region_eq (a b : RatioCropper.CropArea) : Prop :=
  RatioCropper.crop_x a == RatioCropper.crop_x b /\
  RatioCropper.crop_y a == RatioCropper.crop_y b /\
  RatioCropper.crop_w a == RatioCropper.crop_w b /\
  RatioCropper.crop_h a == RatioCropper.crop_h b.

(** The region of the example and the one it grows to. *)
Definition region_200 : RatioCropper.CropArea :=
  {| RatioCropper.crop_x := 100; RatioCropper.crop_y := 100;
     RatioCropper.crop_w := 200; RatioCropper.crop_h := 200 |}.

Definition region_250 : RatioCropper.CropArea :=
  {| RatioCropper.crop_x := 100; RatioCropper.crop_y := 100;
     RatioCropper.crop_w := 250; RatioCropper.crop_h := 250 |}.

(** With room for a region of 250 pixels, the bottom-right handle may
    grow to at least 250 pixels. *)
Lemma getMaxCropSize_br_room d :
  350 <= offsetX d + dispW d -> 350 <= offsetY d + dispH d ->
  250 <= fst (RatioCropper.getMaxCropSize 1 d 100 100 1 1).
Proof.
  intros H3 H4. unfold RatioCropper.getMaxCropSize.
  change (gt 1 0) with true. cbv beta iota zeta.
  assert (Hp : 0 < offsetY d + dispH d - 100) by lra.
  pose proof (div_mul (offsetX d + dispW d - 100) _ Hp) as Hr.
  set (r := (offsetX d + dispW d - 100) / (offsetY d + dispH d - 100)) in *.
  clearbody r.
  js_split; cbn [fst]; nra.
Qed.

Lemma resize_br_example d :
  offsetX d <= 100 -> offsetY d <= 100 ->
  350 <= offsetX d + dispW d -> 350 <= offsetY d + dispH d ->
  forall dx dy, dx == 50 ->
  region_eq (RatioCropper.resize 1 d region_200 RatioCropper.resize_br dx dy)
            region_250.
Proof.
  intros H1 H2 H3 H4 dx dy Hdx.
  pose proof (getMaxCropSize_br_room d H3 H4) as Hroom.
  unfold RatioCropper.resize, RatioCropper.resizeCase, region_200, region_250,
    region_eq.
  cbn [RatioCropper.crop_x RatioCropper.crop_y RatioCropper.crop_w
       RatioCropper.crop_h].
  set (m := fst (RatioCropper.getMaxCropSize 1 d 100 100 1 1)) in *.
  clearbody m.
  unfold RatioCropper.fitInside, RatioCropper.clampW,
    RatioCropper.MIN_CROP_SIZE.
  assert (Hq : forall a : Q, a / 1 == a) by (intros a; field).
  repeat (progress (js_split;
                    cbn [RatioCropper.crop_x RatioCropper.crop_y
                         RatioCropper.crop_w RatioCropper.crop_h] in * ));
    rewrite ?Hq in *; repeat split; lra.
Qed.


(** C6.  During a drag of the bottom-right handle that started on the
    region [{x: 100, y: 100, w: 200, h: 200}], with ratio 1, a pointer that
    is 50 pixels to the right of the press (and at its height) gives the
    region [{x: 100, y: 100, w: 250, h: 250}], whenever the displayed image
    contains that region. *)
Theorem resize_bottom_right_grows :
  forall (s : RatioCropper.State) (box : Container) (px py : Q),
    RatioCropper.containerRef s = Some box ->
    RatioCropper.dragMode s = Some RatioCropper.resize_br ->
    RatioCropper.cropStart s = region_200 ->
    RatioCropper.dragStart s = (px, py) ->
    offsetX (RatioCropper.imgDims s) <= 100 ->
    offsetY (RatioCropper.imgDims s) <= 100 ->
    350 <= offsetX (RatioCropper.imgDims s) + dispW (RatioCropper.imgDims s) ->
    350 <= offsetY (RatioCropper.imgDims s) + dispH (RatioCropper.imgDims s) ->
    region_eq
      (RatioCropper.cropArea
         (RatioCropper.handlePointerMove RatioCropper.default_aspectRatio s
            (left box + px + 50) (top box + py + 0)))
      region_250.
Proof.
  intros s box px py Hb Hm Hcs Hds H1 H2 H3 H4.
  unfold RatioCropper.handlePointerMove, RatioCropper.default_aspectRatio.
  rewrite Hb, Hm, Hcs, Hds. cbn [RatioCropper.set_cropArea RatioCropper.cropArea fst snd].
  apply resize_br_example; try assumption. ring.
Qed.

(** C6, in a 600 x 600 picture shown at its natural size. *)
Lemma resize_bottom_right_grows_witness :
  let box := {| left := 10; top := 20; clientWidth := 600; clientHeight := 600 |} in
  let s :=
    {| RatioCropper.imgRef := Some {| naturalWidth := 600; naturalHeight := 600 |};
       RatioCropper.containerRef := Some box;
       RatioCropper.canvasReady := true; RatioCropper.imgLoaded := true;
       RatioCropper.cropArea := region_200;
       RatioCropper.dragMode := Some RatioCropper.resize_br;
       RatioCropper.dragStart := (300, 300);
       RatioCropper.cropStart := region_200;
       RatioCropper.imgDims :=
         {| img_w := 600; img_h := 600; dispW := 600; dispH := 600;
            offsetX := 0; offsetY := 0 |};
       RatioCropper.cursorStyle := "nwse-resize" |} in
  (RatioCropper.containerRef s = Some box /\
   RatioCropper.dragMode s = Some RatioCropper.resize_br /\
   RatioCropper.cropStart s = region_200 /\
   RatioCropper.dragStart s = (300, 300) /\
   offsetX (RatioCropper.imgDims s) <= 100 /\
   offsetY (RatioCropper.imgDims s) <= 100 /\
   350 <= offsetX (RatioCropper.imgDims s) + dispW (RatioCropper.imgDims s) /\
   350 <= offsetY (RatioCropper.imgDims s) + dispH (RatioCropper.imgDims s)) /\
  region_eq
    (RatioCropper.cropArea
       (RatioCropper.handlePointerMove RatioCropper.default_aspectRatio s
          (left box + 300 + 50) (top box + 300 + 0)))
    region_250.
Proof.
  intros box s.
  assert (H1 : RatioCropper.containerRef s = Some box) by reflexivity.
  assert (H2 : RatioCropper.dragMode s = Some RatioCropper.resize_br)
    by reflexivity.
  assert (H3 : RatioCropper.cropStart s = region_200) by reflexivity.
  assert (H4 : RatioCropper.dragStart s = (300, 300)) by reflexivity.
  assert (H5 : offsetX (RatioCropper.imgDims s) <= 100)
    by (vm_compute; discriminate).
  assert (H6 : offsetY (RatioCropper.imgDims s) <= 100)
    by (vm_compute; discriminate).
  assert (H7 : 350 <= offsetX (RatioCropper.imgDims s)
                      + dispW (RatioCropper.imgDims s))
    by (vm_compute; discriminate).
  assert (H8 : 350 <= offsetY (RatioCropper.imgDims s)
                      + dispH (RatioCropper.imgDims s))
    by (vm_compute; discriminate).
  split; [tauto |].
  exact (resize_bottom_right_grows s box 300 300 H1 H2 H3 H4 H5 H6 H7 H8).
Defined.

End Geometry.

(** * The exported picture *)

Section ExportFacts.
Import Js Dom.
Local Open Scope Q_scope.

(** The blob of the square cropper. *)
Definition blob_400 : Blob :=
  {| blob_width := 400; blob_height := 400;
     blob_type := image_jpeg; blob_quality := 0.9 |}.

Lemma cropper_handleCrop_blob s d b :
  Cropper.handleCrop s = Some (d, b) ->
  b = Some blob_400 /\ draw_dw d = 400%Z /\ draw_dh d = 400%Z.
Proof.
  unfold Cropper.handleCrop.
  destruct (Cropper.imgRef s); [| discriminate].
  destruct (negb (Cropper.canvasReady s)); [discriminate |].
  destruct (Cropper.sourceRect _ _) as [[srcX srcY] srcSize].
  intros H. injection H as <- <-. repeat split.
Qed.

Lemma cropper_step_outputs s e b :
  In (onCrop b) (snd (Cropper.step s e)) -> b = blob_400.
Proof.
  destruct e; simpl; try tauto.
  - destruct (Cropper.imgLoaded s); simpl; tauto.
  - destruct (Cropper.handleCrop s) as [[d [b'|]]|] eqn:E; simpl; try tauto.
    intros [H|[]]. injection H as <-.
    apply cropper_handleCrop_blob in E. destruct E as [E _]. congruence.
  - intros [H|[]]. discriminate.
Qed.

Lemma cropper_run_outputs es : forall s b,
  In (onCrop b) (snd (Cropper.run s es)) -> b = blob_400.
Proof.
  induction es as [|e es IH]; intros s b.
  - simpl. tauto.
  - rewrite CropperFacts.run_cons. cbn [snd]. rewrite in_app_iff.
    intros [H|H]; [now apply cropper_step_outputs in H | now apply IH in H].
Qed.

(** C10.  Whatever the picture and the selection, every blob given to
    [onCrop] by the square cropper is 400 x 400 pixels, JPEG, quality 0.9;
    and pressing the apply button on a loaded picture does give one. *)
Theorem onCrop_blob_is_400_jpeg :
  forall (s : Cropper.State) (es : list Cropper.Event),
    (forall b, In (onCrop b) (snd (Cropper.run s es)) ->
       blob_width b = 400%Z /\ blob_height b = 400%Z /\
       blob_type b = image_jpeg /\ blob_quality b = 0.9) /\
    (Cropper.imgRef s <> None -> Cropper.canvasReady s = true ->
     snd (Cropper.step s Cropper.ClickApply) = [onCrop blob_400]).
Proof.
  intros s es. split.
  - intros b Hb. apply cropper_run_outputs in Hb. subst b. repeat split.
  - intros Hi Hc. cbn [Cropper.step]. unfold Cropper.handleCrop.
    destruct (Cropper.imgRef s); [| congruence].
    rewrite Hc. cbn [negb].
    destruct (Cropper.sourceRect _ _) as [[srcX srcY] srcSize]. reflexivity.
Qed.

(** C10, for a 4000 x 4000 picture in a 400 x 400 container. *)
Lemma onCrop_blob_is_400_jpeg_witness :
  let box := {| left := 0; top := 0; clientWidth := 400; clientHeight := 400 |} in
  let img := {| naturalWidth := 4000; naturalHeight := 4000 |} in
  let s := CropperFacts.loaded box true img in
  (Cropper.imgRef s <> None /\ Cropper.canvasReady s = true /\
   In (onCrop blob_400)
      (snd (Cropper.run s [Cropper.PointerDown 200 200; Cropper.ClickApply]))) /\
  snd (Cropper.step s Cropper.ClickApply) = [onCrop blob_400] /\
  blob_width blob_400 = 400%Z.
Proof.
  intros box img s.
  assert (H1 : Cropper.imgRef s <> None) by discriminate.
  assert (H2 : Cropper.canvasReady s = true) by reflexivity.
  assert (H3 : In (onCrop blob_400)
      (snd (Cropper.run s [Cropper.PointerDown 200 200; Cropper.ClickApply])))
    by (left; reflexivity).
  split; [tauto |]. split.
  - exact (proj2 (onCrop_blob_is_400_jpeg s []) H1 H2).
  - exact (proj1 (proj1 (onCrop_blob_is_400_jpeg s
             [Cropper.PointerDown 200 200; Cropper.ClickApply]) blob_400 H3)).
Defined.


(** The width of the selection in source pixels, rounded to a whole
    number of pixels. *)
Definition sourceCropWidth (d : Draw) : Z := Math_round (draw_sw d).

(** A 4000 x 4000 picture in a 400 x 400 container. *)
Definition big_picture : Cropper.State :=
  CropperFacts.loaded
    {| left := 0; top := 0; clientWidth := 400; clientHeight := 400 |} true
    {| naturalWidth := 4000; naturalHeight := 4000 |}.

(** C5 fails for the square cropper: the selection on [big_picture] is
    3200 source pixels wide, and the export is 400 pixels wide, not
    [min(1080, 3200) = 1080]. *)
Lemma export_width_is_not_min_1080 :
  exists d b,
    Cropper.handleCrop big_picture = Some (d, Some b) /\
    sourceCropWidth d = 3200%Z /\
    blob_width b = 400%Z /\
    blob_width b <> Z.min 1080 (sourceCropWidth d).
Proof.
  destruct (Cropper.handleCrop big_picture) as [[d [b|]]|] eqn:E;
    try (vm_compute in E; discriminate).
  exists d, b. split; [reflexivity |].
  vm_compute in E. injection E as <- <-.
  repeat split. vm_compute. discriminate.
Qed.

Lemma ratio_handleCrop_size ar s d b :
  RatioCropper.handleCrop ar s = Some (d, Some b) ->
  draw_sw d =
    RatioCropper.crop_w (RatioCropper.cropArea s) *
    (img_w (RatioCropper.imgDims s) / dispW (RatioCropper.imgDims s)) /\
  blob_width b = Z.min 1080 (sourceCropWidth d) /\
  blob_height b = Math_round (inject_Z (blob_width b) / ar) /\
  blob_type b = image_jpeg /\ blob_quality b = 0.92.
Proof.
  unfold RatioCropper.handleCrop, RatioCropper.sourceRect,
    RatioCropper.outputSize, sourceCropWidth.
  destruct (RatioCropper.imgRef s); [| discriminate].
  destruct (negb (RatioCropper.canvasReady s)); [discriminate |].
  unfold toBlob.
  destruct (_ || _)%bool; [discriminate |].
  intros H. injection H as <- <-. repeat split.
Qed.

(** C5, amended.  The exported width never exceeds 1080 pixels: the
    square cropper always exports 400 x 400 pixels, whatever the width of
    the selection in the source; the cropper with an aspect ratio exports
    [min(1080, round(sourceCropWidth))] pixels in width and
    [round(width / aspectRatio)] in height. *)
Theorem export_width_at_most_1080 :
  forall (aspectRatio : Q) (s : Cropper.State) (r : RatioCropper.State)
         (d : Draw) (b : Blob),
    (Cropper.handleCrop s = Some (d, Some b) ->
     blob_width b = 400%Z /\ blob_height b = 400%Z /\
     (blob_width b <= 1080)%Z) /\
    (RatioCropper.handleCrop aspectRatio r = Some (d, Some b) ->
     blob_width b = Z.min 1080 (sourceCropWidth d) /\
     blob_height b = Math_round (inject_Z (blob_width b) / aspectRatio) /\
     (blob_width b <= 1080)%Z).
Proof.
  intros ar s r d b. split.
  - intros H. apply cropper_handleCrop_blob in H. destruct H as [H _].
    injection H as ->. repeat split. discriminate.
  - intros H. apply ratio_handleCrop_size in H.
    destruct H as (_ & Hw & Hh & _). repeat split; try assumption.
    rewrite Hw. apply Z.le_min_l.
Qed.

(** C5 amended, on [big_picture] and on the same picture with ratio 4:5. *)
Lemma export_width_at_most_1080_witness :
  let r := RatioFacts.loaded (4 # 5)
             {| left := 0; top := 0; clientWidth := 400; clientHeight := 400 |}
             true {| naturalWidth := 4000; naturalHeight := 4000 |} in
  exists d b,
    RatioCropper.handleCrop (4 # 5) r = Some (d, Some b) /\
    blob_width b = 1080%Z /\ blob_height b = 1350%Z /\
    blob_width b = Z.min 1080 (sourceCropWidth d).
Proof.
  intros r.
  destruct (RatioCropper.handleCrop (4 # 5) r) as [[d [b|]]|] eqn:E;
    try (vm_compute in E; discriminate).
  exists d, b. split; [reflexivity |].
  destruct (proj2 (export_width_at_most_1080 (4 # 5) big_picture r d b) E)
    as (Hw & Hh & _).
  vm_compute in E. injection E as <- <-.
  split; [reflexivity |]. split; [reflexivity |]. exact Hw.
Defined.

End ExportFacts.

(** * A picture that does not load *)

Section Loading.
Import Js Dom.
Local Open Scope Q_scope.

(** The events of a session in which [onload] never fires. *)
Definition cropper_not_load (e : Cropper.Event) : Prop :=
  match e with Cropper.ImgLoad _ => False | _ => True end.

Definition ratio_not_load (e : RatioCropper.Event) : Prop :=
  match e with RatioCropper.ImgLoad _ => False | _ => True end.

Lemma cropper_step_unloaded s e :
  Cropper.imgRef s = None -> Cropper.imgLoaded s = false ->
  cropper_not_load e ->
  Cropper.imgRef (fst (Cropper.step s e)) = None /\
  Cropper.imgLoaded (fst (Cropper.step s e)) = false /\
  Forall (fun o => o = onCancel) (snd (Cropper.step s e)).
Proof.
  intros Hi Hl He.
  destruct e; cbn [Cropper.step]; try contradiction;
    unfold Cropper.calcDims, Cropper.handlePointerDown,
      Cropper.handlePointerMove, Cropper.handleCrop;
    cbn [Cropper.resize_container Cropper.imgRef]; rewrite ?Hi;
    repeat match goal with
           | |- context [match ?x with _ => _ end] => destruct x
           end;
    cbn [fst snd]; repeat split; auto.
Qed.

Lemma cropper_run_unloaded es : forall s,
  Cropper.imgRef s = None -> Cropper.imgLoaded s = false ->
  Forall cropper_not_load es ->
  Cropper.imgLoaded (fst (Cropper.run s es)) = false /\
  Forall (fun o => o = onCancel) (snd (Cropper.run s es)).
Proof.
  induction es as [|e es IH]; intros s Hi Hl Hes.
  - simpl. split; [assumption | constructor].
  - rewrite CropperFacts.run_cons. cbn [fst snd]. inversion Hes; subst.
    destruct (cropper_step_unloaded s e Hi Hl) as (Hi' & Hl' & Ho); [assumption |].
    destruct (IH _ Hi' Hl') as [Hl'' Ho']; [assumption |].
    split; [assumption |]. apply Forall_app. split; assumption.
Qed.

Lemma ratio_step_unloaded ar s e :
  RatioCropper.imgRef s = None -> RatioCropper.imgLoaded s = false ->
  ratio_not_load e ->
  RatioCropper.imgRef (fst (RatioCropper.step ar s e)) = None /\
  RatioCropper.imgLoaded (fst (RatioCropper.step ar s e)) = false /\
  Forall (fun o => o = onCancel) (snd (RatioCropper.step ar s e)).
Proof.
  intros Hi Hl He.
  destruct e; cbn [RatioCropper.step]; try contradiction;
    unfold RatioCropper.calcDims, RatioCropper.handlePointerDown,
      RatioCropper.handlePointerMove, RatioCropper.handleCrop;
    cbn [RatioCropper.resize_container RatioCropper.imgRef]; rewrite ?Hi;
    repeat match goal with
           | |- context [match ?x with _ => _ end] => destruct x
           end;
    cbn [fst snd]; repeat split; auto.
Qed.

Lemma ratio_run_unloaded ar es : forall s,
  RatioCropper.imgRef s = None -> RatioCropper.imgLoaded s = false ->
  Forall ratio_not_load es ->
  RatioCropper.imgLoaded (fst (RatioCropper.run ar s es)) = false /\
  Forall (fun o => o = onCancel) (snd (RatioCropper.run ar s es)).
Proof.
  induction es as [|e es IH]; intros s Hi Hl Hes.
  - simpl. split; [assumption | constructor].
  - rewrite RatioFacts.ratio_run_cons. cbn [fst snd]. inversion Hes; subst.
    destruct (ratio_step_unloaded ar s e Hi Hl) as (Hi' & Hl' & Ho); [assumption |].
    destruct (IH _ Hi' Hl') as [Hl'' Ho']; [assumption |].
    split; [assumption |]. apply Forall_app. split; assumption.
Qed.

(** C7.  As long as [onload] does not fire (the decoding error itself is
    an event without a handler), after any events the flag [imgLoaded] is
    still false and the container shows the spinner; the caller hears
    nothing but the cancellations the user asks for: no picture and no
    error.  Both croppers behave so. *)
Theorem failed_load_keeps_spinner :
  forall (aspectRatio : Q) (c : option Container) (canvas : bool)
         (es : list Cropper.Event) (es' : list RatioCropper.Event),
    Forall cropper_not_load es -> Forall ratio_not_load es' ->
    (let r := Cropper.run (Cropper.initial c canvas) es in
     Cropper.imgLoaded (fst r) = false /\
     Cropper.view (fst r) = ShowsSpinner /\
     Forall (fun o => o = onCancel) (snd r)) /\
    (let r := RatioCropper.run aspectRatio (RatioCropper.initial c canvas) es' in
     RatioCropper.imgLoaded (fst r) = false /\
     RatioCropper.view (fst r) = ShowsSpinner /\
     Forall (fun o => o = onCancel) (snd r)).
Proof.
  intros ar c canvas es es' Hes Hes'. split; cbv zeta.
  - destruct (cropper_run_unloaded es (Cropper.initial c canvas)) as [Hl Ho];
      try reflexivity; try assumption.
    unfold Cropper.view. rewrite Hl. repeat split. assumption.
  - destruct (ratio_run_unloaded ar es' (RatioCropper.initial c canvas))
      as [Hl Ho]; try reflexivity; try assumption.
    unfold RatioCropper.view. rewrite Hl. repeat split. assumption.
Qed.

(** C7, for a decoding error followed by presses, a resize and clicks. *)
Lemma failed_load_keeps_spinner_witness :
  let c := Some {| left := 0; top := 0; clientWidth := 400; clientHeight := 400 |} in
  let es := [Cropper.ImgError; Cropper.PointerDown 100 100;
             Cropper.PointerMove 150 120; Cropper.WindowResize 300 400;
             Cropper.ClickApply; Cropper.Timeout] in
  let es' := [RatioCropper.ImgError; RatioCropper.PointerDown 100 100;
              RatioCropper.PointerMove 150 120; RatioCropper.ClickApply] in
  (Forall cropper_not_load es /\ Forall ratio_not_load es') /\
  Cropper.view (fst (Cropper.run (Cropper.initial c true) es)) = ShowsSpinner /\
  snd (Cropper.run (Cropper.initial c true) es) = [].
Proof.
  intros c es es'.
  assert (H1 : Forall cropper_not_load es) by (repeat constructor).
  assert (H2 : Forall ratio_not_load es') by (repeat constructor).
  split; [tauto |]. split.
  - exact (proj1 (proj2 (proj1
      (failed_load_keeps_spinner 1 c true es es' H1 H2)))).
  - reflexivity.
Defined.

End Loading.

(** * The unread counters *)

Section UnreadFacts.
Import Backend Unread.
Local Open Scope Z_scope.

(** What each counter looks at, as (author, instant) pairs: the direct
    messages addressed to the user, the messages of others in the user's
    groups, and the notifications. *)
Definition direct_items (db : Tables) (uid : string) : list (string * Z) :=
  map (fun m => (sender_id m, msg_created_at m))
    (filter (fun m => receiver_id m = uid) (messages db)).

Definition group_items (db : Tables) (uid : string) : list (string * Z) :=
  let groupIds := map gm_group_id
                    (filter (fun m => gm_user_id m = uid) (group_members db)) in
  map (fun g => (gmsg_user_id g, gmsg_created_at g))
    (filter (fun g => gmsg_group_id g ∈ groupIds /\ gmsg_user_id g <> uid)
       (group_messages db)).

Definition notification_items (db : Tables) (posts : list Post) (uid : string)
    : list (string * Z) :=
  map (fun n => (from_user n, notif_created_at n)) (allNotifs db posts uid).

Definition hour : Z := 60 * 60 * 1000.

(** Three things sent by "ann" to "me", 1, 36 and 48 hours before [now],
    each both as a direct message (unread) and as a message in a common
    group; "me" opened the notifications 40 hours before [now]. *)
Definition example_now : Z := 1000 * hour.

Definition example_db : Tables :=
  let at_ (h : Z) := example_now - h * hour in
  {| messages :=
       [ {| msg_id := "3"; sender_id := "ann"; receiver_id := "me";
            content := "c"; image_url := ""; is_read := false;
            msg_created_at := at_ 1 |};
         {| msg_id := "2"; sender_id := "ann"; receiver_id := "me";
            content := "b"; image_url := ""; is_read := false;
            msg_created_at := at_ 36 |};
         {| msg_id := "1"; sender_id := "ann"; receiver_id := "me";
            content := "a"; image_url := ""; is_read := false;
            msg_created_at := at_ 48 |} ];
     group_members :=
       [ {| gm_group_id := "g"; gm_user_id := "me" |};
         {| gm_group_id := "g"; gm_user_id := "ann" |} ];
     group_messages :=
       [ {| gmsg_id := "6"; gmsg_group_id := "g"; gmsg_user_id := "ann";
            gmsg_created_at := at_ 1 |};
         {| gmsg_id := "5"; gmsg_group_id := "g"; gmsg_user_id := "ann";
            gmsg_created_at := at_ 36 |};
         {| gmsg_id := "4"; gmsg_group_id := "g"; gmsg_user_id := "ann";
            gmsg_created_at := at_ 48 |} ];
     likes := [];
     followers := [] |}.

Definition example_storage : gmap string Z :=
  {[ "notif_last_seen_me" := example_now - 40 * hour ]}.

(** C8.  The three counters are pairwise inequivalent: there is a state
    in which they look at the same items (same authors, same instants, no
    direct message marked as read) and report 3 (read flag), 1 (24-hour
    window) and 2 (last-seen timestamp). *)
Theorem unread_counters_disagree :
  exists (db : Tables) (uid : string) (now : Z) (storage : gmap string Z),
    direct_items db uid = group_items db uid /\
    group_items db uid = notification_items db [] uid /\
    Forall (fun m => is_read m = false) (messages db) /\
    fetchUnreadMessages db (Some uid) = Some 3%nat /\
    fetchUnreadGroups db (Some uid) now = Some 1%nat /\
    fetchNotifications db [] uid None storage = 2%nat /\
    fetchUnreadMessages db (Some uid) <> fetchUnreadGroups db (Some uid) now /\
    fetchUnreadGroups db (Some uid) now <>
      Some (fetchNotifications db [] uid None storage) /\
    fetchUnreadMessages db (Some uid) <>
      Some (fetchNotifications db [] uid None storage).
Proof.
  exists example_db, "me", example_now, example_storage.
  assert (H1 : fetchUnreadMessages example_db (Some "me") = Some 3%nat)
    by (vm_compute; reflexivity).
  assert (H2 : fetchUnreadGroups example_db (Some "me") example_now = Some 1%nat)
    by (vm_compute; reflexivity).
  assert (H3 : fetchNotifications example_db [] "me" None example_storage = 2%nat)
    by (vm_compute; reflexivity).
  split; [vm_compute; reflexivity |].
  split; [vm_compute; reflexivity |].
  split; [repeat constructor |].
  rewrite H1, H2, H3. repeat split; discriminate.
Qed.

End UnreadFacts.

(** * Deleting a conversation *)

Section MessagesFacts.
Import Backend Messages.
Local Open Scope Z_scope.

(** The key of the table of deleted conversations in local storage. *)
Definition deleted_key (currentUser : string) : string :=
  "deleted_convos_" +:+ currentUser.

(** C9.  Deleting a conversation changes no row of the backend: it stores
    the current instant under the other user's id in the table kept in
    local storage (and in the page), leaves every other entry of local
    storage alone, and drops that user from the displayed contacts. *)
Theorem delete_conversation_is_local :
  forall (currentUser : string) (now : Z) (w : World),
    let w' := handleDeleteConversation currentUser now w in
    db w' = db w /\
    messages (db w') = messages (db w) /\
    (forall u, longPressUser (page w) = Some u ->
       localStorage w' =
         <[deleted_key currentUser :=
             StoredConvos (<[user_id u := now]> (deletedConvos (page w)))]>
           (localStorage w) /\
       deletedConvos (page w') = <[user_id u := now]> (deletedConvos (page w)) /\
       contacts (page w') =
         filter (fun c => user_id c <> user_id u) (contacts (page w)) /\
       (forall k, k <> deleted_key currentUser ->
          localStorage w' !! k = localStorage w !! k)) /\
    (longPressUser (page w) = None -> w' = w).
Proof.
  intros currentUser now w. cbv zeta. unfold handleDeleteConversation.
  destruct (longPressUser (page w)) as [u|] eqn:E.
  - cbn [db localStorage page saveDeletedConvos contacts deletedConvos].
    split; [reflexivity |]. split; [reflexivity |]. split; [| discriminate].
    intros u' Hu. injection Hu as <-. unfold deleted_key.
    repeat split.
    intros k Hk. now rewrite lookup_insert_ne.
  - split; [reflexivity |]. split; [reflexivity |]. split; [discriminate |].
    reflexivity.
Qed.

(** A page with two contacts, after a long press on "ann". *)
Definition example_world : World :=
  let ann := {| user_id := "ann"; username := "ann"; display_name := "Ann";
                lastMessage := "c"; lastTime := Some 5; unread := 1%nat |} in
  let bob := {| user_id := "bob"; username := "bob"; display_name := "Bob";
                lastMessage := ""; lastTime := None; unread := 0%nat |} in
  {| db := {| messages :=
                [ {| msg_id := "1"; sender_id := "ann"; receiver_id := "me";
                     content := "c"; image_url := ""; is_read := false;
                     msg_created_at := 5 |} ];
              group_members := []; group_messages := [];
              likes := []; followers := [] |};
     localStorage := {[ "sosmedku_user_id" := StoredText "me" ]};
     page := {| contacts := [ann; bob]; selectedUser := None; shown := [];
                longPressUser := Some ann; showDeletePopup := true;
                deleting := false; deletedConvos := ∅ |} |}.

(** C9, on [example_world]. *)
Lemma delete_conversation_is_local_witness :
  (exists u, longPressUser (page example_world) = Some u /\
             user_id u = "ann") /\
  messages (db (handleDeleteConversation "me" 7 example_world)) =
    messages (db example_world) /\
  map user_id (contacts (page (handleDeleteConversation "me" 7 example_world)))
    = ["bob"] /\
  localStorage (handleDeleteConversation "me" 7 example_world)
    !! "sosmedku_user_id" = Some (StoredText "me").
Proof.
  destruct (delete_conversation_is_local "me" 7 example_world)
    as (_ & Hm & Hu & _).
  split; [eexists; split; reflexivity |].
  split; [exact Hm |].
  destruct (Hu _ eq_refl) as (_ & _ & Hc & Hk).
  split.
  - rewrite Hc. reflexivity.
  - rewrite Hk; [reflexivity | discriminate].
Defined.

(** By contrast, opening a conversation writes to the backend: the
    messages of the other user are marked as read. *)
Example fetchMessages_marks_read :
  let w := {| db := db example_world;
              localStorage := localStorage example_world;
              page := {| contacts := contacts (page example_world);
                         selectedUser := Some "ann"; shown := [];
                         longPressUser := None; showDeletePopup := false;
                         deleting := false; deletedConvos := ∅ |} |} in
  map is_read (messages (db w)) = [false] /\
  map is_read (messages (db (fetchMessages "me" w))) = [true].
Proof. split; vm_compute; reflexivity. Qed.

End MessagesFacts.

(** * More on the layout and the handles of the croppers *)

Section LayoutFacts.
Import Js Dom.
Local Open Scope Q_scope.

(** X2.  The first region is centred in the displayed picture and takes 80% of
    the side that limits it: its width is 80% of the displayed width or
    its height 80% of the displayed height, and neither is more. *)
Theorem initialCrop_centred_80 :
  forall (aspectRatio : Q) (d : ImgDims),
    0 < aspectRatio -> RatioFacts.dims_ok d ->
    let c := RatioCropper.initialCrop aspectRatio d in
    RatioCropper.crop_x c - offsetX d ==
      offsetX d + dispW d - (RatioCropper.crop_x c + RatioCropper.crop_w c) /\
    RatioCropper.crop_y c - offsetY d ==
      offsetY d + dispH d - (RatioCropper.crop_y c + RatioCropper.crop_h c) /\
    RatioCropper.crop_w c <= 0.8 * dispW d /\
    RatioCropper.crop_h c <= 0.8 * dispH d /\
    (RatioCropper.crop_w c == 0.8 * dispW d \/
     RatioCropper.crop_h c == 0.8 * dispH d).
Proof.
  intros ar d Har [HW HH]. cbv zeta. unfold RatioCropper.initialCrop.
  pose proof (div_mul (dispW d) (dispH d) HH) as Hr.
  pose proof (div_mul (dispW d * 0.8) ar Har) as Hq.
  pose proof (div_mul (dispW d) ar Har) as Hq'.
  set (r := dispW d / dispH d) in *. clearbody r.
  set (q := dispW d * 0.8 / ar) in *. clearbody q.
  set (q' := dispW d / ar) in *. clearbody q'.
  js_split; cbn [RatioCropper.crop_x RatioCropper.crop_y RatioCropper.crop_w
                 RatioCropper.crop_h]; qnorm; repeat split; nra.
Qed.

Lemma initialCrop_centred_80_witness :
  let d := {| img_w := 800; img_h := 600; dispW := 400; dispH := 300;
              offsetX := 0; offsetY := 50 |} in
  (0 < 4 # 5 /\ RatioFacts.dims_ok d) /\
  RatioCropper.crop_h (RatioCropper.initialCrop (4 # 5) d) <= 0.8 * dispH d.
Proof.
  intros d.
  assert (H1 : 0 < 4 # 5) by reflexivity.
  assert (H2 : RatioFacts.dims_ok d) by (split; reflexivity).
  split; [tauto |].
  exact (proj1 (proj2 (proj2 (proj2 (initialCrop_centred_80 (4 # 5) d H1 H2))))).
Defined.

(** The width a handle asks for before any clamp: the width recorded at
    the press plus or minus the horizontal displacement for the handles
    that set the width, and the height they ask for times the ratio for
    the top and bottom handles. *)
Definition asked_width (ar : Q) (cs : RatioCropper.CropArea)
    (mode : RatioCropper.DragMode) (dx dy : Q) : Q :=
  match mode with
  | RatioCropper.resize_br | RatioCropper.resize_tr | RatioCropper.resize_r =>
      RatioCropper.crop_w cs + dx
  | RatioCropper.resize_bl | RatioCropper.resize_tl | RatioCropper.resize_l =>
      RatioCropper.crop_w cs - dx
  | RatioCropper.resize_b => (RatioCropper.crop_h cs + dy) * ar
  | RatioCropper.resize_t => (RatioCropper.crop_h cs - dy) * ar
  | RatioCropper.move => RatioCropper.crop_w cs
  end.

Lemma clampW_at_minimum a m :
  a <= RatioCropper.MIN_CROP_SIZE ->
  RatioCropper.clampW a m == RatioCropper.MIN_CROP_SIZE.
Proof.
  unfold RatioCropper.clampW, RatioCropper.MIN_CROP_SIZE. intros Ha.
  js_split; lra.
Qed.

Lemma clampH_at_minimum ar a m :
  0 < ar -> a * ar <= RatioCropper.MIN_CROP_SIZE ->
  RatioCropper.clampH ar a m == RatioCropper.MIN_CROP_SIZE / ar.
Proof.
  unfold RatioCropper.clampH, RatioCropper.MIN_CROP_SIZE. intros Har Ha.
  pose proof (div_mul 60 ar Har) as Hm.
  set (q := 60 / ar) in *. clearbody q.
  js_split; nra.
Qed.

(** X3.  Whatever the handle, shrinking a region of at least 60 pixels to 60
    pixels or less stops at a width of [MIN_CROP_SIZE] and a height of
    [MIN_CROP_SIZE / aspectRatio]. *)
Theorem resize_stops_at_minimum :
  forall (ar : Q) (d : ImgDims) (cs : RatioCropper.CropArea)
         (mode : RatioCropper.DragMode) (dx dy : Q),
    0 < ar -> RatioFacts.dims_ok d -> RatioFacts.good ar d cs ->
    RatioCropper.MIN_CROP_SIZE <= RatioCropper.crop_w cs ->
    mode <> RatioCropper.move ->
    asked_width ar cs mode dx dy <= RatioCropper.MIN_CROP_SIZE ->
    let c := RatioCropper.resize ar d cs mode dx dy in
    RatioCropper.crop_w c == RatioCropper.MIN_CROP_SIZE /\
    RatioCropper.crop_h c == RatioCropper.MIN_CROP_SIZE / ar.
Proof.
  intros ar d cs mode dx dy Har [HW HH] [Hw Hh Hr (H1 & H2 & H3 & H4)]
    Hmin Hmode Hask. cbv zeta.
  pose proof (div_mul 60 ar Har) as Hm.
  destruct mode; try congruence; clear Hmode;
    unfold asked_width in Hask;
    unfold RatioCropper.resize, RatioCropper.resizeCase; cbv zeta;
    match goal with
    | |- context [RatioCropper.clampW ?a ?m] =>
        pose proof (clampW_at_minimum a m Hask) as HW60;
        set (W := RatioCropper.clampW a m) in *; clearbody W;
        pose proof (div_mul W ar Har) as HWr;
        set (H := W / ar) in *; clearbody H
    | |- context [RatioCropper.clampH ?r ?a ?m] =>
        pose proof (clampH_at_minimum r a m Har Hask) as HH60;
        set (H := RatioCropper.clampH r a m) in *; clearbody H
    end;
    unfold RatioCropper.MIN_CROP_SIZE in *;
    set (q := 60 / ar) in *; clearbody q;
    unfold RatioCropper.fitInside;
    cbn [RatioCropper.crop_x RatioCropper.crop_y RatioCropper.crop_w
         RatioCropper.crop_h];
    repeat (progress (js_split;
                      cbn [RatioCropper.crop_x RatioCropper.crop_y
                           RatioCropper.crop_w RatioCropper.crop_h] in * ));
    qnorm; split; nra.
Qed.

Lemma resize_stops_at_minimum_witness :
  let d := {| img_w := 800; img_h := 600; dispW := 400; dispH := 300;
              offsetX := 0; offsetY := 50 |} in
  let cs := {| RatioCropper.crop_x := 80; RatioCropper.crop_y := 100;
               RatioCropper.crop_w := 160; RatioCropper.crop_h := 200 |} in
  (0 < 4 # 5 /\ RatioFacts.dims_ok d /\ RatioFacts.good (4 # 5) d cs /\
   RatioCropper.MIN_CROP_SIZE <= RatioCropper.crop_w cs /\
   RatioCropper.resize_t <> RatioCropper.move /\
   asked_width (4 # 5) cs RatioCropper.resize_t 0 170
     <= RatioCropper.MIN_CROP_SIZE) /\
  RatioCropper.crop_h
    (RatioCropper.resize (4 # 5) d cs RatioCropper.resize_t 0 170)
  == RatioCropper.MIN_CROP_SIZE / (4 # 5).
Proof.
  intros d cs.
  assert (H1 : 0 < 4 # 5) by reflexivity.
  assert (H2 : RatioFacts.dims_ok d) by (split; reflexivity).
  assert (H3 : RatioFacts.good (4 # 5) d cs).
  { split; [reflexivity | reflexivity | reflexivity |].
    repeat split; vm_compute; discriminate. }
  assert (H4 : RatioCropper.MIN_CROP_SIZE <= RatioCropper.crop_w cs)
    by (vm_compute; discriminate).
  assert (H5 : RatioCropper.resize_t <> RatioCropper.move) by discriminate.
  assert (H6 : asked_width (4 # 5) cs RatioCropper.resize_t 0 170
                 <= RatioCropper.MIN_CROP_SIZE) by (vm_compute; discriminate).
  split; [tauto |].
  exact (proj2 (resize_stops_at_minimum (4 # 5) d cs RatioCropper.resize_t
                  0 170 H1 H2 H3 H4 H5 H6)).
Defined.

End LayoutFacts.

Section HandleFacts.
Import Js Dom.
Local Open Scope Q_scope.

(** The corner that a corner handle leaves in place: the opposite one. *)
Definition opposite_corner (mode : RatioCropper.DragMode)
    (c : RatioCropper.CropArea) : Q * Q :=
  let x := RatioCropper.crop_x c in
  let y := RatioCropper.crop_y c in
  let w := RatioCropper.crop_w c in
  let h := RatioCropper.crop_h c in
  match mode with
  | RatioCropper.resize_br => (x, y)
  | RatioCropper.resize_bl => (x + w, y)
  | RatioCropper.resize_tr => (x, y + h)
  | RatioCropper.resize_tl => (x + w, y + h)
  | _ => (x, y)
  end.

Definition corner_handle (mode : RatioCropper.DragMode) : Prop :=
  mode = RatioCropper.resize_br \/ mode = RatioCropper.resize_bl \/
  mode = RatioCropper.resize_tr \/ mode = RatioCropper.resize_tl.

(** X4.  A corner handle leaves the opposite corner of the region where it
    was at the press, however far the pointer goes, for a region of at
    least 60 pixels in width. *)
Theorem corner_resize_keeps_opposite_corner :
  forall (ar : Q) (d : ImgDims) (cs : RatioCropper.CropArea)
         (mode : RatioCropper.DragMode) (dx dy : Q),
    0 < ar -> RatioFacts.dims_ok d -> RatioFacts.good ar d cs ->
    RatioCropper.MIN_CROP_SIZE <= RatioCropper.crop_w cs ->
    corner_handle mode ->
    let c := RatioCropper.resize ar d cs mode dx dy in
    fst (opposite_corner mode c) == fst (opposite_corner mode cs) /\
    snd (opposite_corner mode c) == snd (opposite_corner mode cs).
Proof.
  intros ar d cs mode dx dy Har [HW HH] [Hw Hh Hr (H1 & H2 & H3 & H4)]
    Hmin Hmode. cbv zeta.
  unfold RatioCropper.MIN_CROP_SIZE in *.
  destruct Hmode as [-> | [-> | [-> | ->]]];
    unfold RatioCropper.resize, RatioCropper.resizeCase,
      RatioCropper.getMaxCropSize, opposite_corner; cbv zeta;
    match goal with
    | |- context [RatioCropper.clampW ?a _] =>
        generalize a; intros asked
    end;
    repeat match goal with
    | |- context [gt 1 0] => change (gt 1 0) with true
    | |- context [gt (-1) 0] => change (gt (-1) 0) with false
    end; cbv beta iota.
  all: match goal with
       | |- context [gt (?a / ?b) ?k] =>
           assert (Hb : 0 < b) by lra;
           pose proof (div_mul a b Hb) as Hab;
           set (r := a / b) in *; clearbody r
       end.
  all: destruct (gt_spec r ar) as [[E Hgt]|[E Hgt]]; rewrite E; clear E;
       cbn [fst snd].
  all: unfold RatioCropper.clampW, RatioCropper.MIN_CROP_SIZE.
  all: match goal with
       | |- context [Math_max 60 (Math_min ?a ?m)] =>
           assert (Hm60 : 60 <= m) by (qnorm; nra);
           assert (HWl : 60 <= Math_max 60 (Math_min a m))
             by (js_split; lra);
           assert (HWu : Math_max 60 (Math_min a m) <= m)
             by (js_split; lra);
           set (W := Math_max 60 (Math_min a m)) in *; clearbody W
       end.
  all: pose proof (div_mul W ar Har) as HWr;
       set (H := W / ar) in *; clearbody H.
  all: unfold RatioCropper.fitInside;
       cbn [RatioCropper.crop_x RatioCropper.crop_y RatioCropper.crop_w
            RatioCropper.crop_h];
       repeat (progress (js_split;
                         cbn [RatioCropper.crop_x RatioCropper.crop_y
                              RatioCropper.crop_w RatioCropper.crop_h
                              fst snd] in * ));
       qnorm; split; nra.
Qed.

Lemma corner_resize_keeps_opposite_corner_witness :
  let d := {| img_w := 800; img_h := 600; dispW := 400; dispH := 300;
              offsetX := 0; offsetY := 50 |} in
  let cs := {| RatioCropper.crop_x := 80; RatioCropper.crop_y := 100;
               RatioCropper.crop_w := 160; RatioCropper.crop_h := 200 |} in
  (0 < 4 # 5 /\ RatioFacts.dims_ok d /\ RatioFacts.good (4 # 5) d cs /\
   RatioCropper.MIN_CROP_SIZE <= RatioCropper.crop_w cs /\
   corner_handle RatioCropper.resize_tl) /\
  (let c := RatioCropper.resize (4 # 5) d cs RatioCropper.resize_tl
              (- 700) 30 in
   RatioCropper.crop_x c + RatioCropper.crop_w c == 240).
Proof.
  intros d cs.
  assert (H1 : 0 < 4 # 5) by reflexivity.
  assert (H2 : RatioFacts.dims_ok d) by (split; reflexivity).
  assert (H3 : RatioFacts.good (4 # 5) d cs).
  { split; [reflexivity | reflexivity | reflexivity |].
    repeat split; vm_compute; discriminate. }
  assert (H4 : RatioCropper.MIN_CROP_SIZE <= RatioCropper.crop_w cs)
    by (vm_compute; discriminate).
  assert (H5 : corner_handle RatioCropper.resize_tl)
    by (right; right; right; reflexivity).
  split; [tauto |].
  pose proof (proj1 (corner_resize_keeps_opposite_corner (4 # 5) d cs
                       RatioCropper.resize_tl (- 700) 30 H1 H2 H3 H4 H5)) as H.
  cbv zeta. rewrite H. reflexivity.
Defined.

Lemma Math_abs_spec (a : Q) :
  (0 <= a /\ Math_abs a = a) \/ (a < 0 /\ Math_abs a = - a).
Proof.
  unfold Math_abs. destruct (Qle_bool 0 a) eqn:E.
  - left. split; [now apply Qle_bool_iff | reflexivity].
  - right. split; [now apply Qle_bool_false | reflexivity].
Qed.

(** Splits every [Math.abs] of the goal. *)
Ltac abs_split :=
  repeat match goal with
  | |- context [Math_abs ?a] =>
      let H := fresh "Habs" in
      let E := fresh "E" in
      destruct (Math_abs_spec a) as [[H E]|[H E]]; rewrite E; clear E
  end.

(** Decides every comparison of the goal. *)
Ltac cmp_split :=
  repeat match goal with
  | |- context [Qle_bool ?a ?b] =>
      let E := fresh "E" in
      destruct (Qle_bool a b) eqn:E;
      [apply Qle_bool_iff in E | apply Qle_bool_false in E];
      try (exfalso; lra)
  end.

Ltac detect :=
  unfold RatioCropper.detectMode, lt, ge, le;
  cbn [RatioCropper.crop_x RatioCropper.crop_y RatioCropper.crop_w
       RatioCropper.crop_h];
  qnorm; abs_split; cmp_split; cbn [negb andb]; try reflexivity.

(** X5.  Where the handles are.  For a region of at least 36 pixels in both
    directions: each corner gives its corner handle, the middle of each
    edge its edge handle, and every point at 18 pixels or more from all
    four edges moves the region. *)
Theorem detectMode_handles :
  forall (c : RatioCropper.CropArea) (px py : Q),
    36 <= RatioCropper.crop_w c -> 36 <= RatioCropper.crop_h c ->
    let x := RatioCropper.crop_x c in
    let y := RatioCropper.crop_y c in
    let w := RatioCropper.crop_w c in
    let h := RatioCropper.crop_h c in
    RatioCropper.detectMode c x y = Some RatioCropper.resize_tl /\
    RatioCropper.detectMode c (x + w) y = Some RatioCropper.resize_tr /\
    RatioCropper.detectMode c x (y + h) = Some RatioCropper.resize_bl /\
    RatioCropper.detectMode c (x + w) (y + h) = Some RatioCropper.resize_br /\
    RatioCropper.detectMode c (x + w / 2) y = Some RatioCropper.resize_t /\
    RatioCropper.detectMode c (x + w / 2) (y + h) = Some RatioCropper.resize_b /\
    RatioCropper.detectMode c x (y + h / 2) = Some RatioCropper.resize_l /\
    RatioCropper.detectMode c (x + w) (y + h / 2) = Some RatioCropper.resize_r /\
    (x + 18 <= px <= x + w - 18 -> y + 18 <= py <= y + h - 18 ->
     RatioCropper.detectMode c px py = Some RatioCropper.move).
Proof.
  intros c px py Hw Hh. cbv zeta.
  repeat split; try (intros [Hx1 Hx2] [Hy1 Hy2]); detect.
Qed.

Lemma detectMode_handles_witness :
  let c := {| RatioCropper.crop_x := 80; RatioCropper.crop_y := 100;
              RatioCropper.crop_w := 160; RatioCropper.crop_h := 200 |} in
  (36 <= RatioCropper.crop_w c /\ 36 <= RatioCropper.crop_h c /\
   80 + 18 <= 100 <= 80 + 160 - 18 /\ 100 + 18 <= 150 <= 100 + 200 - 18) /\
  RatioCropper.detectMode c 100 150 = Some RatioCropper.move.
Proof.
  intros c.
  assert (H1 : 36 <= RatioCropper.crop_w c) by (vm_compute; discriminate).
  assert (H2 : 36 <= RatioCropper.crop_h c) by (vm_compute; discriminate).
  assert (H3 : 80 + 18 <= 100 <= 80 + 160 - 18)
    by (split; vm_compute; discriminate).
  assert (H4 : 100 + 18 <= 150 <= 100 + 200 - 18)
    by (split; vm_compute; discriminate).
  split; [tauto |].
  exact (proj2 (proj2 (proj2 (proj2 (proj2 (proj2 (proj2 (proj2
    (detectMode_handles c 100 150 H1 H2)))))))) H3 H4).
Defined.

(** X6.  A press at more than 18 pixels from the region starts nothing: the
    state is unchanged. *)
Theorem far_press_is_ignored :
  forall (s : RatioCropper.State) (box : Container) (cx cy : Q),
    RatioCropper.containerRef s = Some box ->
    0 <= RatioCropper.crop_w (RatioCropper.cropArea s) ->
    0 <= RatioCropper.crop_h (RatioCropper.cropArea s) ->
    let c := RatioCropper.cropArea s in
    let px := cx - left box in
    let py := cy - top box in
    (px < RatioCropper.crop_x c - 18 \/
     RatioCropper.crop_x c + RatioCropper.crop_w c + 18 < px \/
     py < RatioCropper.crop_y c - 18 \/
     RatioCropper.crop_y c + RatioCropper.crop_h c + 18 < py) ->
    RatioCropper.handlePointerDown s cx cy = s.
Proof.
  intros s box cx cy Hb Hw Hh. cbv zeta. intros Hfar.
  unfold RatioCropper.handlePointerDown. rewrite Hb.
  set (px := cx - left box) in *. clearbody px.
  set (py := cy - top box) in *. clearbody py.
  assert (Hnone : RatioCropper.detectMode (RatioCropper.cropArea s) px py = None).
  { destruct (RatioCropper.cropArea s) as [x y w h].
    cbn [RatioCropper.crop_x RatioCropper.crop_y RatioCropper.crop_w
         RatioCropper.crop_h] in *.
    destruct Hfar as [H | [H | [H | H]]]; detect. }
  rewrite Hnone. reflexivity.
Qed.

Lemma far_press_is_ignored_witness :
  let box := {| left := 10; top := 20; clientWidth := 400; clientHeight := 400 |} in
  let s := RatioFacts.loaded 1 box true
             {| naturalWidth := 800; naturalHeight := 600 |} in
  (RatioCropper.containerRef s = Some box /\
   0 <= RatioCropper.crop_w (RatioCropper.cropArea s) /\
   0 <= RatioCropper.crop_h (RatioCropper.cropArea s) /\
   390 - left box < RatioCropper.crop_x (RatioCropper.cropArea s) - 18 + 400) /\
  RatioCropper.handlePointerDown s 390 200 = s.
Proof.
  intros box s.
  assert (H1 : RatioCropper.containerRef s = Some box) by reflexivity.
  assert (H2 : 0 <= RatioCropper.crop_w (RatioCropper.cropArea s))
    by (vm_compute; discriminate).
  assert (H3 : 0 <= RatioCropper.crop_h (RatioCropper.cropArea s))
    by (vm_compute; discriminate).
  assert (H4 : 390 - left box <
               RatioCropper.crop_x (RatioCropper.cropArea s) - 18 + 400)
    by (vm_compute; reflexivity).
  split; [tauto |].
  apply (far_press_is_ignored s box 390 200 H1 H2 H3).
  right. left. vm_compute. reflexivity.
Defined.

End HandleFacts.

(** * What the export reads and writes *)

Section SourceFacts.
Import Js Dom.
Local Open Scope Q_scope.

(** [Math.round] is within half a unit of its argument. *)
Lemma Math_round_near (a : Q) :
  a - (1 # 2) < inject_Z (Math_round a) /\ inject_Z (Math_round a) <= a + (1 # 2).
Proof.
  unfold Math_round.
  pose proof (Qfloor_le (a + (1 # 2))) as Hle.
  pose proof (Qlt_floor (a + (1 # 2))) as Hlt.
  rewrite inject_Z_plus in Hlt. change (inject_Z 1) with 1 in Hlt.
  split; lra.
Qed.

Lemma Math_round_integer (n : Z) : Math_round (inject_Z n) = n.
Proof.
  unfold Math_round.
  pose proof (Qfloor_le (inject_Z n + (1 # 2))) as Hle.
  pose proof (Qlt_floor (inject_Z n + (1 # 2))) as Hlt.
  set (k := Qfloor (inject_Z n + (1 # 2))) in *. clearbody k.
  assert (H1 : inject_Z k < inject_Z (n + 1)).
  { rewrite inject_Z_plus. change (inject_Z 1) with 1. lra. }
  assert (H2 : inject_Z n < inject_Z (k + 1)).
  { rewrite inject_Z_plus in Hlt |- *. change (inject_Z 1) with 1 in *. lra. }
  rewrite <- Zlt_Qlt in H1, H2. lia.
Qed.

(** X8.  The size of the exported canvas: never wider than 1080 pixels; the
    rounded width of the selection in the source when that is at most 1080;
    a height within half a pixel of [width / aspectRatio]; and a square
    for the ratio 1. *)
Theorem outputSize_rounds :
  forall (aspectRatio srcW : Q),
    0 < aspectRatio ->
    let '(outputW, outputH) := RatioCropper.outputSize aspectRatio srcW in
    (outputW <= 1080)%Z /\
    (srcW <= 1080 ->
     srcW - (1 # 2) < inject_Z outputW /\ inject_Z outputW <= srcW + (1 # 2)) /\
    inject_Z outputW / aspectRatio - (1 # 2) < inject_Z outputH /\
    inject_Z outputH <= inject_Z outputW / aspectRatio + (1 # 2) /\
    (aspectRatio == 1 -> outputH = outputW).
Proof.
  intros ar srcW Har. unfold RatioCropper.outputSize. cbv zeta.
  set (W := Z.min 1080 (Math_round srcW)).
  split; [apply Z.le_min_l |]. split; [| split; [| split]].
  - intros Hs. pose proof (Math_round_near srcW) as [Hlo Hhi].
    assert (HW : W = Math_round srcW).
    { unfold W. apply Z.min_r.
      assert (H : inject_Z (Math_round srcW) < inject_Z 1081).
      { change (inject_Z 1081) with 1081. lra. }
      rewrite <- Zlt_Qlt in H. lia. }
    rewrite HW. split; assumption.
  - apply Math_round_near.
  - apply Math_round_near.
  - intros H1.
    assert (E : inject_Z W / ar == inject_Z W) by (rewrite H1; field).
    unfold Math_round. rewrite E. apply Math_round_integer.
Qed.

Lemma outputSize_rounds_witness :
  (0 < 4 # 5 /\ 1000 + (1 # 3) <= 1080) /\
  fst (RatioCropper.outputSize (4 # 5) (1000 + (1 # 3))) = 1000%Z /\
  (fst (RatioCropper.outputSize (4 # 5) 5000) <= 1080)%Z.
Proof.
  assert (H1 : 0 < 4 # 5) by reflexivity.
  assert (H2 : 1000 + (1 # 3) <= 1080) by (vm_compute; discriminate).
  split; [tauto |]. split; [reflexivity |].
  pose proof (outputSize_rounds (4 # 5) 5000 H1) as H.
  destruct (RatioCropper.outputSize (4 # 5) 5000) as [w h].
  exact (proj1 H).
Defined.

End SourceFacts.

(** * Between two drags *)

Section IdleFacts.
Import Js Dom.
Local Open Scope Q_scope.

Lemma cropper_idle_moves ps : forall s,
  Cropper.dragging s = false ->
  Cropper.cropArea (fst (Cropper.run s (cropper_moves ps))) = Cropper.cropArea s.
Proof.
  induction ps as [|p ps IH]; intros s Hd.
  - reflexivity.
  - unfold cropper_moves. rewrite map_cons. fold (cropper_moves ps).
    rewrite CropperFacts.run_cons. cbn [fst Cropper.step].
    assert (E : Cropper.handlePointerMove s (fst p) (snd p) = s)
      by (unfold Cropper.handlePointerMove; rewrite Hd; reflexivity).
    rewrite E. now apply IH.
Qed.

Lemma ratio_idle_moves ar ps : forall s,
  RatioCropper.dragMode s = None ->
  RatioCropper.cropArea (fst (RatioCropper.run ar s (ratio_moves ps)))
  = RatioCropper.cropArea s.
Proof.
  induction ps as [|p ps IH]; intros s Hd.
  - reflexivity.
  - unfold ratio_moves. rewrite map_cons. fold (ratio_moves ps).
    rewrite RatioFacts.ratio_run_cons. cbn [fst RatioCropper.step].
    unfold RatioCropper.handlePointerMove.
    destruct (RatioCropper.containerRef s) as [box|]; [| now apply IH].
    rewrite Hd. rewrite IH; [reflexivity | exact Hd].
Qed.

(** X9.  A release ends the drag: whatever the state, once the pointer is
    released the region stays where it is under every later move of the
    pointer, in both croppers (the cropper with handles only changes the
    cursor). *)
Theorem release_ends_drag :
  forall (aspectRatio : Q) (s : Cropper.State) (r : RatioCropper.State)
         (ps : list (Q * Q)),
    Cropper.cropArea
      (fst (Cropper.run s (Cropper.PointerUp :: cropper_moves ps)))
    = Cropper.cropArea s /\
    RatioCropper.cropArea
      (fst (RatioCropper.run aspectRatio r
              (RatioCropper.PointerUp :: ratio_moves ps)))
    = RatioCropper.cropArea r.
Proof.
  intros ar s r ps. split.
  - rewrite CropperFacts.run_cons. cbn [fst Cropper.step].
    now rewrite cropper_idle_moves.
  - rewrite RatioFacts.ratio_run_cons. cbn [fst RatioCropper.step].
    now rewrite ratio_idle_moves.
Qed.

End IdleFacts.

(** * Elapsed time *)

Section TimeAgoFacts.
Import TimeAgo.
Local Open Scope Z_scope.

(** X10.  [timeAgo] prints the number of whole units elapsed, in the largest
    unit that has begun: nothing below one minute (also for a date in the
    future), 1 to 59 minutes, 1 to 23 hours, 1 to 6 days, then weeks. *)
Theorem ago_counts_whole_units :
  forall now date : Z,
    match ago now date with
    | just_now => now - date < 60000
    | minutes n =>
        1 <= n <= 59 /\ n * 60000 <= now - date < (n + 1) * 60000
    | hours n =>
        1 <= n <= 23 /\ n * 3600000 <= now - date < (n + 1) * 3600000
    | days n =>
        1 <= n <= 6 /\ n * 86400000 <= now - date < (n + 1) * 86400000
    | weeks n =>
        1 <= n /\ n * 604800000 <= now - date < (n + 1) * 604800000
    end.
Proof.
  intros now date. unfold ago. cbv zeta.
  set (t := now - date). clearbody t.
  assert (Hdiv : forall a b : Z, 0 < b -> b * (a / b) <= a < b * (a / b) + b).
  { intros a b Hb. pose proof (Z.div_mod a b). pose proof (Z.mod_pos_bound a b).
    lia. }
  pose proof (Hdiv t 1000 eq_refl) as Hd.
  set (diff := t / 1000) in *. clearbody diff.
  pose proof (Hdiv diff 60 eq_refl). pose proof (Hdiv diff 3600 eq_refl).
  pose proof (Hdiv diff 86400 eq_refl). pose proof (Hdiv diff 604800 eq_refl).
  repeat case_decide; lia.
Qed.

End TimeAgoFacts.

(** * The notification bell *)

Section BellFacts.
Import Backend Unread.
Local Open Scope Z_scope.

Lemma order_desc_length {A} (f : A -> Z) (l : list A) :
  length (order_desc f l) = length l.
Proof. unfold order_desc. apply Permutation_length, merge_sort_Permutation. Qed.

Lemma limit_length {A} (n : nat) (l : list A) : (length (limit n l) <= n)%nat.
Proof. unfold limit. rewrite length_take. lia. Qed.

Lemma allNotifs_length db posts uid : (length (allNotifs db posts uid) <= 150)%nat.
Proof.
  unfold allNotifs. rewrite order_desc_length, !length_app.
  assert (H1 : forall A B (g : A -> B) (l : list A),
            (length (map g (limit 50 l)) <= 50)%nat).
  { intros A B g l. rewrite length_map. apply limit_length. }
  pose proof (H1 _ _
    (fun f => {| notif_id := "follow-" +:+ follow_id f; notif_type := follow;
                 from_user := follower_id f;
                 notif_created_at := follow_created_at f |})
    (order_desc follow_created_at
       (filter (fun f => following_id f = uid) (followers db)))) as Hf.
  pose proof (H1 _ _
    (fun m => {| notif_id := "msg-" +:+ msg_id m; notif_type := message;
                 from_user := sender_id m;
                 notif_created_at := msg_created_at m |})
    (order_desc msg_created_at
       (filter (fun m => receiver_id m = uid) (messages db)))) as Hm.
  case_decide.
  - match goal with
    | |- context [length (map ?g (limit 50 ?l))] =>
        pose proof (H1 _ _ g l) as Hl
    end.
    cbv zeta in *. lia.
  - cbv zeta in *. simpl length at 1. lia.
Qed.

Lemma unreadCount_le notifs lastSeen :
  (unreadCount notifs lastSeen <= length notifs)%nat.
Proof.
  destruct lastSeen as [t|]; simpl; [apply length_filter | lia].
Qed.

(** X11.  The badge never shows more than 150 (50 likes, 50 followers, 50
    messages), whatever the tables hold; without a stored instant of last
    opening it counts every notification. *)
Theorem bell_count_at_most_150 :
  forall (db : Tables) (posts : list Post) (uid : string)
         (lastSeenRef : option Z) (storage : gmap string Z),
    (fetchNotifications db posts uid lastSeenRef storage <= 150)%nat /\
    (lastSeenRef = None -> storage !! ("notif_last_seen_" +:+ uid) = None ->
     fetchNotifications db posts uid lastSeenRef storage
     = length (allNotifs db posts uid)).
Proof.
  intros db posts uid ref storage. split.
  - unfold fetchNotifications.
    pose proof (unreadCount_le (allNotifs db posts uid)
                  (getLastSeen ref storage uid)).
    pose proof (allNotifs_length db posts uid). lia.
  - intros -> Hs. unfold fetchNotifications, getLastSeen. rewrite Hs.
    reflexivity.
Qed.

Lemma bell_count_at_most_150_witness :
  (@None Z = None /\
   (∅ : gmap string Z) !! ("notif_last_seen_" +:+ "me") = None) /\
  fetchNotifications example_db [] "me" None ∅ = 3%nat.
Proof.
  assert (H1 : @None Z = None) by reflexivity.
  assert (H2 : (∅ : gmap string Z) !! ("notif_last_seen_" +:+ "me") = None)
    by reflexivity.
  split; [tauto |].
  rewrite (proj2 (bell_count_at_most_150 example_db [] "me" None ∅) H1 H2).
  vm_compute. reflexivity.
Defined.

(** X12.  The later the bell was last opened, the fewer notifications count as
    unread; and never more than without any opening. *)
Theorem unreadCount_antitone :
  forall (notifs : list NotificationItem) (t1 t2 : Z),
    t1 <= t2 ->
    (unreadCount notifs (Some t2) <= unreadCount notifs (Some t1))%nat /\
    (unreadCount notifs (Some t1) <= unreadCount notifs None)%nat.
Proof.
  intros notifs t1 t2 Ht. split; [| apply unreadCount_le].
  unfold unreadCount. induction notifs as [|n notifs IH]; [reflexivity |].
  rewrite !filter_cons. repeat case_decide; simpl; lia.
Qed.

Lemma unreadCount_antitone_witness :
  (5 <= 7) /\
  (unreadCount (allNotifs example_db [] "me") (Some 7%Z)
   <= unreadCount (allNotifs example_db [] "me") (Some 5%Z))%nat.
Proof.
  assert (H : 5 <= 7) by lia.
  split; [exact H |].
  exact (proj1 (unreadCount_antitone (allNotifs example_db [] "me") 5 7 H)).
Defined.

(** X13.  Opening the bell stores the instant, sets the badge to 0, and from
    then on a refresh counts exactly the notifications that are more recent
    than the opening: none while nothing new arrives.  The same holds after
    a reload of the page, which starts from the stored instant.  Closing
    the bell changes nothing but its visibility. *)
Theorem opening_the_bell_clears_the_badge :
  forall (db : Tables) (posts : list Post) (uid : string) (now : Z)
         (s : Bell.State),
    (Bell.showNotifications s = false ->
     let s1 := Bell.handleOpenNotifications uid now s in
     let newer := filter (fun n => now < notif_created_at n)
                    (allNotifs db posts uid) in
     Bell.showNotifications s1 = true /\
     Bell.unreadCount s1 = 0%nat /\
     Bell.unreadCount (Bell.fetchNotifications db posts uid s1) = length newer /\
     Bell.unreadCount
       (Bell.fetchNotifications db posts uid
          (Bell.initial (Bell.localStorage s1))) = length newer /\
     (Forall (fun n => notif_created_at n <= now) (allNotifs db posts uid) ->
      Bell.unreadCount (Bell.fetchNotifications db posts uid s1) = 0%nat)) /\
    (Bell.showNotifications s = true ->
     let s1 := Bell.handleOpenNotifications uid now s in
     Bell.showNotifications s1 = false /\
     Bell.unreadCount s1 = Bell.unreadCount s /\
     Bell.lastSeenRef s1 = Bell.lastSeenRef s /\
     Bell.localStorage s1 = Bell.localStorage s).
Proof.
  intros db posts uid now s. split; intros Hshow; cbv zeta;
    unfold Bell.handleOpenNotifications; rewrite Hshow; cbn [negb].
  - split; [reflexivity |]. split; [reflexivity |].
    assert (E1 : Bell.unreadCount
                   (Bell.fetchNotifications db posts uid
                      {| Bell.showNotifications := true; Bell.unreadCount := 0;
                         Bell.lastSeenRef := Some now;
                         Bell.localStorage :=
                           <["notif_last_seen_" +:+ uid := now]>
                             (Bell.localStorage s) |})
                 = length (filter (fun n => now < notif_created_at n)
                             (allNotifs db posts uid))) by reflexivity.
    split; [exact E1 |]. split.
    + unfold Bell.fetchNotifications, Bell.initial, fetchNotifications,
        getLastSeen.
      cbn [Bell.unreadCount Bell.lastSeenRef Bell.localStorage].
      rewrite lookup_insert_eq. reflexivity.
    + rewrite E1. generalize (allNotifs db posts uid). intros l Hall.
      induction Hall as [|n l Hn Hall IH]; [reflexivity |].
      rewrite filter_cons. case_decide; [lia | exact IH].
  - repeat split.
Qed.

Lemma opening_the_bell_clears_the_badge_witness :
  let s := Bell.initial example_storage in
  (Bell.showNotifications s = false /\
   Forall (fun n => notif_created_at n <= example_now)
     (allNotifs example_db [] "me")) /\
  Bell.unreadCount (Bell.fetchNotifications example_db [] "me" s) = 2%nat /\
  Bell.unreadCount
    (Bell.fetchNotifications example_db [] "me"
       (Bell.handleOpenNotifications "me" example_now s)) = 0%nat.
Proof.
  intros s.
  assert (H1 : Bell.showNotifications s = false) by reflexivity.
  assert (H2 : Forall (fun n => notif_created_at n <= example_now)
                 (allNotifs example_db [] "me")).
  { apply (bool_decide_unpack _). vm_compute. exact I. }
  split; [tauto |]. split; [vm_compute; reflexivity |].
  exact (proj2 (proj2 (proj2 (proj2
    (proj1 (opening_the_bell_clears_the_badge example_db [] "me"
              example_now s) H1)))) H2).
Defined.


(** The same table with one more group message. *)
Definition with_group_message (db : Tables) (g : GroupMessage) : Tables :=
  {| messages := messages db; group_members := group_members db;
     group_messages := g :: group_messages db;
     likes := likes db; followers := followers db |}.

(** X14.  What a new group message does to the group badge: it adds one if the
    message is in a group of the user, from somebody else and less than 24
    hours old, and nothing otherwise; so the user's own messages and
    messages older than a day never count. *)
Theorem group_badge_counts_recent_messages_of_others :
  forall (db : Tables) (uid : string) (now : Z) (g : GroupMessage),
    let groupIds :=
      map gm_group_id (filter (fun m => gm_user_id m = uid) (group_members db)) in
    fetchUnreadGroups (with_group_message db g) (Some uid) now =
    (fun n => if decide (gmsg_group_id g ∈ groupIds /\ gmsg_user_id g <> uid /\
                         now - 24 * 60 * 60 * 1000 < gmsg_created_at g)
              then S n else n) <$> fetchUnreadGroups db (Some uid) now.
Proof.
  intros db uid now g. cbv zeta. unfold fetchUnreadGroups, with_group_message.
  cbn [group_members group_messages].
  destruct (filter (fun m => gm_user_id m = uid) (group_members db))
    as [|m0 ms] eqn:E.
  - cbn [length map]. destruct (decide (0%nat = 0%nat)) as [_|N]; [| congruence].
    cbn [fmap option_fmap option_map]. f_equal.
  - cbn [length].
    destruct (decide (S (length ms) = 0%nat)) as [N|_]; [discriminate |].
    cbn [fmap option_fmap option_map]. f_equal.
    rewrite filter_cons.
    repeat case_decide; try reflexivity; tauto.
Qed.

End BellFacts.

(** * Conversations of the messages page *)

Section ConversationFacts.
Import Backend Unread Messages Contacts.
Local Open Scope Z_scope.

Lemma order_asc_elem {A} (f : A -> Z) (l : list A) (x : A) :
  x ∈ order_asc f l <-> x ∈ l.
Proof. unfold order_asc. now rewrite merge_sort_Permutation. Qed.

Lemma order_desc_elem {A} (f : A -> Z) (l : list A) (x : A) :
  x ∈ order_desc f l <-> x ∈ l.
Proof. unfold order_desc. now rewrite merge_sort_Permutation. Qed.

Lemma order_asc_Sorted {A} (f : A -> Z) (l : list A) :
  Sorted (fun a b => f a <= f b) (order_asc f l).
Proof.
  assert (T : Total (fun a b : A => f a <= f b)) by (intros a b; lia).
  unfold order_asc. apply (Sorted_merge_sort (fun a b => f a <= f b)).
Qed.

Lemma filter_none {A} (P : A -> Prop) `{forall x, Decision (P x)} (l : list A) :
  (forall x, x ∈ l -> ~ P x) -> filter P l = [].
Proof.
  induction l as [|a l IH]; intros Hl; [reflexivity |].
  rewrite filter_cons. destruct (decide (P a)) as [Ha|_].
  - exfalso. exact (Hl a (list_elem_of_here a l) Ha).
  - apply IH. intros x Hx. apply Hl. now apply list_elem_of_further.
Qed.

Lemma since_elem (deletedAt : option Z) (rows : list Message) (m : Message) :
  m ∈ since deletedAt rows <->
  m ∈ rows /\ (forall t, deletedAt = Some t -> t < msg_created_at m).
Proof.
  destruct deletedAt as [t|]; simpl.
  - rewrite list_elem_of_filter. split.
    + intros [Ht Hm]. split; [exact Hm |]. intros t' [= <-]. exact Ht.
    + intros [Hm Ht]. split; [apply Ht; reflexivity | exact Hm].
  - split; [intros Hm; split; [exact Hm | discriminate] | tauto].
Qed.

(** What [fetchMessages] shows for the selected user, in terms of
    [since]. *)
Lemma fetchMessages_shown (currentUser other : string) (w : World) :
  selectedUser (page w) = Some other ->
  shown (page (fetchMessages currentUser w)) =
  order_asc msg_created_at
    (since (deletedConvos (page w) !! other)
       (filter (fun m => sender_id m = currentUser /\ receiver_id m = other)
          (messages (db w))) ++
     since (deletedConvos (page w) !! other)
       (filter (fun m => sender_id m = other /\ receiver_id m = currentUser)
          (messages (db w)))).
Proof.
  intros Hsel. unfold fetchMessages. rewrite Hsel. reflexivity.
Qed.

(** X15.  Opening a conversation shows exactly the messages exchanged by the two
    users, sent after the instant at which the conversation was deleted if
    it was, the oldest first. *)
Theorem open_conversation_shows_exchange :
  forall (currentUser other : string) (w : World),
    selectedUser (page w) = Some other ->
    let w' := fetchMessages currentUser w in
    (forall m,
       m ∈ shown (page w') <->
       m ∈ messages (db w) /\
       ((sender_id m = currentUser /\ receiver_id m = other) \/
        (sender_id m = other /\ receiver_id m = currentUser)) /\
       (forall t, deletedConvos (page w) !! other = Some t ->
                  t < msg_created_at m)) /\
    Sorted (fun a b => msg_created_at a <= msg_created_at b) (shown (page w')).
Proof.
  intros currentUser other w Hsel. cbv zeta.
  rewrite (fetchMessages_shown currentUser other w Hsel). split.
  - intros m. rewrite order_asc_elem, elem_of_app, !since_elem,
      !list_elem_of_filter. tauto.
  - apply order_asc_Sorted.
Qed.

(** A world with a conversation between "me" and "ann", opened after it
    was deleted at instant 6. *)
Definition example_chat : World :=
  let msg (i : string) (from to : string) (t : Z) :=
    {| msg_id := i; sender_id := from; receiver_id := to; content := i;
       image_url := ""; is_read := false; msg_created_at := t |} in
  {| db := {| messages := [ msg "4" "ann" "me" 9; msg "1" "ann" "me" 5;
                            msg "3" "me" "ann" 8; msg "2" "bob" "me" 7 ];
              group_members := []; group_messages := [];
              likes := []; followers := [] |};
     localStorage := ∅;
     page := {| contacts := []; selectedUser := Some "ann"; shown := [];
                longPressUser := None; showDeletePopup := false;
                deleting := false; deletedConvos := {[ "ann" := 6 ]} |} |}.

Lemma open_conversation_shows_exchange_witness :
  selectedUser (page example_chat) = Some "ann" /\
  map msg_id (shown (page (fetchMessages "me" example_chat))) = ["3"; "4"] /\
  Sorted (fun a b => msg_created_at a <= msg_created_at b)
    (shown (page (fetchMessages "me" example_chat))).
Proof.
  assert (H : selectedUser (page example_chat) = Some "ann") by reflexivity.
  split; [exact H |]. split; [vm_compute; reflexivity |].
  exact (proj2 (open_conversation_shows_exchange "me" "ann" example_chat H)).
Defined.

Lemma mark_read_map (currentUser other : string) (l : list Message) :
  let f := fun m =>
    if decide (sender_id m = other /\ receiver_id m = currentUser /\
               is_read m = false)
    then mark_read m else m in
  length (filter (fun m => receiver_id m = currentUser /\ is_read m = false)
            (map f l)) =
  length (filter (fun m => receiver_id m = currentUser /\ is_read m = false /\
                           sender_id m <> other) l) /\
  map f (map f l) = map f l /\
  (forall m, m ∈ l ->
     ~ (sender_id m = other /\ receiver_id m = currentUser) -> m ∈ map f l) /\
  map (fun m => (msg_id m, sender_id m, receiver_id m, content m,
                 image_url m, msg_created_at m)) (map f l) =
  map (fun m => (msg_id m, sender_id m, receiver_id m, content m,
                 image_url m, msg_created_at m)) l.
Proof.
  cbv zeta. induction l as [|m l (IH1 & IH2 & IH3 & IH4)].
  - repeat split. intros m Hm. now apply elem_of_nil in Hm.
  - cbn [map]. repeat split.
    + rewrite !filter_cons.
      destruct (decide (sender_id m = other /\ receiver_id m = currentUser /\
                        is_read m = false)) as [(H1 & H2 & H3)|N].
      * rewrite decide_False by (cbn; intros [_ ?]; discriminate).
        rewrite decide_False by tauto. exact IH1.
      * destruct (decide (receiver_id m = currentUser /\ is_read m = false))
          as [[H2 H3]|N2].
        -- rewrite decide_True by tauto. cbn [length]. now rewrite IH1.
        -- rewrite decide_False by tauto. exact IH1.
    + rewrite IH2. f_equal.
      destruct (decide (sender_id m = other /\ receiver_id m = currentUser /\
                        is_read m = false)) as [H|N].
      * rewrite decide_False by (cbn; intros (_ & _ & ?); discriminate).
        reflexivity.
      * rewrite decide_False by exact N. reflexivity.
    + intros m' Hm' Hn. apply elem_of_cons in Hm' as [-> | Hm'].
      * rewrite decide_False by tauto. apply list_elem_of_here.
      * apply list_elem_of_further. now apply IH3.
    + rewrite IH4. f_equal. case_decide; reflexivity.
Qed.

(** X16.  Opening a conversation marks as read what the selected user sent to
    the current user, and nothing else: afterwards the badge of [App]
    counts the unread messages of the other senders only, every other
    row is as before, no row is added or removed, and opening it again
    changes nothing more in the backend. *)
Theorem open_conversation_marks_read :
  forall (currentUser other : string) (w : World),
    selectedUser (page w) = Some other ->
    let w' := fetchMessages currentUser w in
    fetchUnreadMessages (db w') (Some currentUser) =
      Some (length (filter (fun m => receiver_id m = currentUser /\
                                     is_read m = false /\
                                     sender_id m <> other)
                      (messages (db w)))) /\
    (forall m, m ∈ messages (db w) ->
       ~ (sender_id m = other /\ receiver_id m = currentUser) ->
       m ∈ messages (db w')) /\
    map (fun m => (msg_id m, sender_id m, receiver_id m, content m,
                   image_url m, msg_created_at m)) (messages (db w')) =
    map (fun m => (msg_id m, sender_id m, receiver_id m, content m,
                   image_url m, msg_created_at m)) (messages (db w)) /\
    db (fetchMessages currentUser w') = db w' /\
    localStorage w' = localStorage w.
Proof.
  intros currentUser other w Hsel. cbv zeta.
  destruct (mark_read_map currentUser other (messages (db w)))
    as (H1 & H2 & H3 & H4).
  unfold fetchMessages. rewrite Hsel.
  cbn [db page selectedUser messages localStorage group_members
       group_messages likes followers fetchUnreadMessages].
  cbn [db messages]. rewrite H1, H2.
  repeat split; assumption.
Qed.

Lemma open_conversation_marks_read_witness :
  selectedUser (page example_chat) = Some "ann" /\
  fetchUnreadMessages (db example_chat) (Some "me") = Some 3%nat /\
  fetchUnreadMessages (db (fetchMessages "me" example_chat)) (Some "me")
  = Some 1%nat.
Proof.
  assert (H : selectedUser (page example_chat) = Some "ann") by reflexivity.
  split; [exact H |]. split; [vm_compute; reflexivity |].
  rewrite (proj1 (open_conversation_marks_read "me" "ann" example_chat H)).
  vm_compute. reflexivity.
Defined.

(** X17.  After a conversation is deleted, opening it again shows only what was
    sent after the deletion: nothing when no message is more recent.  What
    the other conversations show is not affected. *)
Theorem deleted_messages_are_not_shown_again :
  forall (currentUser : string) (now : Z) (w : World) (u : ConvoUser),
    longPressUser (page w) = Some u ->
    let w1 := handleDeleteConversation currentUser now w in
    let w2 := fetchMessages currentUser (select w1 (user_id u)) in
    (forall m, m ∈ shown (page w2) -> now < msg_created_at m) /\
    ((forall m, m ∈ messages (db w) -> msg_created_at m <= now) ->
     shown (page w2) = []) /\
    (forall other, other <> user_id u ->
       shown (page (fetchMessages currentUser (select w1 other))) =
       shown (page (fetchMessages currentUser (select w other)))).
Proof.
  intros currentUser now w u Hu. cbv zeta.
  assert (Hd : forall other,
             deletedConvos (page (select
               (handleDeleteConversation currentUser now w) other))
             = <[user_id u := now]> (deletedConvos (page w))).
  { intros other. unfold handleDeleteConversation. rewrite Hu. reflexivity. }
  assert (Hm : forall other,
             messages (db (select
               (handleDeleteConversation currentUser now w) other))
             = messages (db w)).
  { intros other. unfold handleDeleteConversation. rewrite Hu. reflexivity. }
  split; [| split].
  - intros m.
    rewrite (fetchMessages_shown currentUser (user_id u)
              (select (handleDeleteConversation currentUser now w) (user_id u))
              eq_refl).
    rewrite Hd, Hm, lookup_insert_eq, order_asc_elem, elem_of_app, !since_elem.
    intros [[_ H]|[_ H]]; now apply H.
  - intros Hall.
    rewrite (fetchMessages_shown currentUser (user_id u)
              (select (handleDeleteConversation currentUser now w) (user_id u))
              eq_refl).
    rewrite Hd, Hm, lookup_insert_eq. cbn [since].
    rewrite !filter_none; [reflexivity | |];
      intros m Hm'; apply list_elem_of_filter in Hm' as [_ Hm'];
      specialize (Hall m Hm'); lia.
  - intros other Hne.
    rewrite (fetchMessages_shown currentUser other
              (select (handleDeleteConversation currentUser now w) other)
              eq_refl).
    rewrite (fetchMessages_shown currentUser other (select w other) eq_refl).
    rewrite Hd, Hm, lookup_insert_ne by congruence. reflexivity.
Qed.

Lemma deleted_messages_are_not_shown_again_witness :
  (exists u, longPressUser (page example_world) = Some u /\
             user_id u = "ann") /\
  shown (page (fetchMessages "me"
                 (select (handleDeleteConversation "me" 7 example_world)
                    "ann"))) = [] /\
  map msg_id
    (shown (page (fetchMessages "me"
                    (select (handleDeleteConversation "me" 3 example_world)
                       "ann")))) = ["1"].
Proof.
  split; [eexists; split; reflexivity |]. split.
  - apply (proj1 (proj2 (deleted_messages_are_not_shown_again "me" 7
                           example_world _ eq_refl))).
    intros m Hm. apply list_elem_of_singleton in Hm as ->. vm_compute.
    discriminate.
  - vm_compute. reflexivity.
Defined.

End ConversationFacts.

(** * The list of contacts *)

Section ContactsFacts.
Import Backend Unread Messages Contacts.
Local Open Scope Z_scope.

(** The users that the current user follows. *)
Definition follows (db : Tables) (currentUser other : string) : Prop :=
  exists f, f ∈ followers db /\ follower_id f = currentUser /\
            following_id f = other.

(** The users that exchanged a message with the current user. *)
Definition partners (db : Tables) (currentUser other : string) : Prop :=
  exists m, m ∈ messages db /\
            ((sender_id m = currentUser /\ receiver_id m = other) \/
             (sender_id m = other /\ receiver_id m = currentUser)).

(** The order of the list: a contact without last message precedes only
    contacts without last message; otherwise the more recent precedes. *)
Definition before (a b : ConvoUser) : Prop :=
  match lastTime a, lastTime b with
  | _, None => True
  | None, Some _ => False
  | Some ta, Some tb => tb <= ta
  end.

Lemma precedes_before (a b : ConvoUser) : precedes a b = true <-> before a b.
Proof.
  unfold precedes, before.
  destruct (lastTime a), (lastTime b); try rewrite bool_decide_eq_true;
    intuition discriminate.
Qed.

Lemma fetchContacts_elem (JSON_parse : string -> Parsed) (currentUser : string)
    (users : list Session.User) (w : World) (l : list ConvoUser)
    (c : ConvoUser) :
  fetchContacts JSON_parse currentUser users w = Some l -> c ∈ l ->
  exists deleted u,
    read_deleted JSON_parse currentUser w = Some deleted /\
    u ∈ users /\ Session.id u <> currentUser /\
    (follows (db w) currentUser (Session.id u) \/
     partners (db w) currentUser (Session.id u)) /\
    c = contact_of currentUser (db w) deleted u /\
    keeps deleted
      (map following_id
         (filter (fun f => follower_id f = currentUser) (followers (db w))))
      c = true.
Proof.
  unfold fetchContacts. cbv zeta. case_decide as Hnil.
  { intros [= <-] Hc. now apply elem_of_nil in Hc. }
  intros Hl Hc.
  assert (Hl' :
    match filter (fun u => Session.id u ∈
                    filter (fun i => i <> currentUser)
                      (map following_id
                         (filter (fun f => follower_id f = currentUser)
                            (followers (db w))) ++
                       map sender_id
                         (filter (fun m => receiver_id m = currentUser)
                            (messages (db w))) ++
                       map receiver_id
                         (filter (fun m => sender_id m = currentUser)
                            (messages (db w))))) users with
    | [] => l = []
    | found =>
        exists deleted,
          read_deleted JSON_parse currentUser w = Some deleted /\
          l = @merge_sort ConvoUser (fun a b => precedes a b = true)
                (fun a b => decide (precedes a b = true))
                (List.filter
                   (keeps deleted
                      (map following_id
                         (filter (fun f => follower_id f = currentUser)
                            (followers (db w)))))
                   (map (contact_of currentUser (db w) deleted) found))
    end).
  { destruct (parse_deleted JSON_parse currentUser w); [discriminate | | |];
      (destruct (filter _ users) as [|u0 found];
       [now injection Hl |
        destruct (read_deleted JSON_parse currentUser w) as [deleted|];
        [injection Hl as <-; now exists deleted | discriminate]]). }
  clear Hl.
  destruct (filter _ users) as [|u0 found] eqn:Hfound.
  { subst l. now apply elem_of_nil in Hc. }
  destruct Hl' as (deleted & Hd & ->).
  rewrite merge_sort_Permutation in Hc.
  apply list_elem_of_In, filter_In in Hc as [Hc Hk].
  apply list_elem_of_In, list_elem_of_fmap in Hc as (u & -> & Hu).
  rewrite <- Hfound in Hu.
  apply list_elem_of_filter in Hu as [Hid Hu].
  apply list_elem_of_filter in Hid as [Hne Hid].
  exists deleted, u. repeat split; try assumption.
  rewrite !elem_of_app in Hid. destruct Hid as [Hid|[Hid|Hid]];
    apply list_elem_of_fmap in Hid as (x & Hx & Hin);
    apply list_elem_of_filter in Hin as [Hcu Hin].
  - left. exists x. auto.
  - right. exists x. split; [exact Hin |]. right. auto.
  - right. exists x. split; [exact Hin |]. left. auto.
Qed.

Lemma precedes_sorted (l : list ConvoUser) :
  StronglySorted before
    (@merge_sort ConvoUser (fun a b => precedes a b = true)
       (fun a b => decide (precedes a b = true)) l).
Proof.
  assert (T : Total (fun a b => precedes a b = true)).
  { intros a b. unfold precedes.
    destruct (lastTime a), (lastTime b); auto.
    rewrite !bool_decide_eq_true. lia. }
  assert (Tr : Transitive (fun a b => precedes a b = true)).
  { intros a b c. unfold precedes.
    destruct (lastTime a), (lastTime b), (lastTime c);
      rewrite ?bool_decide_eq_true; try discriminate; auto; lia. }
  pose proof (@StronglySorted_merge_sort ConvoUser
                (fun a b => precedes a b = true)
                (fun a b => decide (precedes a b = true)) Tr T l) as HS.
  revert HS. generalize (@merge_sort ConvoUser
    (fun a b => precedes a b = true)
    (fun a b => decide (precedes a b = true)) l).
  intros srt HS. induction HS as [|a l' HS IH Hall]; constructor;
    [exact IH |].
  eapply Forall_impl; [exact Hall |]. intros b. apply precedes_before.
Qed.

(** X18.  Every listed contact is another user of the table of users whom
    the current user follows or with whom a message was exchanged; the
    list is ordered by last message, the contacts without one at the end.
    This holds whatever the stored text of deleted conversations is and
    whatever [JSON.parse] makes of it.  A list is produced unless the
    stored text is a non-empty text on which [JSON.parse] throws or
    which it reads as [null]: in particular for a missing entry, for the
    empty text and for a number. *)
Theorem contacts_are_followed_or_partners :
  forall (JSON_parse : string -> Parsed) (currentUser : string)
         (users : list Session.User) (w : World),
    (forall l, fetchContacts JSON_parse currentUser users w = Some l ->
       (forall c, c ∈ l ->
          user_id c <> currentUser /\
          (exists u, u ∈ users /\ Session.id u = user_id c /\
                     Session.username u = username c /\
                     Session.display_name u = display_name c) /\
          (follows (db w) currentUser (user_id c) \/
           partners (db w) currentUser (user_id c))) /\
       StronglySorted before l) /\
    (fetchContacts JSON_parse currentUser users w = None ->
     exists text,
       localStorage w !! ("deleted_convos_" +:+ currentUser)
       = Some (StoredText text) /\
       text <> "" /\
       (JSON_parse text = SyntaxError \/ JSON_parse text = JsonNull)) /\
    (parse_deleted JSON_parse currentUser w <> SyntaxError ->
     parse_deleted JSON_parse currentUser w <> JsonNull ->
     exists l, fetchContacts JSON_parse currentUser users w = Some l).
Proof.
  intros JSON_parse currentUser users w. split; [| split].
  - intros l Hl. split.
    + intros c Hc.
      destruct (fetchContacts_elem _ _ _ _ _ _ Hl Hc)
        as (deleted & u & _ & Hu & Hne & Hfp & -> & _).
      cbn [contact_of user_id username display_name].
      split; [exact Hne |]. split; [| exact Hfp].
      exists u. repeat split. exact Hu.
    + revert Hl. unfold fetchContacts. cbv zeta. case_decide.
      { intros [= <-]. constructor. }
      destruct (parse_deleted JSON_parse currentUser w); [discriminate | | |];
        (destruct (filter _ users) as [|u0 found];
         [intros [= <-]; constructor |
          destruct (read_deleted JSON_parse currentUser w);
          [intros [= <-]; apply precedes_sorted | discriminate]]).
  - unfold fetchContacts, read_deleted, parse_deleted. cbv zeta.
    case_decide; [discriminate |].
    destruct (localStorage w !! ("deleted_convos_" +:+ currentUser))
      as [[text|convos]|].
    + case_decide as Ht.
      * destruct (filter _ users); discriminate.
      * intros Hn. exists text. split; [reflexivity |]. split; [exact Ht |].
        destruct (JSON_parse text); auto;
          destruct (filter _ users); discriminate.
    + destruct (filter _ users); discriminate.
    + destruct (filter _ users); discriminate.
  - intros H1 H2. unfold fetchContacts, read_deleted. cbv zeta.
    case_decide; [eauto |].
    destruct (parse_deleted JSON_parse currentUser w); try congruence;
      destruct (filter _ users); eauto.
Qed.

(** "me" follows "bob", exchanged messages with "ann" and "cat", and
    deleted the conversation with "cat" at instant 6. *)
Definition example_users : list Session.User :=
  [ {| Session.id := "ann"; Session.username := "ann";
       Session.display_name := "Ann" |};
    {| Session.id := "bob"; Session.username := "bob";
       Session.display_name := "Bob" |};
    {| Session.id := "cat"; Session.username := "cat";
       Session.display_name := "Cat" |};
    {| Session.id := "me"; Session.username := "me";
       Session.display_name := "Me" |} ].

Definition example_contacts (pressed : string) : World :=
  let msg (i : string) (from to : string) (t : Z) :=
    {| msg_id := i; sender_id := from; receiver_id := to; content := i;
       image_url := ""; is_read := false; msg_created_at := t |} in
  let contact (i : string) :=
    {| user_id := i; username := i; display_name := i;
       lastMessage := ""; lastTime := None; unread := 0%nat |} in
  {| db := {| messages := [ msg "4" "ann" "me" 9; msg "1" "ann" "me" 5;
                            msg "3" "me" "ann" 8; msg "2" "cat" "me" 4 ];
              group_members := []; group_messages := [];
              likes := [];
              followers := [ {| follow_id := "f"; follower_id := "me";
                                following_id := "bob";
                                follow_created_at := 1 |} ] |};
     localStorage := {[ "deleted_convos_me" := StoredConvos {[ "cat" := 6 ]} ]};
     page := {| contacts := [contact "ann"; contact "bob"];
                selectedUser := None; shown := [];
                longPressUser := Some (contact pressed);
                showDeletePopup := true;
                deleting := false; deletedConvos := {[ "cat" := 6 ]} |} |}.

(** A parser that knows the text of the number 5 and the text [null]. *)
Definition example_parse (text : string) : Parsed :=
  if decide (text = "5") then JsonOther
  else if decide (text = "null") then JsonNull
  else SyntaxError.

Definition with_stored (text : string) (w : World) : World :=
  {| db := db w;
     localStorage := <["deleted_convos_me" := StoredText text]> (localStorage w);
     page := page w |}.

Lemma contacts_are_followed_or_partners_witness :
  (exists l, fetchContacts example_parse "me" example_users
               (example_contacts "ann") = Some l /\
             map user_id l = ["ann"; "bob"] /\
             map unread l = [2%nat; 0%nat] /\
             StronglySorted before l) /\
  (map user_id <$>
     fetchContacts example_parse "me" example_users
       (with_stored "5" (example_contacts "ann")))
  = Some ["ann"; "cat"; "bob"] /\
  (map user_id <$>
     fetchContacts example_parse "me" example_users
       (with_stored "" (example_contacts "ann")))
  = Some ["ann"; "cat"; "bob"] /\
  fetchContacts example_parse "me" example_users
    (with_stored "null" (example_contacts "ann")) = None /\
  fetchContacts example_parse "me" example_users
    (with_stored "{" (example_contacts "ann")) = None.
Proof.
  split; [| repeat split; vm_compute; reflexivity].
  destruct (fetchContacts example_parse "me" example_users
              (example_contacts "ann")) as [l|] eqn:E;
    [| vm_compute in E; discriminate].
  exists l. split; [reflexivity |].
  pose proof (proj2 (proj1 (contacts_are_followed_or_partners example_parse
                              "me" example_users (example_contacts "ann"))
                       l E)) as HS.
  vm_compute in E. injection E as <-.
  split; [reflexivity |]. split; [reflexivity |]. exact HS.
Defined.

Lemma contact_of_deleted (currentUser : string) (db : Tables)
    (deleted : gmap string Z) (u : Session.User) (t : Z) :
  deleted !! Session.id u = Some t ->
  (forall m, m ∈ messages db -> msg_created_at m <= t) ->
  contact_of currentUser db deleted u =
  {| user_id := Session.id u; username := Session.username u;
     display_name := Session.display_name u;
     lastMessage := ""; lastTime := None; unread := 0%nat |}.
Proof.
  intros Hd Hall. unfold contact_of. cbv zeta. rewrite Hd. cbn [since].
  rewrite !filter_none; [reflexivity | | |];
    intros m Hm; apply list_elem_of_filter in Hm as [_ Hm];
    specialize (Hall m Hm); lia.
Qed.

(** X19.  After a conversation is deleted the list of contacts can always be
    computed: the table written by the deletion is read back.  If no
    message is more recent than the deletion, the contact is listed again
    only if the current user follows it, and then as a contact without
    any message. *)
Theorem deleted_conversation_stays_hidden :
  forall (JSON_parse : string -> Parsed) (currentUser : string) (now : Z)
         (users : list Session.User) (w : World) (u : ConvoUser),
    longPressUser (page w) = Some u ->
    let w1 := handleDeleteConversation currentUser now w in
    read_deleted JSON_parse currentUser w1
      = Some (<[user_id u := now]> (deletedConvos (page w))) /\
    (exists l, fetchContacts JSON_parse currentUser users w1 = Some l) /\
    ((forall m, m ∈ messages (db w) -> msg_created_at m <= now) ->
     forall l c,
       fetchContacts JSON_parse currentUser users w1 = Some l ->
       c ∈ l -> user_id c = user_id u ->
       follows (db w) currentUser (user_id u) /\
       lastTime c = None /\ lastMessage c = "" /\ unread c = 0%nat).
Proof.
  intros JSON_parse currentUser now users w u Hu. cbv zeta.
  assert (Hp : parse_deleted JSON_parse currentUser
                 (handleDeleteConversation currentUser now w)
               = JsonTable (<[user_id u := now]> (deletedConvos (page w)))).
  { unfold parse_deleted, handleDeleteConversation. rewrite Hu.
    cbn [localStorage saveDeletedConvos]. rewrite lookup_insert_eq.
    reflexivity. }
  assert (Hr : read_deleted JSON_parse currentUser
                 (handleDeleteConversation currentUser now w)
               = Some (<[user_id u := now]> (deletedConvos (page w)))).
  { unfold read_deleted. rewrite Hp. reflexivity. }
  assert (Hdb : db (handleDeleteConversation currentUser now w) = db w).
  { unfold handleDeleteConversation. rewrite Hu. reflexivity. }
  split; [exact Hr |]. split.
  - unfold fetchContacts. cbv zeta. case_decide; [eauto |].
    rewrite Hp, Hr. destruct (filter _ users); eauto.
  - intros Hall l c Hl Hc Hid.
    destruct (fetchContacts_elem _ _ _ _ _ _ Hl Hc)
      as (deleted & u' & Hd & _ & _ & _ & -> & Hk).
    rewrite Hr in Hd. injection Hd as <-. rewrite Hdb in *.
    cbn [contact_of user_id] in Hid.
    assert (Hlook : <[user_id u := now]> (deletedConvos (page w))
                      !! Session.id u' = Some now)
      by (rewrite Hid; apply lookup_insert_eq).
    rewrite (contact_of_deleted _ _ _ _ _ Hlook Hall) in *.
    unfold keeps in Hk. cbn [user_id lastTime] in Hk.
    rewrite Hlook in Hk. apply bool_decide_eq_true in Hk.
    apply list_elem_of_fmap in Hk as (f & Hf & Hin).
    apply list_elem_of_filter in Hin as [Hcu Hin].
    repeat split. exists f. rewrite <- Hid. auto.
Qed.

Lemma deleted_conversation_stays_hidden_witness :
  (exists u, longPressUser (page (example_contacts "bob")) = Some u /\
             user_id u = "bob") /\
  (forall m, m ∈ messages (db (example_contacts "bob")) ->
             msg_created_at m <= 9) /\
  (exists l c,
     fetchContacts example_parse "me" example_users
       (handleDeleteConversation "me" 9 (example_contacts "bob")) = Some l /\
     c ∈ l /\ user_id c = "bob" /\
     follows (db (example_contacts "bob")) "me" "bob" /\
     lastTime c = None /\ lastMessage c = "" /\ unread c = 0%nat) /\
  (exists l,
     fetchContacts example_parse "me" example_users
       (handleDeleteConversation "me" 9 (example_contacts "ann")) = Some l /\
     map user_id l = ["bob"]).
Proof.
  split; [eexists; split; reflexivity |].
  assert (Hall : forall m, m ∈ messages (db (example_contacts "bob")) ->
                           msg_created_at m <= 9).
  { apply Forall_forall. apply (bool_decide_unpack _). vm_compute. exact I. }
  split; [exact Hall |]. split.
  - destruct (deleted_conversation_stays_hidden example_parse "me" 9
                example_users
                (example_contacts "bob") _ eq_refl) as (_ & [l Hl] & H).
    assert (Hc : exists c, c ∈ l /\ user_id c = "bob").
    { vm_compute in Hl. injection Hl as <-. eexists. split.
      - apply list_elem_of_further, list_elem_of_here.
      - reflexivity. }
    destruct Hc as (c & Hc & Hid).
    exists l, c. split; [exact Hl |]. split; [exact Hc |].
    split; [exact Hid |]. exact (H Hall l c Hl Hc Hid).
  - eexists. split; [vm_compute; reflexivity |]. reflexivity.
Defined.

End ContactsFacts.

(** * The saved session *)

Section SessionFacts.
Import Session.
Local Open Scope Z_scope.

Lemma single_user_found (users : list User) (userId : string) (data : User) :
  single_user users userId = Some data -> data ∈ users /\ id data = userId.
Proof.
  unfold single_user.
  destruct (filter (fun u => id u = userId) users) as [|u [|u' l]] eqn:E;
    try discriminate.
  intros [= <-].
  assert (H : u ∈ filter (fun u => id u = userId) users)
    by (rewrite E; apply list_elem_of_here).
  apply list_elem_of_filter in H. tauto.
Qed.

(** X20.  A login survives a reload of the page when the table of users holds
    exactly one row with the user's id: the pages are shown for that row.
    Otherwise the reload shows the login page and forgets the saved id. *)
Theorem login_survives_reload :
  forall (users : list User) (user : User) (s : State),
    id user <> "" ->
    let s1 := handleLogin user s in
    let s2 := mount users (initial (localStorage s1)) in
    currentUser s1 = Some user /\
    localStorage s1 !! "sosmedku_user_id" = Some (id user) /\
    (forall data, single_user users (id user) = Some data ->
       currentUser s2 = Some data /\ id data = id user /\
       screen s2 = Pages /\
       localStorage s2 !! "sosmedku_user_id" = Some (id user)) /\
    (single_user users (id user) = None ->
       screen s2 = Login /\ localStorage s2 !! "sosmedku_user_id" = None).
Proof.
  intros users user s Hid. cbv zeta.
  unfold handleLogin, mount, initial, loadUser.
  cbn [localStorage currentUser]. rewrite lookup_insert_eq.
  rewrite decide_False by exact Hid.
  split; [reflexivity |]. split; [reflexivity |]. split.
  - intros data Hd. rewrite Hd. cbn [currentUser localStorage].
    destruct (single_user_found _ _ _ Hd) as [_ Hi].
    rewrite lookup_insert_eq. repeat split. exact Hi.
  - intros Hn. rewrite Hn. cbn [localStorage]. rewrite lookup_delete_eq.
    split; reflexivity.
Qed.

Definition example_accounts : list User :=
  [ {| id := "u1"; username := "ann"; display_name := "Ann" |};
    {| id := "u2"; username := "bob"; display_name := "Bob" |} ].

Lemma login_survives_reload_witness :
  let ann := {| id := "u1"; username := "ann"; display_name := "Ann" |} in
  let s2 := mount example_accounts
              (initial (localStorage (handleLogin ann (initial ∅)))) in
  id ann <> "" /\ single_user example_accounts (id ann) = Some ann /\
  currentUser s2 = Some ann /\ screen s2 = Pages.
Proof.
  intros ann s2.
  assert (H1 : id ann <> "") by discriminate.
  assert (H2 : single_user example_accounts (id ann) = Some ann)
    by reflexivity.
  split; [exact H1 |]. split; [exact H2 |].
  destruct (proj1 (proj2 (proj2
              (login_survives_reload example_accounts ann (initial ∅) H1)))
              ann H2) as (Hc & _ & Hs & _).
  split; [exact Hc | exact Hs].
Defined.

(** X21.  A logout forgets the user: the home page is selected, the saved id is
    removed and no other entry of local storage is touched, so a reload
    shows the login page, whatever the table of users holds. *)
Theorem logout_then_reload_shows_login :
  forall (users : list User) (s : State),
    let s1 := handleLogout s in
    let s2 := mount users (initial (localStorage s1)) in
    currentUser s1 = None /\ currentPage s1 = home /\ viewingUser s1 = None /\
    localStorage s1 !! "sosmedku_user_id" = None /\
    (forall k, k <> "sosmedku_user_id" ->
               localStorage s1 !! k = localStorage s !! k) /\
    screen s2 = Login /\ localStorage s2 = localStorage s1.
Proof.
  intros users s. cbv zeta. unfold handleLogout, mount, initial.
  cbn [localStorage currentUser currentPage viewingUser].
  rewrite lookup_delete_eq. repeat split.
  intros k Hk. now rewrite lookup_delete_ne.
Qed.

Lemma logout_then_reload_shows_login_witness :
  let ann := {| id := "u1"; username := "ann"; display_name := "Ann" |} in
  let s := handleLogin ann (initial {[ "theme" := "dark" ]}) in
  "theme" <> "sosmedku_user_id" /\
  localStorage (handleLogout s) !! "theme" = Some "dark" /\
  screen (mount example_accounts (initial (localStorage (handleLogout s))))
  = Login.
Proof.
  intros ann s.
  assert (H : "theme" <> "sosmedku_user_id") by discriminate.
  destruct (logout_then_reload_shows_login example_accounts s)
    as (_ & _ & _ & _ & Hk & Hs & _).
  split; [exact H |]. split; [| exact Hs].
  rewrite (Hk "theme" H). reflexivity.
Defined.

(** X22.  After the effect run at mount the spinner is gone, and a saved id
    that is still in local storage is the id of the current user: an id
    without its row in the table of users is removed. *)
Theorem mount_keeps_no_stale_id :
  forall (users : list User) (storage : gmap string string) (uid : string),
    let s := mount users (initial storage) in
    uid <> "" ->
    localStorage s !! "sosmedku_user_id" = Some uid ->
    screen s = Pages /\
    exists data, currentUser s = Some data /\ id data = uid /\ data ∈ users.
Proof.
  intros users storage uid. cbv zeta. unfold mount, initial, loadUser.
  cbn [localStorage currentUser].
  destruct (storage !! "sosmedku_user_id") as [saved|] eqn:E.
  - case_decide as Hs.
    + cbn [localStorage]. rewrite E. intros Hne [= <-]. contradiction.
    + destruct (single_user users saved) as [data|] eqn:Hd.
      * cbn [localStorage currentUser]. rewrite E. intros _ [= <-].
        split; [reflexivity |]. exists data.
        destruct (single_user_found _ _ _ Hd). auto.
      * cbn [localStorage]. rewrite lookup_delete_eq. discriminate.
  - cbn [localStorage]. rewrite E. discriminate.
Qed.

Lemma mount_keeps_no_stale_id_witness :
  let s := mount example_accounts (initial {[ "sosmedku_user_id" := "u2" ]}) in
  ("u2" <> "" /\ localStorage s !! "sosmedku_user_id" = Some "u2") /\
  screen s = Pages /\
  localStorage (mount example_accounts
                  (initial {[ "sosmedku_user_id" := "u9" ]}))
    !! "sosmedku_user_id" = None.
Proof.
  intros s.
  assert (H1 : "u2" <> "") by discriminate.
  assert (H2 : localStorage s !! "sosmedku_user_id" = Some "u2")
    by reflexivity.
  split; [split; [exact H1 | exact H2] |].
  split; [| reflexivity].
  exact (proj1 (mount_keeps_no_stale_id example_accounts
                  {[ "sosmedku_user_id" := "u2" ]} "u2" H1 H2)).
Defined.

End SessionFacts.

(** * Likes *)

Section FeedFacts.
Import Backend Feed.
Local Open Scope Z_scope.

Lemma find_existsb {A} (f : A -> bool) (l : list A) :
  existsb f l = match List.find f l with Some _ => true | None => false end.
Proof.
  induction l as [|a l IH]; [reflexivity |]. simpl.
  destruct (f a); [reflexivity | exact IH].
Qed.

(** The post that [fetchPosts] builds from a row. *)
Definition view_of (s : State) (post : PostRow) : PostView :=
  {| view_post := post;
     view_likes := filter (fun l => like_post_id l = row_id post) (likes_table s);
     view_comments :=
       order_asc comment_created_at
         (filter (fun c => comment_post_id c = row_id post) (comments_table s)) |}.

Lemma find_view (s : State) (postId : string) (rows : list PostRow) :
  List.find (fun p => bool_decide (row_id (view_post p) = postId))
    (map (view_of s) rows) =
  view_of s <$> List.find (fun r => bool_decide (row_id r = postId)) rows.
Proof.
  induction rows as [|r rows IH]; [reflexivity |]. simpl.
  destruct (bool_decide (row_id r = postId)); [reflexivity | exact IH].
Qed.

Lemma find_row_id (postId : string) (rows : list PostRow) (r : PostRow) :
  List.find (fun r => bool_decide (row_id r = postId)) rows = Some r ->
  row_id r = postId.
Proof.
  intros H. apply find_some in H as [_ H]. now apply bool_decide_eq_true in H.
Qed.

Lemma unlike_filter (postId uid : string) (likes : list Like) :
  filter (fun l => like_post_id l = postId)
    (filter (fun l => ~ (like_post_id l = postId /\ like_user_id l = uid))
       likes) =
  filter (fun l => like_user_id l <> uid)
    (filter (fun l => like_post_id l = postId) likes).
Proof.
  induction likes as [|l likes IH]; [reflexivity |].
  rewrite !filter_cons.
  destruct (decide (like_post_id l = postId)) as [Hp|Hp];
    destruct (decide (like_user_id l = uid)) as [Hu|Hu].
  - rewrite decide_False by tauto. rewrite filter_cons.
    rewrite decide_False by tauto. exact IH.
  - rewrite decide_True by tauto. rewrite !filter_cons.
    rewrite decide_True by tauto. rewrite decide_True by tauto.
    now rewrite IH.
  - rewrite decide_True by tauto. rewrite filter_cons.
    rewrite decide_False by tauto. exact IH.
  - rewrite decide_True by tauto. rewrite filter_cons.
    rewrite decide_False by tauto. exact IH.
Qed.

Lemma other_post_filter (postId uid rid : string) (likes : list Like) :
  rid <> postId ->
  filter (fun l => like_post_id l = rid)
    (filter (fun l => ~ (like_post_id l = postId /\ like_user_id l = uid))
       likes) =
  filter (fun l => like_post_id l = rid) likes.
Proof.
  intros Hne. rewrite list_filter_filter. apply list_filter_iff.
  intros l. split; [tauto |]. intros H. split; [exact H |].
  intros [H' _]. congruence.
Qed.

Lemma existsb_filter_other (uid : string) (likes : list Like) :
  existsb (fun l => bool_decide (like_user_id l = uid))
    (filter (fun l => like_user_id l <> uid) likes) = false.
Proof.
  induction likes as [|l likes IH]; [reflexivity |].
  rewrite filter_cons. case_decide as H; [| exact IH].
  simpl. rewrite bool_decide_eq_false_2 by exact H. exact IH.
Qed.

(** X23.  While the displayed posts are those of the tables, a click on the
    heart of a displayed post toggles the like of the current user on that
    post: it adds one like of the user if there was none and removes the
    user's likes otherwise.  The likes of other users and of other posts
    stay, and the displayed posts are again those of the tables. *)
Theorem like_toggles :
  forall (uid newId : string) (now : Z) (postId : string) (s : State)
         (p : PostView),
    posts s = load_posts s ->
    find_post s postId = Some p ->
    let s' := handleLike (Some uid) newId now postId s in
    posts s' = load_posts s' /\
    posts_table s' = posts_table s /\
    comments_table s' = comments_table s /\
    (exists p',
       find_post s' postId = Some p' /\
       view_post p' = view_post p /\
       view_comments p' = view_comments p /\
       isLiked uid p' = negb (isLiked uid p) /\
       view_likes p' =
         if isLiked uid p
         then filter (fun l => like_user_id l <> uid) (view_likes p)
         else view_likes p ++
              [{| like_id := newId; like_post_id := postId;
                  like_user_id := uid; like_created_at := now |}]) /\
    (forall q, q ∈ posts s -> row_id (view_post q) <> postId -> q ∈ posts s').
Proof.
  intros uid newId now postId s p Hsync Hfind. cbv zeta.
  unfold handleLike. rewrite Hfind.
  unfold find_post in Hfind. rewrite Hsync in Hfind.
  change (load_posts s) with
    (map (view_of s) (order_desc row_created_at (posts_table s))) in Hfind.
  rewrite find_view in Hfind.
  destruct (List.find (fun r => bool_decide (row_id r = postId))
              (order_desc row_created_at (posts_table s))) as [r|] eqn:Hr;
    [| discriminate].
  injection Hfind as <-. pose proof (find_row_id _ _ _ Hr) as Hid.
  unfold isLiked. rewrite find_existsb.
  cbn [view_of view_likes view_post view_comments]. rewrite Hid.
  destruct (List.find (fun l => bool_decide (like_user_id l = uid))
              (filter (fun l => like_post_id l = postId) (likes_table s)))
    as [existing|] eqn:Hl.
  - set (s1 := {| posts_table := posts_table s;
                  likes_table :=
                    filter (fun l => ~ (like_post_id l = postId /\
                                        like_user_id l = uid))
                      (likes_table s);
                  comments_table := comments_table s; posts := posts s |}).
    split; [reflexivity |]. split; [reflexivity |]. split; [reflexivity |].
    split.
    + exists (view_of s1 r). split.
      * unfold find_post, fetchPosts. cbn [posts].
        change (load_posts s1) with
          (map (view_of s1) (order_desc row_created_at (posts_table s))).
        rewrite find_view, Hr. reflexivity.
      * cbn [view_of view_post view_likes view_comments s1 likes_table
             comments_table]. rewrite Hid, unlike_filter.
        rewrite find_existsb.
        pose proof (existsb_filter_other uid
                      (filter (fun l => like_post_id l = postId)
                         (likes_table s))) as He.
        rewrite find_existsb in He.
        destruct (List.find _ (filter (fun l => like_user_id l <> uid) _));
          [discriminate |].
        repeat split.
    + intros q Hq Hne. rewrite Hsync in Hq.
      apply list_elem_of_fmap in Hq as (row & -> & Hrow).
      cbn [view_post] in Hne.
      unfold fetchPosts. cbn [posts].
      apply list_elem_of_fmap. exists row. split; [| exact Hrow].
      cbn [posts_table likes_table comments_table s1].
      f_equal. symmetry. now apply other_post_filter.
  - set (new := {| like_id := newId; like_post_id := postId;
                   like_user_id := uid; like_created_at := now |}).
    set (s1 := {| posts_table := posts_table s;
                  likes_table := likes_table s ++ [new];
                  comments_table := comments_table s; posts := posts s |}).
    split; [reflexivity |]. split; [reflexivity |]. split; [reflexivity |].
    split.
    + exists (view_of s1 r). split.
      * unfold find_post, fetchPosts. cbn [posts].
        change (load_posts s1) with
          (map (view_of s1) (order_desc row_created_at (posts_table s))).
        rewrite find_view, Hr. reflexivity.
      * cbn [view_of view_post view_likes view_comments s1 likes_table
             comments_table]. rewrite Hid, filter_app.
        assert (E : filter (fun l => like_post_id l = postId) [new] = [new]).
        { rewrite filter_cons. rewrite decide_True by reflexivity.
          reflexivity. }
        rewrite E. repeat split.
        rewrite find_existsb in *.
        rewrite <- find_existsb, existsb_app. simpl.
        rewrite bool_decide_eq_true_2 by reflexivity.
        now rewrite orb_true_r.
    + intros q Hq Hne. rewrite Hsync in Hq.
      apply list_elem_of_fmap in Hq as (row & -> & Hrow).
      cbn [view_post] in Hne.
      unfold fetchPosts. cbn [posts].
      apply list_elem_of_fmap. exists row. split; [| exact Hrow].
      cbn [posts_table likes_table comments_table s1].
      f_equal. rewrite filter_app, filter_cons.
      rewrite decide_False by (cbn; congruence).
      now rewrite app_nil_r.
Qed.

(** Two posts, the first liked by "bob". *)
Definition example_feed : State :=
  fetchPosts
    {| posts_table :=
         [ {| row_id := "p1"; row_user_id := "ann"; row_content := "a";
              row_created_at := 1 |};
           {| row_id := "p2"; row_user_id := "bob"; row_content := "b";
              row_created_at := 2 |} ];
       likes_table :=
         [ {| like_id := "l1"; like_post_id := "p1"; like_user_id := "bob";
              like_created_at := 3 |} ];
       comments_table := []; posts := [] |}.

Lemma like_toggles_witness :
  (posts example_feed = load_posts example_feed /\
   exists p, find_post example_feed "p1" = Some p) /\
  map like_user_id (likes_table (handleLike (Some "me") "l2" 4 "p1" example_feed))
  = ["bob"; "me"] /\
  likes_table (handleLike (Some "me") "l3" 5 "p1"
                 (handleLike (Some "me") "l2" 4 "p1" example_feed))
  = likes_table example_feed /\
  exists p', find_post (handleLike (Some "me") "l2" 4 "p1" example_feed) "p1"
             = Some p' /\ isLiked "me" p' = true.
Proof.
  assert (H1 : posts example_feed = load_posts example_feed) by reflexivity.
  destruct (find_post example_feed "p1") as [p|] eqn:H2;
    [| vm_compute in H2; discriminate].
  split; [split; [exact H1 | now exists p] |].
  split; [vm_compute; reflexivity |]. split; [vm_compute; reflexivity |].
  destruct (like_toggles "me" "l2" 4 "p1" example_feed p H1 H2)
    as (_ & _ & _ & (p' & Hp' & _ & _ & Hl & _) & _).
  exists p'. split; [exact Hp' |]. rewrite Hl.
  vm_compute in H2. injection H2 as <-. reflexivity.
Defined.

End FeedFacts.

(** * The picture viewer *)

Section LightboxFacts.
Import Js Lightbox.
Local Open Scope Q_scope.

(** The zoom factor is between 1 and 5; at factor 1 the picture is at its
    place. *)
Definition zoom_ok (s : State) : Prop :=
  1 <= scale s /\ scale s <= 5 /\ (scale s == 1 -> position s = (0, 0)).

Lemma zoom_in_ok (s : State) (d : Q) :
  0 < d -> zoom_ok s -> zoom_ok (set_scale s (Math_min (scale s + d) 5)).
Proof.
  intros Hd (H1 & H5 & _). unfold zoom_ok, set_scale. cbn [scale position].
  destruct (Math_min_spec (scale s + d) 5) as [[H ->]|[H ->]];
    repeat split; try lra; intros E; exfalso; lra.
Qed.

Lemma zoom_out_ok (s : State) (d : Q) :
  0 < d -> zoom_ok s -> zoom_ok (zoom_out_to s (Math_max (scale s - d) 1)).
Proof.
  intros Hd (H1 & H5 & _). unfold zoom_ok, zoom_out_to. cbn [scale position].
  destruct (Math_max_spec (scale s - d) 1) as [[H ->]|[H ->]].
  - split; [lra |]. split; [lra |]. intros _. reflexivity.
  - split; [lra |]. split; [lra |]. intros E. exfalso. lra.
Qed.

Lemma lightbox_step_ok (s : State) (e : Event) : zoom_ok s -> zoom_ok (step s e).
Proof.
  intros Hs. pose proof Hs as (H1 & H5 & H0).
  destruct e as [| | | |x y|x y| |t|t| |dy|]; cbn [step].
  - apply zoom_in_ok; [lra | exact Hs].
  - apply zoom_out_ok; [lra | exact Hs].
  - unfold zoom_ok, handleReset; cbn [scale position].
    repeat split; lra.
  - unfold handleDoubleClick.
    destruct (gt_spec (scale s) 1) as [[-> H]|[-> H]].
    + unfold zoom_ok, handleReset; cbn [scale position]. repeat split; lra.
    + unfold zoom_ok, set_scale; cbn [scale position].
      repeat split; lra.
  - unfold handleMouseDown. destruct (le (scale s) 1); exact Hs.
  - unfold handleMouseMove.
    destruct (negb (isDragging s)); [exact Hs |]. cbn [orb].
    destruct (le (scale s) 1) eqn:E; [exact Hs |].
    unfold zoom_ok; cbn [scale position]. repeat split; try assumption.
    intros E1. exfalso.
    assert (scale s <= 1) by lra. apply le_true in H. congruence.
  - exact Hs.
  - unfold handleTouchStart. destruct t as [|touch [|]]; try exact Hs.
    unfold handleMouseDown. destruct (le (scale s) 1); exact Hs.
  - unfold handleTouchMove. destruct t as [|touch [|]]; try exact Hs.
    unfold handleMouseMove.
    destruct (negb (isDragging s)); [exact Hs |]. cbn [orb].
    destruct (le (scale s) 1) eqn:E; [exact Hs |].
    unfold zoom_ok; cbn [scale position]. repeat split; try assumption.
    intros E1. exfalso.
    assert (scale s <= 1) by lra. apply le_true in H. congruence.
  - exact Hs.
  - unfold handleWheel. destruct (lt dy 0).
    + apply zoom_in_ok; [lra | exact Hs].
    + apply zoom_out_ok; [lra | exact Hs].
  - exact Hs.
Qed.

(** X24.  Whatever the user does, the zoom factor stays between 1 and 5, and a
    picture back at factor 1 is back at its place, however it was
    panned; so a click on the backdrop closes the viewer only when the
    picture is at its place and not being dragged. *)
Theorem lightbox_zoom_stays_in_range :
  forall es : list Event,
    let s := run initial es in
    1 <= scale s /\ scale s <= 5 /\
    (scale s == 1 -> position s = (0, 0)) /\
    (handleBackdropClick s = true ->
     position s = (0, 0) /\ isDragging s = false).
Proof.
  intros es. cbv zeta.
  assert (H : zoom_ok (run initial es)).
  { unfold run.
    assert (H0 : zoom_ok initial)
      by (unfold zoom_ok, initial; cbn [scale position]; repeat split; lra).
    revert H0. generalize initial. induction es as [|e es IH]; intros s Hs.
    - exact Hs.
    - cbn [fold_left]. apply IH. now apply lightbox_step_ok. }
  destruct H as (H1 & H5 & H0). repeat split; try assumption.
  - apply H0. unfold handleBackdropClick in H.
    apply andb_true_iff in H as [_ H]. now apply Qeq_bool_iff.
  - unfold handleBackdropClick in H. apply andb_true_iff in H as [H _].
    now apply negb_true_iff in H.
Qed.

Lemma lightbox_zoom_stays_in_range_witness :
  let pan := [ZoomIn; MouseDown 10 10; MouseMove 30 40; MouseUp] in
  position (run initial pan) = (20, 30) /\
  scale (run initial (pan ++ [ZoomOut])) == 1 /\
  handleBackdropClick (run initial (pan ++ [ZoomOut])) = true /\
  position (run initial (pan ++ [ZoomOut])) = (0, 0).
Proof.
  intros pan.
  assert (H1 : scale (run initial (pan ++ [ZoomOut])) == 1) by reflexivity.
  assert (H2 : handleBackdropClick (run initial (pan ++ [ZoomOut])) = true)
    by reflexivity.
  split; [vm_compute; reflexivity |]. split; [exact H1 |].
  split; [exact H2 |].
  exact (proj1 (proj2 (proj2 (lightbox_zoom_stays_in_range
                                (pan ++ [ZoomOut])))) H1).
Defined.

End LightboxFacts.
